(** * Workflow patcher scripts: a shallow embedding and its properties

    The four maintenance scripts under [scripts/] rewrite the GitHub
    workflow files of one directory with Python's [str.replace] and [re.sub].
    This file embeds the text operations, the regular expressions the scripts
    use, the directory they work on and the four scripts themselves, and
    proves properties of them. *)

From Stdlib Require Import String Ascii.
From Stdlib Require Import List NArith Arith Lia Bool.
From Stdlib Require Import Sorting.Sorted Sorting.Permutation.
From Stdlib Require Import Numbers.DecimalString.
Import ListNotations.

(** ** Text

    A Python [str] is a sequence of Unicode code points. *)

Definition char := N.
Definition text := list char.

Definition chr (a : ascii) : char := N_of_ascii a.

Fixpoint txt (s : string) : text :=
  match s with
  | EmptyString => []
  | String a s' => chr a :: txt s'
  end.

Definition NL : char := 10%N.

Fixpoint text_eqb (a b : text) : bool :=
  match a, b with
  | [], [] => true
  | x :: a', y :: b' => N.eqb x y && text_eqb a' b'
  | _, _ => false
  end.

(** [s.startswith(p)] *)
Fixpoint starts_with (p s : text) : bool :=
  match p, s with
  | [], _ => true
  | x :: p', y :: s' => N.eqb x y && starts_with p' s'
  | _ :: _, [] => false
  end.

(** [p in s] *)
Fixpoint contains (p s : text) : bool :=
  starts_with p s ||
  match s with
  | [] => false
  | _ :: s' => contains p s'
  end.

(** number of positions of [s] at which [p] occurs *)
Fixpoint occurrences (p s : text) : nat :=
  (if starts_with p s then 1 else 0) +
  match s with
  | [] => 0
  | _ :: s' => occurrences p s'
  end.

(** [s.endswith(p)] *)
Definition ends_with (p s : text) : bool :=
  starts_with (rev p) (rev s).

(** [str(n)] for a non-negative integer *)
Definition str_of_nat (n : nat) : text :=
  txt (NilEmpty.string_of_uint (Nat.to_uint n)).

(** ** Character classes of [re] on [str] patterns *)

(** [\s]: the code points for which [str.isspace] holds. *)
Definition is_space (c : char) : bool :=
  existsb (N.eqb c)
    [9; 10; 11; 12; 13; 28; 29; 30; 31; 32; 133; 160; 5760;
     8192; 8193; 8194; 8195; 8196; 8197; 8198; 8199; 8200; 8201; 8202;
     8232; 8233; 8239; 8287; 12288]%N.

(** [\d]: the decimal digits of Unicode (category Nd), as ranges. *)
Definition decimal_ranges : list (N * N) :=
  [(48,57); (1632,1641); (1776,1785); (1984,1993); (2406,2415); (2534,2543);
   (2662,2671); (2790,2799); (2918,2927); (3046,3055); (3174,3183);
   (3302,3311); (3430,3439); (3558,3567); (3664,3673); (3792,3801);
   (3872,3881); (4160,4169); (4240,4249); (6112,6121); (6160,6169);
   (6470,6479); (6608,6617); (6784,6793); (6800,6809); (6992,7001);
   (7088,7097); (7232,7241); (7248,7257); (42528,42537); (43216,43225);
   (43264,43273); (43472,43481); (43504,43513); (43600,43609); (44016,44025);
   (65296,65305); (66720,66729); (68912,68921); (69734,69743); (69872,69881);
   (69942,69951); (70096,70105); (70384,70393); (70736,70745); (70864,70873);
   (71248,71257); (71360,71369); (71472,71481); (71904,71913); (72016,72025);
   (72784,72793); (73040,73049); (73120,73129); (92768,92777); (92864,92873);
   (93008,93017); (120782,120831); (123200,123209); (123632,123641);
   (125264,125273); (130032,130041)]%N.

Definition is_decimal (c : char) : bool :=
  existsb (fun r => N.leb (fst r) c && N.leb c (snd r)) decimal_ranges.

(** [[^\n]] *)
Definition not_newline (c : char) : bool := negb (N.eqb c NL).

(** [[ ]] *)
Definition is_blank (c : char) : bool := N.eqb c 32%N.

(** ** The regular expressions of the scripts

    Every pattern of the scripts is a sequence of literal characters,
    character classes, greedy [+] and [*] over a class, the [$] anchor
    under [re.MULTILINE], and at most one capture group, which opens
    where the pattern starts. *)

Inductive atom : Type :=
| Chr (c : char)                  (* a literal character *)
| Cls (p : char -> bool)          (* one character of a class *)
| Star (p : char -> bool)         (* class*, greedy *)
| Plus (p : char -> bool)         (* class+, greedy *)
| Eol                             (* $ with re.MULTILINE *)
| Close.                          (* the ")" of group 1 *)

Definition regex := list atom.

Definition lit (s : string) : regex := map Chr (txt s).

(** A greedy loop over the class [p]: take one more character if there is
    one, and only when everything behind that fails go on with [k] from
    here. *)
Definition greedy (p : char -> bool)
           (k : nat -> text -> option (nat * nat))
  : nat -> text -> option (nat * nat) :=
  fix star (off : nat) (s : text) {struct s} : option (nat * nat) :=
    match s with
    | x :: s' =>
        if p x then
          match star (S off) s' with
          | Some res => Some res
          | None => k off s
          end
        else k off s
    | [] => k off s
    end.

(** [match_from r off g s]: the backtracking matcher at one position.
    [off] characters of the match are already consumed, group 1 ended at
    offset [g], [s] is what remains.  The result is the offset where the
    match ends and the offset where group 1 ends. *)
Fixpoint match_from (r : regex) : nat -> nat -> text -> option (nat * nat) :=
  match r with
  | [] => fun off g _ => Some (off, g)
  | Chr c :: r' => fun off g s =>
      match s with
      | x :: s' => if N.eqb x c then match_from r' (S off) g s' else None
      | [] => None
      end
  | Cls p :: r' => fun off g s =>
      match s with
      | x :: s' => if p x then match_from r' (S off) g s' else None
      | [] => None
      end
  | Star p :: r' => fun off g s =>
      greedy p (fun off' s' => match_from r' off' g s') off s
  | Plus p :: r' => fun off g s =>
      match s with
      | x :: s' =>
          if p x
          then greedy p (fun off' s' => match_from r' off' g s') (S off) s'
          else None
      | [] => None
      end
  | Eol :: r' => fun off g s =>
      match s with
      | [] => match_from r' off g s
      | x :: _ => if N.eqb x NL then match_from r' off g s else None
      end
  | Close :: r' => fun off _ s => match_from r' off off s
  end.

(** [pattern.match(s)]: end of the match and end of group 1. *)
Definition match_here (r : regex) (s : text) : option (nat * nat) :=
  match_from r 0 0 s.

(** [re.search(r, s)]: start of the leftmost match, or [None]. *)
Fixpoint search (r : regex) (s : text) : option nat :=
  match match_here r s with
  | Some _ => Some 0
  | None =>
      match s with
      | [] => None
      | _ :: s' => option_map S (search r s')
      end
  end.

(** ** Left-to-right replacement

    [str.replace], [re.sub], [re.subn] and [re.findall] all walk the text
    from the left, look for a match at the current position, and continue
    behind it.  [m s] says whether a match starts at the head of [s]: its
    length and the text that replaces it. *)

Section Scan.

Variable m : text -> option (nat * text).

(** [skip] characters still belong to the match found before.  A match
    of length zero is replaced and the next character is copied. *)
Fixpoint scan (skip : nat) (s : text) : text :=
  match skip with
  | S k =>
      match s with
      | [] => []
      | _ :: s' => scan k s'
      end
  | O =>
      match m s with
      | Some (n, out) =>
          out ++
          match s with
          | [] => []
          | c :: s' =>
              match n with
              | O => c :: scan 0 s'
              | S k => scan k s'
              end
          end
      | None =>
          match s with
          | [] => []
          | c :: s' => c :: scan 0 s'
          end
      end
  end.

(** number of replacements made by [scan] *)
Fixpoint scan_count (skip : nat) (s : text) : nat :=
  match skip with
  | S k =>
      match s with
      | [] => 0
      | _ :: s' => scan_count k s'
      end
  | O =>
      match m s with
      | Some (n, _) =>
          1 +
          match s with
          | [] => 0
          | _ :: s' => scan_count (pred n) s'
          end
      | None =>
          match s with
          | [] => 0
          | _ :: s' => scan_count 0 s'
          end
      end
  end.

End Scan.

(** [s.replace(a, b)] *)
Definition literal_match (a b : text) (s : text) : option (nat * text) :=
  if starts_with a s then Some (length a, b) else None.

Definition replace (a b : text) (s : text) : text :=
  scan (literal_match a b) 0 s.

(** [re.sub(r, repl, s)]; [repl] receives the text of group 1. *)
Definition regex_match (r : regex) (repl : text -> text) (s : text)
  : option (nat * text) :=
  match match_here r s with
  | Some (e, g) => Some (e, repl (firstn g s))
  | None => None
  end.

Definition sub (r : regex) (repl : text -> text) (s : text) : text :=
  scan (regex_match r repl) 0 s.

(** [len(re.findall(r, s))], also the count of [re.subn] *)
Definition findall_count (r : regex) (s : text) : nat :=
  scan_count (regex_match r (fun g => g)) 0 s.

Definition subn (r : regex) (repl : text -> text) (s : text) : text * nat :=
  (sub r repl s, findall_count r s).

Definition found (r : regex) (s : text) : bool :=
  match search r s with
  | Some _ => true
  | None => false
  end.

(** ** The workflows directory and the effects of a script

    A script reads and writes the files of [.github/workflows], prints
    lines, and may leave through [sys.exit].  The directory is [None] when
    it does not exist; its entries, all of them regular files, are kept in
    the order in which the operating system lists them. *)

Definition name := text.

Record world : Type := World {
  dir : option (list (name * text));
  stdout : list text
}.

Inductive outcome (A : Type) : Type :=
| Ret (a : A)
| Exit (status : nat)       (* sys.exit(status) *)
| Raise.                    (* an exception nobody catches *)

Arguments Ret {A} a.
Arguments Exit {A} status.
Arguments Raise {A}.

Definition IO (A : Type) : Type := world -> outcome A * world.

Definition ret {A} (a : A) : IO A := fun w => (Ret a, w).

Definition bind {A B} (c : IO A) (k : A -> IO B) : IO B :=
  fun w =>
    match c w with
    | (Ret a, w') => k a w'
    | (Exit n, w') => (Exit n, w')
    | (Raise, w') => (Raise, w')
    end.

Notation "x <- c ;; k" := (bind c (fun x => k))
  (at level 61, c at next level, right associativity).
Notation "c ;; k" := (bind c (fun _ => k))
  (at level 61, right associativity).

Definition print (line : text) : IO unit :=
  fun w => (Ret tt, World (dir w) (stdout w ++ [line])).

Definition sys_exit {A} (status : nat) : IO A :=
  fun w => (Exit status, w).

Fixpoint lookup (n : name) (fs : list (name * text)) : option text :=
  match fs with
  | [] => None
  | (k, v) :: fs' => if text_eqb k n then Some v else lookup n fs'
  end.

Fixpoint store (n : name) (v : text) (fs : list (name * text))
  : list (name * text) :=
  match fs with
  | [] => [(n, v)]
  | (k, v') :: fs' =>
      if text_eqb k n then (k, v) :: fs' else (k, v') :: store n v fs'
  end.

(** [path.read_text()], [open(path, 'r').read()] *)
Definition read_text (n : name) : IO text :=
  fun w =>
    match dir w with
    | Some fs =>
        match lookup n fs with
        | Some v => (Ret v, w)
        | None => (Raise, w)
        end
    | None => (Raise, w)
    end.

(** [path.write_text(v)], [open(path, 'w').write(v)] *)
Definition write_text (n : name) (v : text) : IO unit :=
  fun w =>
    match dir w with
    | Some fs => (Ret tt, World (Some (store n v fs)) (stdout w))
    | None => (Raise, w)
    end.

(** [WORKFLOWS_DIR.exists()] *)
Definition dir_exists : IO bool :=
  fun w =>
    match dir w with
    | Some _ => (Ret true, w)
    | None => (Ret false, w)
    end.

(** [workflows_dir.glob('*.yml')]: the entries whose name ends in [.yml],
    in listing order; nothing when the directory is missing. *)
Definition glob_yml : IO (list name) :=
  fun w =>
    match dir w with
    | Some fs => (Ret (filter (ends_with (txt ".yml")) (map fst fs)), w)
    | None => (Ret [], w)
    end.

(** Paths of one directory compare as their names do: code point by code
    point, a proper prefix first. *)
Fixpoint text_leb (a b : text) : bool :=
  match a, b with
  | [], _ => true
  | _ :: _, [] => false
  | x :: a', y :: b' =>
      if N.ltb x y then true
      else if N.eqb x y then text_leb a' b' else false
  end.

Fixpoint insert_sorted (x : name) (l : list name) : list name :=
  match l with
  | [] => [x]
  | y :: l' => if text_leb x y then x :: l else y :: insert_sorted x l'
  end.

(** [sorted(paths)] *)
Fixpoint sorted (l : list name) : list name :=
  match l with
  | [] => []
  | x :: l' => insert_sorted x (sorted l')
  end.

(** [for x in xs: acc = body(x, acc)] *)
Fixpoint for_in {A S} (xs : list A) (body : A -> S -> IO S) (acc : S)
  : IO S :=
  match xs with
  | [] => ret acc
  | x :: xs' => acc' <- body x acc ;; for_in xs' body acc'
  end.

(** The exit status of the process and the world it leaves. *)
Definition run_script (main : IO unit) (w : world) : nat * world :=
  match main w with
  | (Ret _, w') => (0, w')
  | (Exit n, w') => (n, w')
  | (Raise, w') => (1, w')
  end.

(** ** scripts/fix-all-pnpm-workflows.py *)

Module FixAll.

Definition pattern1 : regex := lit "pnpm/action-setup@v4".

(** [(pnpm/action-setup@v\d+\s+with:\s+version:)\s*9] *)
Definition pattern2 : regex :=
  lit "pnpm/action-setup@v" ++ [Plus is_decimal; Plus is_space] ++
  lit "with:" ++ [Plus is_space] ++ lit "version:" ++
  [Close; Star is_space; Chr (chr "9")].

Definition fix1 (content : text) : text :=
  sub pattern1 (fun _ => txt "pnpm/action-setup@v2") content.

(** the template [\1 10] *)
Definition fix2 (content : text) : text :=
  sub pattern2 (fun g1 => g1 ++ txt " 10") content.

Definition change1 (count : nat) : text :=
  txt "Updated action version v4 " ++ [8594%N] ++ txt " v2 (" ++
  str_of_nat count ++ txt " occurrences)".

Definition change2 (count : nat) : text :=
  txt "Updated pnpm version 9 " ++ [8594%N] ++ txt " 10 (" ++
  str_of_nat count ++ txt " occurrences)".

(** The rules of [fix_workflow_file] on the text it has read: the new
    content and the list of changes. *)
Definition fix_content (original_content : text) : text * list text :=
  let content := original_content in
  let changes := [] in
  let '(content, changes) :=
    if found pattern1 content then
      (fix1 content,
       changes ++ [change1 (findall_count pattern1 original_content)])
    else (content, changes) in
  let '(content, changes) :=
    if found pattern2 content then
      (fix2 content,
       changes ++ [change2 (findall_count pattern2 original_content)])
    else (content, changes) in
  (content, changes).

Definition fix_workflow_file (file_path : name) : IO (bool * list text) :=
  original_content <- read_text file_path ;;
  let '(content, changes) := fix_content original_content in
  if negb (text_eqb content original_content) then
    write_text file_path content ;;
    ret (true, changes)
  else ret (false, []).

Definition main : IO unit :=
  print ([128295%N] ++
         txt " Fixing pnpm configuration in all workflow files..." ++
         [NL]) ;;
  workflow_files <- glob_yml ;;
  print (txt "Found " ++ str_of_nat (length workflow_files) ++
         txt " workflow files" ++ [NL]) ;;
  modified <-
    for_in (sorted workflow_files)
      (fun file modified =>
         r <- fix_workflow_file file ;;
         let '(success, changes) := r in
         if success then
           print ([10003%N] ++ txt " " ++ file) ;;
           for_in changes
             (fun change _ => print (txt "  - " ++ change)) tt ;;
           ret (modified ++ [file])
         else
           print ([8226%N] ++ txt " " ++ file ++
                  txt " - no changes needed") ;;
           ret modified)
      [] ;;
  print ([NL] ++ repeat (chr "=") 80) ;;
  print ([9989%N] ++ txt " Processed " ++
         str_of_nat (length workflow_files) ++ txt " workflow files") ;;
  match modified with
  | _ :: _ =>
      print ([128221%N] ++ txt " Modified " ++
             str_of_nat (length modified) ++ txt " files")
  | [] => print ([128221%N] ++ txt " No files needed modifications")
  end.

End FixAll.

(** ** scripts/maintenance/fix-github-workflows.py *)

Module FixGithub.

Definition PNPM_SETUP : text :=
  txt "      - name: Install pnpm" ++ [NL] ++
  txt "        uses: pnpm/action-setup@v4" ++ [NL] ++
  txt "        with:" ++ [NL] ++
  txt "          version: 9" ++ [NL] ++ [NL].

Definition has_pnpm_setup (content : text) : bool :=
  contains (txt "pnpm/action-setup") content.

Definition needs_pnpm_setup (content : text) : bool :=
  contains (txt "cache: 'npm'") content ||
  contains (txt "run: npm ci") content ||
  contains (txt "run: npm install") content.

(** [(\s+- name: Setup Node\.js[^\n]*\n\s+uses: actions/setup-node@)] *)
Definition setup_node : regex :=
  [Plus is_space] ++ lit "- name: Setup Node.js" ++
  [Star not_newline; Chr NL; Plus is_space] ++
  lit "uses: actions/setup-node@" ++ [Close].

Definition add_pnpm_setup (content : text) : IO text :=
  match search setup_node content with
  | None =>
      print (txt "   " ++ [9888%N; 65039%N] ++
             txt "  Could not find 'Setup Node.js' step to insert pnpm setup") ;;
      ret content
  | Some pos =>
      ret (firstn pos content ++ PNPM_SETUP ++ skipn pos content)
  end.

(** [run: npm ci$] and [run: npm install$] under [re.MULTILINE] *)
Definition npm_ci : regex := lit "run: npm ci" ++ [Eol].
Definition npm_install : regex := lit "run: npm install" ++ [Eol].

Definition rule1 (content : text) : text :=
  replace (txt "cache: 'npm'") (txt "cache: 'pnpm'") content.

Definition rule2 (content : text) : text :=
  sub npm_ci (fun _ => txt "run: pnpm install --frozen-lockfile") content.

Definition rule3 (content : text) : text :=
  sub npm_install (fun _ => txt "run: pnpm install") content.

(** Steps 1 to 3 of [fix_workflow]: the content and the [modified]
    flag after them. *)
Definition rewrite_npm (content : text) (modified : bool) : text * bool :=
  let '(content, modified) :=
    if contains (txt "cache: 'npm'") content
    then (rule1 content, true) else (content, modified) in
  let '(content, modified) :=
    if contains (txt "run: npm ci") content
    then (rule2 content, true) else (content, modified) in
  let '(content, modified) :=
    if found npm_install content
    then (rule3 content, true) else (content, modified) in
  (content, modified).

Definition backup_path (file_path : name) : name :=
  file_path ++ txt ".bak".

Definition fix_workflow (file_path : name) : IO bool :=
  original_content <- read_text file_path ;;
  let content := original_content in
  let modified := false in
  if negb (needs_pnpm_setup content) then ret false
  else
    let '(content, modified) := rewrite_npm content modified in
    r <- (if negb (has_pnpm_setup content) then
            content' <- add_pnpm_setup content ;;
            ret (content', true)
          else ret (content, modified)) ;;
    let '(content, modified) := r in
    (if modified : bool then
       write_text (backup_path file_path) original_content ;;
       write_text file_path content
     else ret tt) ;;
    ret modified.

Definition main : IO unit :=
  print ([128295%N] ++
         txt " Fixing GitHub Actions workflows to use pnpm..." ++ [NL]) ;;
  e <- dir_exists ;;
  (if negb e then
     print ([10060%N] ++ txt " Error: .github/workflows not found") ;;
     sys_exit 1
   else ret tt) ;;
  workflow_files <- (l <- glob_yml ;; ret (sorted l)) ;;
  counts <-
    for_in workflow_files
      (fun file_path counts =>
         let '(fixed_count, skipped_count) := counts in
         print (txt "Processing: " ++ file_path) ;;
         fixed <- fix_workflow file_path ;;
         if fixed : bool then
           print (txt "   " ++ [9989%N] ++ txt " Fixed" ++ [NL]) ;;
           ret (fixed_count + 1, skipped_count)
         else
           print (txt "   " ++ [9197%N; 65039%N] ++
                  txt "  Skipped (already uses pnpm or no npm commands)" ++
                  [NL]) ;;
           ret (fixed_count, skipped_count + 1))
      (0, 0) ;;
  let '(fixed_count, skipped_count) := counts in
  print (repeat 9473%N 70) ;;
  print ([9989%N] ++ txt " Fixed: " ++ str_of_nat fixed_count ++
         txt " workflows") ;;
  print ([9197%N; 65039%N] ++ txt "  Skipped: " ++
         str_of_nat skipped_count ++ txt " workflows") ;;
  print ([NL; 128193%N] ++ txt " Backup files created with .bak extension") ;;
  print (repeat 9473%N 70).

End FixGithub.

(** ** scripts/update-pnpm-version.py *)

Module UpdateVersion.

Definition find_workflow_files : IO (list name) :=
  files <- glob_yml ;;
  for_in files
    (fun file acc =>
       content <- read_text file ;;
       if contains (txt "pnpm/action-setup") content
       then ret (acc ++ [file]) else ret acc)
    [].

(** [(uses: pnpm/action-setup@v2\s+with:\s+version:)\s*8] *)
Definition pattern : regex :=
  lit "uses: pnpm/action-setup@v2" ++ [Plus is_space] ++
  lit "with:" ++ [Plus is_space] ++ lit "version:" ++
  [Close; Star is_space; Chr (chr "8")].

Definition new_content (content : text) : text :=
  sub pattern (fun g1 => g1 ++ txt " 10") content.

Definition update_pnpm_version (file_path : name) : IO (bool * text) :=
  content <- read_text file_path ;;
  let original_content := content in
  if negb (text_eqb (new_content content) original_content) then
    write_text file_path (new_content content) ;;
    ret (true,
         txt "Updated pnpm version 8 " ++ [8594%N] ++ txt " 10 (" ++
         str_of_nat (findall_count pattern content) ++ txt " locations)")
  else
    ret (false,
         txt "No version 8 found (already updated or different version)").

Definition main : IO unit :=
  print ([128295%N] ++ txt " Updating pnpm version in workflow files..." ++
         [NL]) ;;
  workflow_files <- find_workflow_files ;;
  print (txt "Found " ++ str_of_nat (length workflow_files) ++
         txt " workflow files using pnpm/action-setup" ++ [NL]) ;;
  modified <-
    for_in workflow_files
      (fun file modified =>
         print (txt "Processing: " ++ file) ;;
         r <- update_pnpm_version file ;;
         let '(success, message) := r in
         print (txt "  " ++
                (if success : bool then [10003%N] else [8226%N]) ++
                txt " " ++ message) ;;
         if success then ret (modified ++ [file]) else ret modified)
      [] ;;
  print ([NL; 9989%N] ++ txt " Processed " ++
         str_of_nat (length workflow_files) ++ txt " workflow files") ;;
  match modified with
  | _ :: _ =>
      print (txt "Modified " ++ str_of_nat (length modified) ++
             txt " files:" ++ [NL]) ;;
      for_in modified (fun n _ => print (txt "  - " ++ n)) tt
  | [] => print (txt "No files needed updates")
  end.

End UpdateVersion.

(** ** scripts/fix-pnpm-workflows.py *)

Module FixPnpm.

Definition PNPM_SETUP : text :=
  txt "      - name: " ++ [128230%N] ++ txt " Setup pnpm" ++ [NL] ++
  txt "        uses: pnpm/action-setup@v2" ++ [NL] ++
  txt "        with:" ++ [NL] ++
  txt "          version: 8" ++ [NL] ++ [NL].

Definition find_workflow_files : IO (list name) :=
  files <- glob_yml ;;
  for_in files
    (fun file acc =>
       content <- read_text file ;;
       if contains (txt "cache: 'pnpm'") content
       then ret (acc ++ [file]) else ret acc)
    [].

(** [([ ]{6}- name: [^\n]+Setup Node[^\n]*\n[ ]{8}uses: actions/setup-node@v4)] *)
Definition pattern : regex :=
  repeat (Cls is_blank) 6 ++ lit "- name: " ++ [Plus not_newline] ++
  lit "Setup Node" ++ [Star not_newline; Chr NL] ++
  repeat (Cls is_blank) 8 ++ lit "uses: actions/setup-node@v4" ++ [Close].

Definition replacement (group1 : text) : text := PNPM_SETUP ++ group1.

Definition fix_workflow_file (file_path : name) : IO (bool * text) :=
  content <- read_text file_path ;;
  if contains (txt "pnpm/action-setup") content then
    ret (false, txt "Already has pnpm setup")
  else
    let '(new_content, count) := subn pattern replacement content in
    if 0 <? count then
      write_text file_path new_content ;;
      ret (true,
           txt "Added pnpm setup (" ++ str_of_nat count ++
           txt " locations)")
    else ret (false, txt "No setup-node found").

Definition main : IO unit :=
  print ([128295%N] ++ txt " Fixing pnpm setup in workflow files..." ++
         [NL]) ;;
  workflow_files <- find_workflow_files ;;
  print (txt "Found " ++ str_of_nat (length workflow_files) ++
         txt " workflow files using pnpm" ++ [NL]) ;;
  modified <-
    for_in workflow_files
      (fun file modified =>
         print (txt "Processing: " ++ file) ;;
         r <- fix_workflow_file file ;;
         let '(success, message) := r in
         print (txt "  " ++
                (if success : bool then [10003%N] else [8226%N]) ++
                txt " " ++ message) ;;
         if success then ret (modified ++ [file]) else ret modified)
      [] ;;
  print ([NL; 9989%N] ++ txt " Processed " ++
         str_of_nat (length workflow_files) ++ txt " workflow files") ;;
  print (txt "Modified " ++ str_of_nat (length modified) ++
         txt " files:" ++ [NL]) ;;
  for_in modified (fun n _ => print (txt "  - " ++ n)) tt.

End FixPnpm.

(** * Vocabulary of the properties *)

(** ** Scanning *)

(** [quiet m u t]: in [u ++ t] no match starts inside [u] *)
Definition quiet (m : text -> option (nat * text)) (u t : text) : Prop :=
  forall n, n < length u -> m (skipn n u ++ t) = None.

(** ** Runs *)

(** [keeps P c]: running [c] in a world with [P] leaves a world with [P] *)
Definition keeps {A} (P : world -> Prop) (c : IO A) : Prop :=
  forall w, P w -> P (snd (c w)).

(** [f] holds the text [c]. *)
Definition holds (f : name) (c : text) (w : world) : Prop :=
  exists fs, dir w = Some fs /\ lookup f fs = Some c.

(** a directory with one file that needs the rewrite and one that does not *)
Definition gated_world : world :=
  World (Some [(txt "build.yml", txt "      - run: npm ci" ++ [NL]);
               (txt "test.yml", txt "      - run: pnpm test" ++ [NL])])
        [].

(** a workflow that runs [npm ci] with an option, and has no Node.js step *)
Definition stale_text : text :=
  txt "      - run: npm ci --prefer-offline" ++ [NL].

(** a directory with only that workflow *)
Definition stale_world : world :=
  World (Some [(txt "ci.yml", stale_text)]) [].

(** the files that the lines of a report name, in order *)
Definition named (per : text -> option name) (lines : list text)
  : list name :=
  flat_map (fun l => match per l with Some n => [n] | None => [] end) lines.

(** [emits P per c names]: from a directory that satisfies [P], [c] returns
    normally, leaves a directory that satisfies [P], and the lines it prints
    name, through [per], the files [names] in this order *)
Definition emits {A} (P : option (list (name * text)) -> Prop)
           (per : text -> option name) (c : IO A) (names : list name)
  : Prop :=
  forall w, P (dir w) ->
    exists a w' lines,
      c w = (Ret a, w') /\ P (dir w') /\
      stdout w' = stdout w ++ lines /\ named per lines = names.

(** the directory exists and has every file of [names] *)
Definition has_all (names : list name) (d : option (list (name * text)))
  : Prop :=
  exists fs, d = Some fs /\ forall n, In n names -> lookup n fs <> None.

(** the names that [glob('*.yml')] finds, in listing order *)
Definition yml_names (fs : list (name * text)) : list name :=
  filter (ends_with (txt ".yml")) (map fst fs).

(** the order of [sorted] *)
Definition in_order (a b : name) : Prop := text_leb a b = true.

(** the file a report line of fix-all-pnpm-workflows.py is about *)
Definition fix_all_reported (line : text) : option name :=
  if starts_with [10003%N; 32%N] line then Some (skipn 2 line)
  else if starts_with [8226%N; 32%N] line
       then Some (firstn (length line - 22) (skipn 2 line))
       else None.

(** the loop of [main] in fix-all-pnpm-workflows.py *)
Definition fix_all_loop (files : list name) : IO (list name) :=
  for_in files
    (fun file modified =>
       r <- FixAll.fix_workflow_file file ;;
       let '(success, changes) := r in
       if success then
         print ([10003%N] ++ txt " " ++ file) ;;
         for_in changes
           (fun change _ => print (txt "  - " ++ change)) tt ;;
         ret (modified ++ [file])
       else
         print ([8226%N] ++ txt " " ++ file ++
                txt " - no changes needed") ;;
         ret modified)
    [].

(** the file a [Processing: ...] line is about *)
Definition processing_line (line : text) : option name :=
  if starts_with (txt "Processing: ") line then Some (skipn 12 line)
  else None.

(** the loop of [main] in fix-github-workflows.py *)
Definition fix_github_loop (files : list name) : IO (nat * nat) :=
  for_in files
    (fun file_path counts =>
       let '(fixed_count, skipped_count) := counts in
       print (txt "Processing: " ++ file_path) ;;
       fixed <- FixGithub.fix_workflow file_path ;;
       if fixed : bool then
         print (txt "   " ++ [9989%N] ++ txt " Fixed" ++ [NL]) ;;
         ret (fixed_count + 1, skipped_count)
       else
         print (txt "   " ++ [9197%N; 65039%N] ++
                txt "  Skipped (already uses pnpm or no npm commands)" ++
                [NL]) ;;
         ret (fixed_count, skipped_count + 1))
    (0, 0).

(** a workflow that uses the pnpm cache *)
Definition pnpm_cache_text : text :=
  txt "          cache: 'pnpm'" ++ [NL].

(** a directory that lists [b.yml] before [a.yml] *)
Definition unsorted_world : world :=
  World (Some [(txt "b.yml", pnpm_cache_text);
               (txt "a.yml", pnpm_cache_text)]) [].

(** ** Matching *)

(** length of the longest prefix of [s] inside the class [p] *)
Fixpoint span (p : char -> bool) (s : text) : nat :=
  match s with
  | x :: s' => if p x then S (span p s') else 0
  | [] => 0
  end.

(** [r] cannot start with a character of the class [p] *)
Definition rejects (r : regex) (p : char -> bool) : Prop :=
  forall x s off g, p x = true -> match_from r off g (x :: s) = None.

(** the pattern starts with something that takes a character *)
Definition consuming (r : regex) : Prop :=
  match r with
  | Chr _ :: _ | Cls _ :: _ | Plus _ :: _ => True
  | _ => False
  end.

(** [\s+with:\s+version:)\s*t], the part both version patterns share *)
Definition version_tail (t : char) : regex :=
  Plus is_space ::
  (map Chr (txt "with:") ++
   Plus is_space ::
   (map Chr (txt "version:") ++ [Close; Star is_space; Chr t])).

(** a run of characters of [\s] *)
Definition whitespace (ws : text) : Prop := forallb is_space ws = true.

(** the text from the action reference to [version:] *)
Inductive version_window (anchor : text -> Prop) : text -> Prop :=
| window (a ws1 ws2 : text) :
    anchor a ->
    ws1 <> [] -> whitespace ws1 -> ws2 <> [] -> whitespace ws2 ->
    version_window anchor (a ++ ws1 ++ txt "with:" ++ ws2 ++ txt "version:").

(** [bumps anchor t s o]: [o] is [s], except that behind some version
    windows the white space and the number [t] have become [ 10].  Every
    other character of [s] is in [o], unchanged and in place. *)
Inductive bumps (anchor : text -> Prop) (t : char) : text -> text -> Prop :=
| bumps_end : bumps anchor t [] []
| bumps_copy (c : char) (s o : text) :
    bumps anchor t s o -> bumps anchor t (c :: s) (c :: o)
| bumps_window (w ws s o : text) :
    version_window anchor w -> whitespace ws -> bumps anchor t s o ->
    bumps anchor t (w ++ ws ++ t :: s) (w ++ txt " 10" ++ o).

(** [pnpm/action-setup@v] and a version number *)
Definition setup_any (a : text) : Prop :=
  exists ds, a = txt "pnpm/action-setup@v" ++ ds /\ ds <> [] /\
             forallb is_decimal ds = true.

(** [uses: pnpm/action-setup@v2] *)
Definition setup_v2 (a : text) : Prop :=
  a = txt "uses: pnpm/action-setup@v2".

(** ** Lines *)

(** the stretches of a text between its line feeds *)
Fixpoint lines (s : text) : list text :=
  match s with
  | [] => [[]]
  | c :: s' =>
      if N.eqb c NL then [] :: lines s'
      else (c :: hd [] (lines s')) :: tl (lines s')
  end.

(** lines joined by line feeds *)
Fixpoint unlines (ls : list text) : text :=
  match ls with
  | [] => []
  | l :: ls' =>
      match ls' with
      | [] => l
      | _ :: _ => l ++ NL :: unlines ls'
      end
  end.

(** a text of one line *)
Definition no_line_feed (l : text) : Prop := forallb not_newline l = true.

(** where [$] matches under [re.MULTILINE] *)
Definition at_eol (s : text) : bool :=
  match s with
  | [] => true
  | x :: _ => N.eqb x NL
  end.

(** a line with its end [a] replaced by [b] *)
Definition swap_suffix (a b : text) (l : text) : text :=
  if ends_with a l then firstn (length l - length a) l ++ b else l.

(** the pattern [a$] *)
Definition at_line_end (a : text) : regex := map Chr a ++ [Eol].

(** what the npm rewrite does to one line *)
Definition fix_line (l : text) : text :=
  if ends_with (txt "run: npm ci") l then
    firstn (length l - 11) l ++ txt "run: pnpm install --frozen-lockfile"
  else if ends_with (txt "run: npm install") l then
    firstn (length l - 16) l ++ txt "run: pnpm install"
  else l.

(** ** Overlap *)

(** [p] and [x] differ at a position both have *)
Fixpoint clash (p x : text) : bool :=
  match p, x with
  | a :: p', b :: x' => negb (N.eqb a b) || clash p' x'
  | _, _ => false
  end.

(** [p] clashes with every non-empty suffix of [u]: no occurrence of [p]
    starts inside [u], whatever follows [u] *)
Fixpoint apart (p u : text) : bool :=
  match u with
  | [] => true
  | _ :: u' => clash p u && apart p u'
  end.

(** a workflow with a pnpm step, a Node.js step and [npm ci] *)
Definition already_set_up : text :=
  txt "      - uses: pnpm/action-setup@v4" ++ [NL] ++
  txt "      - name: Setup Node.js" ++ [NL] ++
  txt "        uses: actions/setup-node@v4" ++ [NL] ++
  txt "      - run: npm ci" ++ [NL].

(** a text without the character [x] *)
Definition lacks (x : char) (u : text) : bool :=
  forallb (fun c => negb (N.eqb x c)) u.

(** the text every match of the version pattern starts with *)
Definition setup_ref : text := txt "pnpm/action-setup@v".

(** the text between an action reference and what follows the number *)
Definition version_field (ws1 ws2 ws3 : text) (x : char) : text :=
  ws1 ++ txt "with:" ++ ws2 ++ txt "version:" ++ ws3 ++ [x].

(** the matcher of a version rule: the template [\1 10] *)
Definition bump (r : regex) : text -> option (nat * text) :=
  regex_match r (fun g1 => g1 ++ txt " 10").

(** what a version rule does, without the windows *)
Inductive edits : text -> text -> Prop :=
| edits_end : edits [] []
| edits_copy (c : char) (s o : text) :
    edits s o -> edits (c :: s) (c :: o)
| edits_bump (ws : text) (t : char) (s o : text) :
    edits s o -> edits (ws ++ t :: s) (txt " 10" ++ o).

(** ** The text of fix-github-workflows.py *)

(** step 4 on the text: the setup block goes where the pattern matches *)
Definition insert_setup (content : text) : text :=
  match search FixGithub.setup_node content with
  | Some pos =>
      firstn pos content ++ FixGithub.PNPM_SETUP ++ skipn pos content
  | None => content
  end.

(** the text [fix_workflow] ends with *)
Definition fix_github_text (content : text) : text :=
  if FixGithub.needs_pnpm_setup content then
    let c := fst (FixGithub.rewrite_npm content false) in
    if FixGithub.has_pnpm_setup c then c else insert_setup c
  else content.

(** ** Discovery *)

(** the [*.yml] files whose text contains [marker], in listing order *)
Definition marked_files (marker : text) (fs : list (name * text))
  : list name :=
  filter (fun n => match lookup n fs with
                   | Some c => contains marker c
                   | None => false
                   end)
         (yml_names fs).

(** ** What step 1 of fix-all-pnpm-workflows.py changes *)

(** [x] and [y] are the same character, or [x] is the [4] that step 1
    turns into the [2] that [y] is *)
Definition alike (x y : char) : Prop :=
  x = y \/ (x = chr "4" /\ y = chr "2").

(** an atom that does not tell [4] from [2] *)
Definition blind (a : atom) : bool :=
  match a with
  | Chr c => negb (N.eqb c (chr "4")) && negb (N.eqb c (chr "2"))
  | Cls p | Star p | Plus p => Bool.eqb (p (chr "4")) (p (chr "2"))
  | Eol | Close => true
  end.

(** ** Inserted blocks *)

(** the text a match of the pattern of fix-pnpm-workflows.py covers: a
    step whose name has [Setup Node] behind at least one character, and
    the [uses:] line of [actions/setup-node@v4] right below *)
Definition node_step (u : text) : Prop :=
  exists before after,
    before <> [] /\ no_line_feed before /\ no_line_feed after /\
    u = txt "      - name: " ++ before ++ txt "Setup Node" ++ after ++
        NL :: txt "        uses: actions/setup-node@v4".

(** [inserted block step n s o]: [o] is [s] with [n] copies of [block]
    put in, each one directly in front of a [step] of [s] *)
Inductive inserted (block : text) (step : text -> Prop)
  : nat -> text -> text -> Prop :=
| inserted_end : inserted block step 0 [] []
| inserted_copy (c : char) (s o : text) (n : nat) :
    inserted block step n s o ->
    inserted block step n (c :: s) (c :: o)
| inserted_block (u s o : text) (n : nat) :
    step u -> inserted block step n s o ->
    inserted block step (S n) (u ++ s) (block ++ u ++ o).

(** a workflow with a Node.js step that fix-pnpm-workflows.py matches *)
Definition pnpm_cache_workflow : text :=
  txt "      - name: Use Setup Node" ++ [NL] ++
  txt "        uses: actions/setup-node@v4" ++ [NL] ++
  txt "        with:" ++ [NL] ++
  txt "          cache: 'pnpm'" ++ [NL].

(** a workflow with a Node.js step and no pnpm step *)
Definition node_workflow : text :=
  txt "    steps:" ++ [NL] ++
  txt "      - name: Setup Node.js" ++ [NL] ++
  txt "        uses: actions/setup-node@v4" ++ [NL] ++
  txt "      - run: npm ci" ++ [NL].

(** a text the npm rules of fix-github-workflows.py have nothing to do
    with: no npm cache, and no line that ends in one of the two commands *)
Definition settled (x : text) : Prop :=
  contains (txt "cache: 'npm'") x = false /\
  Forall (fun l => ends_with (txt "run: npm ci") l = false /\
                   ends_with (txt "run: npm install") l = false)
         (lines x).

(** ** Whole runs *)

(** [safe D c]: from a directory with [D], [c] returns normally and
    leaves a directory with [D] *)
Definition safe {A} (D : option (list (name * text)) -> Prop) (c : IO A)
  : Prop :=
  forall w, D (dir w) -> exists a w', c w = (Ret a, w') /\ D (dir w').

(** [kept allowed created fs d]: the directory [d] still has every file
    of [fs], and apart from the files [allowed] and [created] it is as
    [fs] was *)
Definition kept (allowed created : list name) (fs : list (name * text))
           (d : option (list (name * text))) : Prop :=
  exists fs',
    d = Some fs' /\
    (forall n, lookup n fs <> None -> lookup n fs' <> None) /\
    (forall n, ~ In n allowed -> ~ In n created ->
               lookup n fs' = lookup n fs).

(** the summary that ends a run of fix-github-workflows.py *)
Definition fix_github_summary (fixed_count skipped_count : nat)
  : list text :=
  [repeat 9473%N 70;
   [9989%N] ++ txt " Fixed: " ++ str_of_nat fixed_count ++ txt " workflows";
   [9197%N; 65039%N] ++ txt "  Skipped: " ++ str_of_nat skipped_count ++
   txt " workflows";
   [NL; 128193%N] ++ txt " Backup files created with .bak extension";
   repeat 9473%N 70].

(** [n] is one of [l] *)
Definition among (l : list name) (n : name) : bool :=
  existsb (text_eqb n) l.

(** the text [fix_workflow_file] of fix-pnpm-workflows.py leaves in a
    file *)
Definition pnpm_text (c : text) : text :=
  if contains (txt "pnpm/action-setup") c then c
  else sub FixPnpm.pattern FixPnpm.replacement c.

(** ** One script after another *)

(** the block of fix-github-workflows.py with action [v2] and version
    [10] *)
Definition bumped_setup : text :=
  txt "      - name: Install pnpm" ++ [NL] ++
  txt "        uses: pnpm/action-setup@v2" ++ [NL] ++
  txt "        with:" ++ [NL] ++
  txt "          version: 10" ++ [NL] ++ [NL].

(** the block of fix-pnpm-workflows.py with version [10] *)
Definition updated_setup : text :=
  txt "      - name: " ++ [128230%N] ++ txt " Setup pnpm" ++ [NL] ++
  txt "        uses: pnpm/action-setup@v2" ++ [NL] ++
  txt "        with:" ++ [NL] ++
  txt "          version: 10" ++ [NL] ++ [NL].

(** * Properties *)

(** ** Text *)

Lemma text_eqb_refl (a : text) : text_eqb a a = true.
Proof.
  induction a as [|x a IH]; simpl; [reflexivity|].
  now rewrite N.eqb_refl.
Qed.

Lemma text_eqb_eq (a b : text) : text_eqb a b = true <-> a = b.
Proof.
  split; [|intros ->; apply text_eqb_refl].
  revert b; induction a as [|x a IH]; intros [|y b]; simpl;
    try discriminate; [reflexivity|].
  intros H. apply andb_true_iff in H as [Hx Hr].
  apply N.eqb_eq in Hx. now rewrite Hx, (IH b Hr).
Qed.

Lemma text_eqb_neq (a b : text) : text_eqb a b = false <-> a <> b.
Proof.
  rewrite <- text_eqb_eq. destruct (text_eqb a b); split; congruence.
Qed.

Lemma starts_with_app (p r : text) : starts_with p (p ++ r) = true.
Proof.
  induction p as [|x p IH]; simpl; [reflexivity|].
  now rewrite N.eqb_refl.
Qed.

Lemma starts_with_inv (p s : text) :
  starts_with p s = true -> s = p ++ skipn (length p) s.
Proof.
  revert s; induction p as [|x p IH]; intros [|y s]; simpl;
    try discriminate; try reflexivity.
  intros H. apply andb_true_iff in H as [Hx Hr].
  apply N.eqb_eq in Hx. subst y. f_equal. now apply IH.
Qed.

Lemma starts_with_iff (p s : text) :
  starts_with p s = true <-> exists r, s = p ++ r.
Proof.
  split.
  - intros H. eexists. now apply starts_with_inv.
  - intros [r ->]. apply starts_with_app.
Qed.

Lemma contains_starts (p s : text) :
  starts_with p s = true -> contains p s = true.
Proof. intros H. destruct s; simpl; now rewrite H. Qed.

Lemma contains_iff (p s : text) :
  contains p s = true <-> exists u v, s = u ++ p ++ v.
Proof.
  split.
  - induction s as [|c s IH]; simpl; intros H.
    + rewrite orb_false_r in H. apply starts_with_iff in H as [r Hr].
      exists [], r. exact Hr.
    + apply orb_true_iff in H as [H|H].
      * apply starts_with_iff in H as [r Hr]. exists [], r. exact Hr.
      * destruct (IH H) as (u & v & ->). now exists (c :: u), v.
  - intros (u & v & ->). induction u as [|c u IH].
    + apply contains_starts. apply (starts_with_app p v).
    + simpl. simpl in IH. rewrite IH. apply orb_true_r.
Qed.

Lemma contains_cons (p : text) (c : char) (s : text) :
  contains p (c :: s) = false ->
  starts_with p (c :: s) = false /\ contains p s = false.
Proof. simpl. intros H. now apply orb_false_iff in H. Qed.

Lemma contains_here (p s : text) :
  contains p s = false -> starts_with p s = false.
Proof.
  destruct s; simpl; intros H; apply orb_false_iff in H; tauto.
Qed.

Lemma contains_skipn (p s : text) (n : nat) :
  contains p s = false -> contains p (skipn n s) = false.
Proof.
  revert s; induction n as [|n IH]; intros s H; [exact H|].
  destruct s as [|c s]; [exact H|]. simpl skipn.
  apply IH. now apply contains_cons in H.
Qed.

(** ** The scanner *)

Section ScanFacts.

Variable m : text -> option (nat * text).

(** Behind a match the scanner resumes where the match ended. *)
Lemma scan_skip (u s : text) : scan m (length u) (u ++ s) = scan m 0 s.
Proof. induction u as [|c u IH]; [reflexivity | exact IH]. Qed.

Lemma scan_count_skip (u s : text) :
  scan_count m (length u) (u ++ s) = scan_count m 0 s.
Proof. induction u as [|c u IH]; [reflexivity | exact IH]. Qed.

Lemma scan_miss (c : char) (s : text) :
  m (c :: s) = None -> scan m 0 (c :: s) = c :: scan m 0 s.
Proof. intros H. simpl. now rewrite H. Qed.

Lemma scan_count_miss (c : char) (s : text) :
  m (c :: s) = None -> scan_count m 0 (c :: s) = scan_count m 0 s.
Proof. intros H. simpl. now rewrite H. Qed.

Lemma scan_hit (u s out : text) :
  u <> [] -> m (u ++ s) = Some (length u, out) ->
  scan m 0 (u ++ s) = out ++ scan m 0 s.
Proof.
  intros Hu H. destruct u as [|c u]; [congruence|].
  change (scan m 0 ((c :: u) ++ s))
    with (match m ((c :: u) ++ s) with
          | Some (n, o) =>
              o ++ match n with
                   | O => c :: scan m 0 (u ++ s)
                   | S k => scan m k (u ++ s)
                   end
          | None => c :: scan m 0 (u ++ s)
          end).
  rewrite H. cbn [length]. now rewrite scan_skip.
Qed.

Lemma scan_count_hit (u s out : text) :
  u <> [] -> m (u ++ s) = Some (length u, out) ->
  scan_count m 0 (u ++ s) = S (scan_count m 0 s).
Proof.
  intros Hu H. destruct u as [|c u]; [congruence|].
  change (scan_count m 0 ((c :: u) ++ s))
    with (match m ((c :: u) ++ s) with
          | Some (n, _) => 1 + scan_count m (pred n) (u ++ s)
          | None => scan_count m 0 (u ++ s)
          end).
  rewrite H. cbn [length pred]. now rewrite scan_count_skip.
Qed.

Lemma quiet_tail (c : char) (u t : text) :
  quiet m (c :: u) t -> quiet m u t.
Proof. intros H n Hn. apply (H (S n)). simpl. lia. Qed.

(** A stretch in which no match starts is copied. *)
Lemma scan_quiet (u t : text) :
  quiet m u t -> scan m 0 (u ++ t) = u ++ scan m 0 t.
Proof.
  induction u as [|c u IH]; intros H; [reflexivity|].
  simpl app. rewrite scan_miss.
  - f_equal. apply IH. eapply quiet_tail, H.
  - apply (H 0). simpl. lia.
Qed.

Lemma scan_count_quiet (u t : text) :
  quiet m u t -> scan_count m 0 (u ++ t) = scan_count m 0 t.
Proof.
  induction u as [|c u IH]; intros H; [reflexivity|].
  simpl app. rewrite scan_count_miss.
  - apply IH. eapply quiet_tail, H.
  - apply (H 0). simpl. lia.
Qed.

End ScanFacts.

Lemma scan_ext (m1 m2 : text -> option (nat * text)) :
  (forall s, m1 s = m2 s) ->
  forall s k, scan m1 k s = scan m2 k s.
Proof.
  intros E. induction s as [|c s IH]; intros [|k]; simpl;
    rewrite ?E, ?IH; try reflexivity.
  destruct (m2 (c :: s)) as [[[|n] out]|]; now rewrite ?IH.
Qed.

(** ** The directory *)

Lemma lookup_store_other (n f : name) (v : text) (fs : list (name * text)) :
  n <> f -> lookup f (store n v fs) = lookup f fs.
Proof.
  intros Hn. induction fs as [|[k v'] fs IH]; simpl.
  - apply text_eqb_neq in Hn. now rewrite Hn.
  - destruct (text_eqb k n) eqn:Ek; simpl.
    + apply text_eqb_eq in Ek. subst k.
      apply text_eqb_neq in Hn. now rewrite Hn.
    + now rewrite IH.
Qed.

Lemma lookup_store_same (n : name) (v : text) (fs : list (name * text)) :
  lookup n (store n v fs) = Some v.
Proof.
  induction fs as [|[k v'] fs IH]; simpl.
  - now rewrite text_eqb_refl.
  - destruct (text_eqb k n) eqn:Ek; simpl; now rewrite Ek.
Qed.

Lemma lookup_store_some (n f : name) (v : text) (fs : list (name * text)) :
  lookup f fs <> None -> lookup f (store n v fs) <> None.
Proof.
  intros H. destruct (text_eqb n f) eqn:E.
  - apply text_eqb_eq in E. subst f. now rewrite lookup_store_same.
  - apply text_eqb_neq in E. now rewrite lookup_store_other.
Qed.

Lemma lookup_in (n : name) (fs : list (name * text)) :
  In n (map fst fs) -> lookup n fs <> None.
Proof.
  induction fs as [|[k v] fs IH]; simpl; [tauto|].
  intros [->|H].
  - now rewrite text_eqb_refl.
  - destruct (text_eqb k n); [discriminate | now apply IH].
Qed.

Lemma ends_with_app (p s : text) : ends_with p (s ++ p) = true.
Proof. unfold ends_with. rewrite rev_app_distr. apply starts_with_app. Qed.

(** A backup never lands on a workflow file. *)
Lemma backup_is_no_workflow (g f : name) :
  ends_with (txt ".yml") f = true -> FixGithub.backup_path g <> f.
Proof.
  intros Hf <-. unfold FixGithub.backup_path, ends_with in Hf.
  rewrite rev_app_distr in Hf. discriminate Hf.
Qed.

(** ** Invariants of scripts *)

Lemma keeps_ret {A} (P : world -> Prop) (a : A) : keeps P (ret a).
Proof. intros w H. exact H. Qed.

Lemma keeps_bind {A B} (P : world -> Prop) (c : IO A) (k : A -> IO B) :
  keeps P c -> (forall a, keeps P (k a)) -> keeps P (bind c k).
Proof.
  intros Hc Hk w H. unfold bind. specialize (Hc w H).
  destruct (c w) as [[a|n|] w']; simpl in *; [now apply Hk | exact Hc ..].
Qed.

Lemma keeps_for_in {A S} (P : world -> Prop) (body : A -> S -> IO S) :
  (forall x acc, keeps P (body x acc)) ->
  forall xs acc, keeps P (for_in xs body acc).
Proof.
  intros Hb. induction xs as [|x xs IH]; intros acc; simpl.
  - apply keeps_ret.
  - apply keeps_bind; [apply Hb | intros a; apply IH].
Qed.

Lemma keeps_print (f : name) (c : text) (line : text) :
  keeps (holds f c) (print line).
Proof. intros w H. exact H. Qed.

Lemma keeps_write (f : name) (c : text) (g : name) (v : text) :
  g <> f -> keeps (holds f c) (write_text g v).
Proof.
  intros Hg w (fs & Hd & Hl). unfold write_text. rewrite Hd. simpl.
  exists (store g v fs). split; [reflexivity|].
  now rewrite lookup_store_other.
Qed.

Lemma run_script_world (main : IO unit) (w : world) :
  snd (run_script main w) = snd (main w).
Proof. unfold run_script. now destruct (main w) as [[[]|n|] w']. Qed.

(** ** The gate of fix-github-workflows.py *)

Lemma fix_workflow_gate (f : name) (c : text) (w : world) :
  holds f c w -> FixGithub.needs_pnpm_setup c = false ->
  FixGithub.fix_workflow f w = (Ret false, w).
Proof.
  intros (fs & Hd & Hl) Hn.
  unfold FixGithub.fix_workflow, bind, read_text.
  now rewrite Hd, Hl, Hn.
Qed.

Lemma add_pnpm_setup_keeps (f : name) (c content : text) :
  keeps (holds f c) (FixGithub.add_pnpm_setup content).
Proof.
  unfold FixGithub.add_pnpm_setup.
  destruct (search FixGithub.setup_node content).
  - apply keeps_ret.
  - apply keeps_bind; [apply keeps_print | intros; apply keeps_ret].
Qed.

Lemma read_text_keeps (P : world -> Prop) (g : name) : keeps P (read_text g).
Proof.
  intros w H. unfold read_text.
  destruct (dir w) as [fs|]; [destruct (lookup g fs)|]; exact H.
Qed.

Lemma fix_workflow_keeps (f : name) (c : text) (g : name) :
  ends_with (txt ".yml") f = true ->
  FixGithub.needs_pnpm_setup c = false ->
  keeps (holds f c) (FixGithub.fix_workflow g).
Proof.
  intros Hf Hn. destruct (text_eqb g f) eqn:E.
  - apply text_eqb_eq in E. subst g. intros w H.
    now rewrite (fix_workflow_gate f c w H Hn).
  - apply text_eqb_neq in E. unfold FixGithub.fix_workflow.
    apply keeps_bind; [apply read_text_keeps|]. intros original.
    destruct (negb (FixGithub.needs_pnpm_setup original));
      [apply keeps_ret|].
    destruct (FixGithub.rewrite_npm original false) as [content modified].
    apply keeps_bind.
    + destruct (negb (FixGithub.has_pnpm_setup content));
        [|apply keeps_ret].
      apply keeps_bind; [apply add_pnpm_setup_keeps|].
      intros; apply keeps_ret.
    + intros [content' modified']. apply keeps_bind; [|intros; apply keeps_ret].
      destruct modified'; [|apply keeps_ret].
      apply keeps_bind; [|intros _]; apply keeps_write;
        [now apply backup_is_no_workflow | exact E].
Qed.

Lemma fix_github_main_keeps (f : name) (c : text) :
  ends_with (txt ".yml") f = true ->
  FixGithub.needs_pnpm_setup c = false ->
  keeps (holds f c) FixGithub.main.
Proof.
  intros Hf Hn. unfold FixGithub.main.
  apply keeps_bind; [apply keeps_print | intros _].
  apply keeps_bind.
  { intros w H. unfold dir_exists. now destruct (dir w). }
  intros e. apply keeps_bind.
  { destruct (negb e); [|apply keeps_ret].
    apply keeps_bind; [apply keeps_print | intros _].
    intros w H. exact H. }
  intros _. apply keeps_bind.
  { apply keeps_bind; [|intros; apply keeps_ret].
    intros w H. unfold glob_yml. now destruct (dir w). }
  intros files. apply keeps_bind.
  { apply keeps_for_in. intros g [fixed skipped].
    apply keeps_bind; [apply keeps_print | intros _].
    apply keeps_bind; [now apply fix_workflow_keeps|].
    intros [|]; (apply keeps_bind; [apply keeps_print|]);
      intros; apply keeps_ret. }
  intros [fixed skipped].
  repeat (apply keeps_bind; [apply keeps_print | intros _]).
  apply keeps_print.
Qed.

(** C8.  A workflow file that contains none of [cache: 'npm'],
    [run: npm ci] and [run: npm install] is not rewritten by
    fix-github-workflows.py: [fix_workflow] returns [False] at the gate
    without touching anything, and after the whole run, whatever the other
    files of the directory caused, the file holds the same text. *)
Theorem C8_gated_file_is_untouched (f : name) (c : text) (w : world) :
  holds f c w ->
  ends_with (txt ".yml") f = true ->
  FixGithub.needs_pnpm_setup c = false ->
  FixGithub.fix_workflow f w = (Ret false, w) /\
  holds f c (snd (run_script FixGithub.main w)).
Proof.
  intros H Hf Hn. split.
  - now apply fix_workflow_gate with c.
  - rewrite run_script_world. now apply fix_github_main_keeps.
Qed.

Lemma C8_gated_file_is_untouched_witness :
  FixGithub.fix_workflow (txt "test.yml") gated_world
    = (Ret false, gated_world) /\
  holds (txt "test.yml") (txt "      - run: pnpm test" ++ [NL])
    (snd (run_script FixGithub.main gated_world)).
Proof.
  apply (@C8_gated_file_is_untouched (txt "test.yml")
           (txt "      - run: pnpm test" ++ [NL]) gated_world).
  - eexists. split; reflexivity.
  - reflexivity.
  - reflexivity.
Defined.

(** ** A missing workflows directory *)

(** C2, as stated, fails: fix-all-pnpm-workflows.py does not look whether
    the directory exists.  The glob finds nothing, the run reports zero
    files and ends with status 0. *)
Lemma C2_missing_directory_counterexample :
  run_script FixAll.main (World None []) =
  (0, World None
        [[128295%N] ++
         txt " Fixing pnpm configuration in all workflow files..." ++ [NL];
         txt "Found 0 workflow files" ++ [NL];
         [NL] ++ repeat (chr "=") 80;
         [9989%N] ++ txt " Processed 0 workflow files";
         [128221%N] ++ txt " No files needed modifications"]).
Proof. vm_compute. reflexivity. Qed.

(** C2, amended.  When the workflows directory does not exist,
    fix-github-workflows.py prints its error message and leaves through
    [sys.exit(1)]: the exit status is 1, no file is discovered or processed,
    and nothing is created. *)
Theorem C2_fix_github_aborts_without_directory (out : list text) :
  run_script FixGithub.main (World None out) =
  (1, World None
        (out ++
         [[128295%N] ++
          txt " Fixing GitHub Actions workflows to use pnpm..." ++ [NL]] ++
         [[10060%N] ++ txt " Error: .github/workflows not found"])).
Proof.
  unfold run_script, FixGithub.main, bind, print, dir_exists, sys_exit.
  simpl. now rewrite <- app_assoc.
Qed.

(** ** The [modified] flag of fix-github-workflows.py *)

(** C1, at a failing input.  The file mentions [run: npm ci], but not at
    the end of a line, and has no Node.js step.  No rule changes the text,
    yet [fix_workflow] sets [modified], writes a backup, writes the file
    again and returns [True]. *)
Theorem C1_fix_workflow_writes_unchanged_text :
  fst (FixGithub.rewrite_npm stale_text false) = stale_text /\
  FixGithub.fix_workflow (txt "ci.yml") stale_world =
  (Ret true,
   World (Some [(txt "ci.yml", stale_text);
                (txt "ci.yml.bak", stale_text)])
         [txt "   " ++ [9888%N; 65039%N] ++
          txt "  Could not find 'Setup Node.js' step to insert pnpm setup"]).
Proof. split; vm_compute; reflexivity. Qed.

(** C3, at a failing input.  A second run of fix-github-workflows.py over
    the result of a first run leaves the text as it is, but reports the
    file as fixed again instead of skipping it. *)
Theorem C3_second_run_reports_fixed :
  let w1 := snd (run_script FixGithub.main stale_world) in
  let w2 := snd (run_script FixGithub.main (World (dir w1) [])) in
  holds (txt "ci.yml") stale_text w1 /\
  holds (txt "ci.yml") stale_text w2 /\
  stdout w2 =
  [[128295%N] ++ txt " Fixing GitHub Actions workflows to use pnpm..." ++
   [NL];
   txt "Processing: ci.yml";
   txt "   " ++ [9888%N; 65039%N] ++
   txt "  Could not find 'Setup Node.js' step to insert pnpm setup";
   txt "   " ++ [9989%N] ++ txt " Fixed" ++ [NL];
   repeat 9473%N 70;
   [9989%N] ++ txt " Fixed: 1 workflows";
   [9197%N; 65039%N] ++ txt "  Skipped: 0 workflows";
   [NL; 128193%N] ++ txt " Backup files created with .bak extension";
   repeat 9473%N 70].
Proof.
  cbv zeta. split; [|split].
  - eexists. split; vm_compute; reflexivity.
  - eexists. split; vm_compute; reflexivity.
  - vm_compute. reflexivity.
Qed.

(** ** The order in which a run reports files

    [emits P per c names]: from a directory that satisfies [P], the script
    [c] returns normally, leaves a directory that satisfies [P], and the
    lines it prints name, through [per], the files [names] in this order. *)

Section Emits.

Variable P : option (list (name * text)) -> Prop.
Variable per : text -> option name.

Lemma emits_ret {A} (a : A) : emits P per (ret a) [].
Proof.
  intros w H. exists a, w, []. rewrite app_nil_r. repeat split. exact H.
Qed.

Lemma emits_bind {A B} (c : IO A) (k : A -> IO B) (n1 n2 : list name) :
  emits P per c n1 -> (forall a, emits P per (k a) n2) ->
  emits P per (bind c k) (n1 ++ n2).
Proof.
  intros Hc Hk w H.
  destruct (Hc w H) as (a & w1 & l1 & E1 & P1 & O1 & N1).
  destruct (Hk a w1 P1) as (b & w2 & l2 & E2 & P2 & O2 & N2).
  exists b, w2, (l1 ++ l2). unfold bind. rewrite E1, E2.
  repeat split; [exact P2 | now rewrite O2, O1, app_assoc |].
  unfold named in *. now rewrite flat_map_app, N1, N2.
Qed.

Lemma emits_print (line : text) :
  emits P per (print line) (named per [line]).
Proof.
  intros w H. exists tt, (World (dir w) (stdout w ++ [line])), [line].
  repeat split. exact H.
Qed.

Lemma emits_for_in {A S} (sel : A -> list name) (body : A -> S -> IO S)
      (xs : list A) :
  (forall x acc, In x xs -> emits P per (body x acc) (sel x)) ->
  forall acc, emits P per (for_in xs body acc) (flat_map sel xs).
Proof.
  induction xs as [|x xs IH]; intros Hb acc; simpl.
  - apply emits_ret.
  - apply emits_bind; [apply Hb; now left|].
    intros a. apply IH. intros y acc' Hy. apply Hb. now right.
Qed.

Lemma emits_read (n : name) :
  (forall d, P d -> exists fs, d = Some fs /\ lookup n fs <> None) ->
  emits P per (read_text n) [].
Proof.
  intros Hn w H. destruct (Hn _ H) as (fs & Hd & Hl).
  destruct (lookup n fs) as [v|] eqn:E; [|congruence].
  exists v, w, []. unfold read_text. rewrite Hd, E, app_nil_r.
  repeat split. now rewrite <- Hd.
Qed.

Lemma emits_write (n : name) (v : text) :
  (forall d, P d -> exists fs, d = Some fs /\ P (Some (store n v fs))) ->
  emits P per (write_text n v) [].
Proof.
  intros Hn w H. destruct (Hn _ H) as (fs & Hd & Hs).
  exists tt, (World (Some (store n v fs)) (stdout w)), [].
  unfold write_text. rewrite Hd. simpl. rewrite app_nil_r.
  repeat split. exact Hs.
Qed.

End Emits.

Lemma has_all_read (names : list name) (n : name) :
  In n names ->
  forall d, has_all names d -> exists fs, d = Some fs /\ lookup n fs <> None.
Proof. intros Hn d (fs & Hd & Hl). exists fs. split; [exact Hd | now apply Hl]. Qed.

Lemma has_all_write (names : list name) (n : name) (v : text) :
  forall d, has_all names d ->
    exists fs, d = Some fs /\ has_all names (Some (store n v fs)).
Proof.
  intros d (fs & Hd & Hl). exists fs. split; [exact Hd|].
  exists (store n v fs). split; [reflexivity|].
  intros k Hk. now apply lookup_store_some, Hl.
Qed.

Lemma flat_map_singleton {A} (l : list A) : flat_map (fun x => [x]) l = l.
Proof. induction l as [|x l IH]; simpl; now rewrite ?IH. Qed.

(** *** [sorted] *)

Lemma text_leb_total (a b : text) : text_leb a b = true \/ text_leb b a = true.
Proof.
  revert b; induction a as [|x a IH]; intros [|y b]; simpl; auto.
  destruct (N.ltb x y) eqn:E1; [now left|].
  destruct (N.ltb y x) eqn:E2; [now right|].
  apply N.ltb_ge in E1, E2.
  assert (x = y) as -> by lia. rewrite N.eqb_refl. apply IH.
Qed.

Lemma insert_sorted_perm (x : name) (l : list name) :
  Permutation (x :: l) (insert_sorted x l).
Proof.
  induction l as [|y l IH]; simpl; [reflexivity|].
  destruct (text_leb x y); [reflexivity|].
  rewrite perm_swap. now constructor.
Qed.

Lemma sorted_perm (l : list name) : Permutation l (sorted l).
Proof.
  induction l as [|x l IH]; simpl; [constructor|].
  rewrite <- insert_sorted_perm. now constructor.
Qed.

Lemma insert_sorted_sorted (x : name) (l : list name) :
  Sorted in_order l -> Sorted in_order (insert_sorted x l).
Proof.
  induction 1 as [|y l Hs IH Hh]; simpl.
  - repeat constructor.
  - destruct (text_leb x y) eqn:E.
    + constructor; [now constructor | now constructor].
    + constructor; [exact IH|].
      assert (Hyx : in_order y x)
        by (destruct (text_leb_total x y); [congruence | assumption]).
      destruct Hh as [|z l Hz]; simpl.
      * now constructor.
      * destruct (text_leb x z); now constructor.
Qed.

Lemma sorted_sorted (l : list name) : Sorted in_order (sorted l).
Proof.
  induction l as [|x l IH]; simpl; [constructor|].
  now apply insert_sorted_sorted.
Qed.

Lemma emits_print_as (P : option (list (name * text)) -> Prop)
      (per : text -> option name) (line : text) (names : list name) :
  named per [line] = names -> emits P per (print line) names.
Proof. intros <-. apply emits_print. Qed.

Lemma emits_nothing {A B} (P : option (list (name * text)) -> Prop)
      (per : text -> option name) (c : IO A) (k : A -> IO B) :
  emits P per c [] -> (forall a, emits P per (k a) []) ->
  emits P per (bind c k) [].
Proof. intros Hc Hk. apply (emits_bind P per c k [] [] Hc Hk). Qed.

Lemma emits_first {A B} (P : option (list (name * text)) -> Prop)
      (per : text -> option name) (c : IO A) (k : A -> IO B)
      (names : list name) :
  emits P per c names -> (forall a, emits P per (k a) []) ->
  emits P per (bind c k) names.
Proof.
  intros Hc Hk. rewrite <- (app_nil_r names).
  apply (emits_bind P per c k names [] Hc Hk).
Qed.

Lemma emits_later {A B} (P : option (list (name * text)) -> Prop)
      (per : text -> option name) (c : IO A) (k : A -> IO B)
      (names : list name) :
  emits P per c [] -> (forall a, emits P per (k a) names) ->
  emits P per (bind c k) names.
Proof. intros Hc Hk. apply (emits_bind P per c k [] names Hc Hk). Qed.

Lemma sorted_names_present (fs : list (name * text)) :
  has_all (sorted (yml_names fs)) (Some fs).
Proof.
  exists fs. split; [reflexivity|]. intros n Hn.
  apply lookup_in.
  apply (Permutation_in n (Permutation_sym (sorted_perm (yml_names fs)))) in Hn.
  unfold yml_names in Hn. now apply filter_In in Hn.
Qed.

(** *** fix-all-pnpm-workflows.py *)

Lemma fix_all_reported_unchanged (file : name) :
  named fix_all_reported
    [[8226%N] ++ txt " " ++ file ++ txt " - no changes needed"] = [file].
Proof.
  unfold named, fix_all_reported. cbn [flat_map app txt].
  set (l := 8226%N :: _).
  assert (E1 : starts_with [10003%N; 32%N] l = false) by reflexivity.
  assert (E2 : starts_with [8226%N; 32%N] l = true) by reflexivity.
  rewrite E1, E2. subst l. cbn [skipn length]. rewrite length_app.
  replace (S (S (length file + _)) - 22) with (length file + 0)
    by (simpl; lia).
  rewrite firstn_app_2. simpl. now rewrite app_nil_r.
Qed.

Lemma fix_all_file_emits (names : list name) (file : name) :
  In file names ->
  emits (has_all names) fix_all_reported (FixAll.fix_workflow_file file) [].
Proof.
  intros Hf. unfold FixAll.fix_workflow_file.
  apply emits_nothing; [now apply emits_read, has_all_read|].
  intros original. destruct (FixAll.fix_content original) as [content changes].
  destruct (negb (text_eqb content original)); [|apply emits_ret].
  apply emits_nothing; [apply emits_write, has_all_write|].
  intros _. apply emits_ret.
Qed.

Lemma fix_all_changes_emit (names : list name) (changes : list text) :
  emits (has_all names) fix_all_reported
    (for_in changes (fun change _ => print (txt "  - " ++ change)) tt) [].
Proof.
  induction changes as [|c changes IH]; simpl; [apply emits_ret|].
  apply emits_nothing; [now apply emits_print_as | intros []; exact IH].
Qed.

Lemma fix_all_loop_emits (files : list name) :
  emits (has_all files) fix_all_reported (fix_all_loop files) files.
Proof.
  unfold fix_all_loop. rewrite <- (flat_map_singleton files) at 3.
  apply emits_for_in. intros file modified Hf.
  apply emits_later; [now apply fix_all_file_emits|].
  intros [[|] changes].
  - apply emits_first; [now apply emits_print_as|]. intros _.
    apply emits_nothing; [apply fix_all_changes_emit|].
    intros _. apply emits_ret.
  - apply emits_first; [apply emits_print_as, fix_all_reported_unchanged|].
    intros _. apply emits_ret.
Qed.

Lemma run_bind {A B} (c : IO A) (k : A -> IO B) (w w' : world) (a : A) :
  c w = (Ret a, w') -> bind c k w = k a w'.
Proof. intros E. unfold bind. now rewrite E. Qed.

Ltac run_step := erewrite run_bind by reflexivity; cbv beta.

Lemma fix_all_main_order (fs : list (name * text)) (out : list text) :
  exists w' lines,
    run_script FixAll.main (World (Some fs) out) = (0, w') /\
    stdout w' = out ++ lines /\
    named fix_all_reported lines = sorted (yml_names fs).
Proof.
  unfold run_script, FixAll.main.
  do 3 (erewrite run_bind by reflexivity).
  match goal with
  | |- context [bind (for_in ?xs ?body ?acc) ?k ?w] =>
      destruct (fix_all_loop_emits (sorted (yml_names fs)) w
                  (sorted_names_present fs))
        as (modified & w1 & lines & E & _ & O & N)
  end.
  erewrite run_bind by exact E.
  do 2 (erewrite run_bind by reflexivity).
  cbn [stdout dir] in O.
  destruct modified; unfold print; cbn [dir stdout];
    (eexists; eexists; split; [reflexivity|]; cbn [stdout]; split;
     [rewrite O, <- !app_assoc; reflexivity|]);
    unfold named in *; rewrite !flat_map_app, N; cbn;
    now rewrite app_nil_r.
Qed.

(** *** fix-github-workflows.py *)

Lemma fix_github_file_emits (names : list name) (file : name) :
  In file names ->
  emits (has_all names) processing_line (FixGithub.fix_workflow file) [].
Proof.
  intros Hf. unfold FixGithub.fix_workflow.
  apply emits_nothing; [now apply emits_read, has_all_read|].
  intros original.
  destruct (negb (FixGithub.needs_pnpm_setup original)); [apply emits_ret|].
  destruct (FixGithub.rewrite_npm original false) as [content modified].
  apply emits_nothing.
  - destruct (negb (FixGithub.has_pnpm_setup content)); [|apply emits_ret].
    apply emits_nothing; [|intros; apply emits_ret].
    unfold FixGithub.add_pnpm_setup.
    destruct (search FixGithub.setup_node content); [apply emits_ret|].
    apply emits_nothing; [now apply emits_print_as|].
    intros; apply emits_ret.
  - intros [content' [|]].
    + apply emits_nothing; [|intros; apply emits_ret].
      apply emits_nothing; [|intros _]; apply emits_write, has_all_write.
    + apply emits_nothing; intros; apply emits_ret.
Qed.

Lemma fix_github_loop_emits (files : list name) :
  emits (has_all files) processing_line (fix_github_loop files) files.
Proof.
  unfold fix_github_loop. rewrite <- (flat_map_singleton files) at 3.
  apply emits_for_in. intros file [fixed skipped] Hf.
  apply emits_first; [now apply emits_print_as|]. intros _.
  apply emits_nothing; [now apply fix_github_file_emits|].
  intros [|]; (apply emits_nothing; [now apply emits_print_as|]);
    intros _; apply emits_ret.
Qed.

Lemma fix_github_main_order (fs : list (name * text)) (out : list text) :
  exists w' lines,
    run_script FixGithub.main (World (Some fs) out) = (0, w') /\
    stdout w' = out ++ lines /\
    named processing_line lines = sorted (yml_names fs).
Proof.
  unfold run_script, FixGithub.main.
  do 2 run_step. cbn [negb]. run_step.
  erewrite (run_bind (bind glob_yml _)) by reflexivity; cbv beta.
  match goal with
  | |- context [bind (for_in ?xs ?body ?acc) ?k ?w] =>
      destruct (fix_github_loop_emits (sorted (yml_names fs)) w
                  (sorted_names_present fs))
        as ([fixed skipped] & w1 & lines & E & _ & O & N)
  end.
  erewrite run_bind by exact E. cbv beta iota.
  do 4 run_step.
  cbn [stdout dir] in O.
  unfold print; cbn [dir stdout].
  eexists; eexists; split; [reflexivity|]; cbn [stdout]; split;
    [rewrite O, <- !app_assoc; reflexivity|].
  unfold named in *; rewrite !flat_map_app, N; cbn.
  now rewrite app_nil_r.
Qed.

(** C9, amended.  fix-all-pnpm-workflows.py and fix-github-workflows.py
    process the discovered [*.yml] files one at a time in sorted order of
    their names: the run ends normally and the lines it prints name the
    files in exactly the order of [sorted], which is ordered and holds the
    discovered names, each as often as it was found. *)
Theorem C9_sorting_scripts_report_in_sorted_order
        (fs : list (name * text)) (out : list text) :
  (exists w' lines,
      run_script FixAll.main (World (Some fs) out) = (0, w') /\
      stdout w' = out ++ lines /\
      named fix_all_reported lines = sorted (yml_names fs)) /\
  (exists w' lines,
      run_script FixGithub.main (World (Some fs) out) = (0, w') /\
      stdout w' = out ++ lines /\
      named processing_line lines = sorted (yml_names fs)) /\
  Sorted in_order (sorted (yml_names fs)) /\
  Permutation (yml_names fs) (sorted (yml_names fs)).
Proof.
  split; [apply fix_all_main_order|].
  split; [apply fix_github_main_order|].
  split; [apply sorted_sorted | apply sorted_perm].
Qed.

(** C9, as stated, fails: fix-pnpm-workflows.py and update-pnpm-version.py
    walk the files in the order the directory lists them.  With [b.yml]
    listed before [a.yml], [b.yml] is processed and reported first. *)
Lemma C9_listing_order_counterexample :
  named processing_line
    (stdout (snd (run_script FixPnpm.main unsorted_world)))
  = [txt "b.yml"; txt "a.yml"] /\
  sorted [txt "b.yml"; txt "a.yml"] = [txt "a.yml"; txt "b.yml"] /\
  text_leb (txt "b.yml") (txt "a.yml") = false.
Proof. repeat split; vm_compute; reflexivity. Qed.

(** ** The matcher *)

Lemma span_firstn (p : char -> bool) (s : text) :
  forallb p (firstn (span p s) s) = true.
Proof.
  induction s as [|x s IH]; simpl; [reflexivity|].
  destruct (p x) eqn:E; simpl; [now rewrite E | reflexivity].
Qed.

Lemma span_skipn (p : char -> bool) (s : text) :
  span p (skipn (span p s) s) = 0.
Proof.
  induction s as [|x s IH]; simpl; [reflexivity|].
  destruct (p x) eqn:E; simpl; [exact IH | now rewrite E].
Qed.

Lemma span_app (p : char -> bool) (xs s : text) :
  forallb p xs = true -> span p (xs ++ s) = length xs + span p s.
Proof.
  induction xs as [|x xs IH]; simpl; [reflexivity|].
  intros H. apply andb_true_iff in H as [Hx Hr]. now rewrite Hx, IH.
Qed.

Lemma span_le (p : char -> bool) (s : text) : span p s <= length s.
Proof.
  induction s as [|x s IH]; simpl; [lia|]. destruct (p x); simpl; lia.
Qed.

(** Where nothing behind the loop accepts a character of the class, the
    loop never gives a character back: it stops at the end of the run. *)
Lemma greedy_span (p : char -> bool) (k : nat -> text -> option (nat * nat)) :
  (forall x s off, p x = true -> k off (x :: s) = None) ->
  forall s off,
    greedy p k off s = k (off + span p s) (skipn (span p s) s).
Proof.
  intros Hk. induction s as [|x s IH]; intros off; simpl.
  - now rewrite Nat.add_0_r.
  - destruct (p x) eqn:E.
    + rewrite IH. cbn [skipn].
      replace (off + S (span p s)) with (S off + span p s) by lia.
      destruct (k (S off + span p s) (skipn (span p s) s)); [reflexivity|].
      now apply Hk.
    + now rewrite Nat.add_0_r.
Qed.

Lemma match_star (p : char -> bool) (r : regex) (off g : nat) (s : text) :
  rejects r p ->
  match_from (Star p :: r) off g s =
  match_from r (off + span p s) g (skipn (span p s) s).
Proof.
  intros Hr. simpl. apply greedy_span. intros x s' off' Hx. now apply Hr.
Qed.

Lemma match_plus (p : char -> bool) (r : regex) (off g : nat) (s : text) :
  rejects r p ->
  match_from (Plus p :: r) off g s =
  match span p s with
  | O => None
  | S _ => match_from r (off + span p s) g (skipn (span p s) s)
  end.
Proof.
  intros Hr. destruct s as [|x s]; simpl; [reflexivity|].
  destruct (p x); [|reflexivity].
  rewrite greedy_span by (intros x' s' off' Hx; now apply Hr).
  now replace (S off + span p s) with (off + S (span p s)) by lia.
Qed.

Lemma match_lit (a : text) (r : regex) (off g : nat) (s : text) :
  match_from (map Chr a ++ r) off g s =
  if starts_with a s
  then match_from r (off + length a) g (skipn (length a) s)
  else None.
Proof.
  revert off s; induction a as [|c a IH]; intros off s; simpl.
  - now rewrite Nat.add_0_r.
  - destruct s as [|x s]; [reflexivity|].
    rewrite (N.eqb_sym c x). destruct (N.eqb x c); simpl; [|reflexivity].
    rewrite IH. now replace (S off + length a) with (off + S (length a)) by lia.
Qed.

Lemma match_close (r : regex) (off g : nat) (s : text) :
  match_from (Close :: r) off g s = match_from r off off s.
Proof. reflexivity. Qed.

Lemma rejects_chr (c : char) (r : regex) (p : char -> bool) :
  p c = false -> rejects (Chr c :: r) p.
Proof.
  intros Hc x s off g Hx. simpl. destruct (N.eqb x c) eqn:E; [|reflexivity].
  apply N.eqb_eq in E. congruence.
Qed.

Lemma rejects_plus (q : char -> bool) (r : regex) (p : char -> bool) :
  (forall x, p x = true -> q x = false) -> rejects (Plus q :: r) p.
Proof. intros H x s off g Hx. simpl. now rewrite (H x Hx). Qed.

Lemma rejects_close (r : regex) (p : char -> bool) :
  rejects r p -> rejects (Close :: r) p.
Proof. intros H x s off g Hx. simpl. now apply H. Qed.

Lemma rejects_star (q : char -> bool) (r : regex) (p : char -> bool) :
  (forall x, p x = true -> q x = false) -> rejects r p ->
  rejects (Star q :: r) p.
Proof.
  intros H Hr x s off g Hx. simpl. rewrite (H x Hx). now apply Hr.
Qed.

Lemma decimal_not_space (x : char) : is_decimal x = true -> is_space x = false.
Proof.
  intros H. destruct (is_space x) eqn:E; [|reflexivity].
  unfold is_space in E. apply existsb_exists in E as (y & Hy & Exy).
  apply N.eqb_eq in Exy. subst y. revert H.
  repeat (destruct Hy as [<-|Hy]; [vm_compute; congruence|]).
  destruct Hy.
Qed.

(** A literal pattern matches where the text starts with it. *)
Lemma match_here_lit (a : text) (s : text) :
  match_here (map Chr a) s =
  if starts_with a s then Some (length a, 0) else None.
Proof.
  unfold match_here. rewrite <- (app_nil_r (map Chr a)), match_lit.
  reflexivity.
Qed.

Lemma found_false (r : regex) (s : text) :
  found r s = false -> forall n, match_here r (skipn n s) = None.
Proof.
  unfold found. induction s as [|c s IH]; simpl.
  - intros H n. destruct n; simpl; now destruct (match_here r []).
  - destruct (match_here r (c :: s)) eqn:E; [discriminate|].
    intros H [|k]; [exact E|]. simpl. apply IH.
    now destruct (search r s).
Qed.

Lemma found_true (r : regex) (s : text) :
  found r s = true -> exists n, match_here r (skipn n s) <> None.
Proof.
  unfold found. induction s as [|c s IH]; simpl.
  - destruct (match_here r []) eqn:E; [|discriminate].
    intros _. exists 0. simpl. congruence.
  - destruct (match_here r (c :: s)) eqn:E.
    + intros _. exists 0. simpl. congruence.
    + intros H. destruct (search r s); [|discriminate].
      destruct (IH eq_refl) as [k Hk]. now exists (S k).
Qed.

(** Without a match anywhere, [re.sub] returns the text. *)
Lemma scan_nothing (m : text -> option (nat * text)) (s : text) :
  (forall n, m (skipn n s) = None) -> scan m 0 s = s.
Proof.
  induction s as [|c s IH]; intros H.
  - pose proof (H 0) as H0. simpl in *. now rewrite H0.
  - rewrite scan_miss by apply (H 0). f_equal. apply IH.
    intros n. apply (H (S n)).
Qed.

Lemma sub_not_found (r : regex) (repl : text -> text) (s : text) :
  found r s = false -> sub r repl s = s.
Proof.
  intros H. apply scan_nothing. intros n. unfold regex_match.
  now rewrite (found_false r s H n).
Qed.

Lemma span_split (p : char -> bool) (s : text) :
  s = firstn (span p s) s ++ skipn (span p s) s.
Proof. symmetry. apply firstn_skipn. Qed.

Lemma plus_inv (p : char -> bool) (r : regex) (off g : nat) (s : text)
      (res : nat * nat) :
  rejects r p ->
  match_from (Plus p :: r) off g s = Some res ->
  exists xs s',
    s = xs ++ s' /\ xs <> [] /\ forallb p xs = true /\
    match_from r (off + length xs) g s' = Some res.
Proof.
  intros Hr H. rewrite match_plus in H by exact Hr.
  destruct (span p s) as [|n] eqn:E; [discriminate|].
  exists (firstn (span p s) s), (skipn (span p s) s).
  assert (L : length (firstn (span p s) s) = span p s)
    by (apply firstn_length_le, span_le).
  repeat split.
  - apply span_split.
  - intros Hx. rewrite Hx in L. simpl in L. congruence.
  - apply span_firstn.
  - now rewrite L, E.
Qed.

Lemma star_inv (p : char -> bool) (r : regex) (off g : nat) (s : text)
      (res : nat * nat) :
  rejects r p ->
  match_from (Star p :: r) off g s = Some res ->
  exists xs s',
    s = xs ++ s' /\ forallb p xs = true /\
    match_from r (off + length xs) g s' = Some res.
Proof.
  intros Hr H. rewrite match_star in H by exact Hr.
  exists (firstn (span p s) s), (skipn (span p s) s).
  assert (L : length (firstn (span p s) s) = span p s)
    by (apply firstn_length_le, span_le).
  repeat split.
  - apply span_split.
  - apply span_firstn.
  - now rewrite L.
Qed.

Lemma lit_inv (a : text) (r : regex) (off g : nat) (s : text)
      (res : nat * nat) :
  match_from (map Chr a ++ r) off g s = Some res ->
  exists s', s = a ++ s' /\ match_from r (off + length a) g s' = Some res.
Proof.
  rewrite match_lit. destruct (starts_with a s) eqn:E; [|discriminate].
  intros H. exists (skipn (length a) s). split; [|exact H].
  now apply starts_with_inv.
Qed.

Lemma skipn_exact (u s : text) : skipn (length u) (u ++ s) = s.
Proof. induction u as [|c u IH]; [reflexivity | exact IH]. Qed.

Lemma firstn_exact (u s : text) : firstn (length u) (u ++ s) = u.
Proof. induction u as [|c u IH]; simpl; [reflexivity | now rewrite IH]. Qed.

Lemma plus_intro (p : char -> bool) (r : regex) (off g : nat) (xs s : text) :
  rejects r p -> xs <> [] -> forallb p xs = true -> span p s = 0 ->
  match_from (Plus p :: r) off g (xs ++ s) =
  match_from r (off + length xs) g s.
Proof.
  intros Hr Hx Hp Hs. rewrite match_plus by exact Hr.
  rewrite span_app, Hs, Nat.add_0_r, skipn_exact by exact Hp.
  destruct xs; [congruence | reflexivity].
Qed.

Lemma star_intro (p : char -> bool) (r : regex) (off g : nat) (xs s : text) :
  rejects r p -> forallb p xs = true -> span p s = 0 ->
  match_from (Star p :: r) off g (xs ++ s) =
  match_from r (off + length xs) g s.
Proof.
  intros Hr Hp Hs. rewrite match_star by exact Hr.
  now rewrite span_app, Hs, Nat.add_0_r, skipn_exact by exact Hp.
Qed.

Lemma lit_intro (a : text) (r : regex) (off g : nat) (s : text) :
  match_from (map Chr a ++ r) off g (a ++ s) =
  match_from r (off + length a) g s.
Proof. now rewrite match_lit, starts_with_app, skipn_exact. Qed.

(** ** Induction along a scan *)

Section ScanInduction.

Variable m : text -> option (nat * text).

(** a match is not empty and lies inside the text *)
Hypothesis m_proper :
  forall s n out, m s = Some (n, out) -> 0 < n <= length s.

Variable R : text -> text -> Prop.

Hypothesis R_end : R [] [].
Hypothesis R_copy :
  forall c s o, m (c :: s) = None -> R s o -> R (c :: s) (c :: o).
Hypothesis R_hit :
  forall u s out o,
    u <> [] -> m (u ++ s) = Some (length u, out) -> R s o ->
    R (u ++ s) (out ++ o).

Lemma scan_induction (s : text) : R s (scan m 0 s).
Proof.
  remember (length s) as k eqn:Hk. revert s Hk.
  induction k as [k IH] using lt_wf_ind. intros s Hk.
  destruct s as [|c s].
  - simpl. destruct (m []) as [[n out]|] eqn:E; [|exact R_end].
    apply m_proper in E. simpl in E. lia.
  - destruct (m (c :: s)) as [[n out]|] eqn:E.
    + pose proof (m_proper _ _ _ E) as Hn.
      assert (L : length (firstn n (c :: s)) = n)
        by (apply firstn_length_le; lia).
      assert (Hu : firstn n (c :: s) <> []).
      { intros Hx. rewrite Hx in L. simpl in L. lia. }
      assert (E' : m (firstn n (c :: s) ++ skipn n (c :: s))
                   = Some (length (firstn n (c :: s)), out))
        by (rewrite L, firstn_skipn; exact E).
      rewrite <- (firstn_skipn n (c :: s)).
      rewrite (scan_hit m _ _ out Hu E').
      apply R_hit; [exact Hu | exact E' |].
      apply (IH (length (skipn n (c :: s)))); [|reflexivity].
      rewrite length_skipn. lia.
    + rewrite scan_miss by exact E. apply R_copy; [exact E|].
      apply (IH (length s)); [simpl in Hk; lia | reflexivity].
Qed.

End ScanInduction.

Lemma match_from_bounds (r : regex) (off g : nat) (s : text) (e g' : nat) :
  match_from r off g s = Some (e, g') -> off <= e <= off + length s.
Proof.
  revert off g s. induction r as [|a r IH]; intros off g s; simpl.
  - intros [= <- <-]. lia.
  - assert (G : forall p off s,
               greedy p (fun off' s' => match_from r off' g s') off s
               = Some (e, g') -> off <= e <= off + length s).
    { intros p off' s'. revert off'.
      induction s' as [|x s' IHs]; intros off'; simpl.
      - intros H. apply IH in H. simpl in H. lia.
      - destruct (p x).
        + destruct (greedy p _ (S off') s') eqn:E.
          * intros [= ->]. apply IHs in E. simpl. lia.
          * intros H. apply IH in H. simpl in *. lia.
        + intros H. apply IH in H. simpl in *. lia. }
    destruct a.
    + destruct s as [|x s]; [discriminate|].
      destruct (N.eqb x c); [|discriminate].
      intros H. apply IH in H. simpl. lia.
    + destruct s as [|x s]; [discriminate|].
      destruct (p x); [|discriminate].
      intros H. apply IH in H. simpl. lia.
    + apply G.
    + destruct s as [|x s]; [discriminate|].
      destruct (p x); [|discriminate].
      intros H. apply G in H. simpl. lia.
    + destruct s as [|x s].
      * intros H. apply IH in H. simpl in *. lia.
      * destruct (N.eqb x NL); [|discriminate].
        intros H. apply IH in H. exact H.
    + intros H. apply IH in H. exact H.
Qed.

Lemma greedy_bounds (p : char -> bool) (r : regex) (g : nat)
      (off : nat) (s : text) (e g' : nat) :
  greedy p (fun off' s' => match_from r off' g s') off s = Some (e, g') ->
  off <= e.
Proof.
  revert off. induction s as [|x s IH]; intros off; simpl.
  - intros H. now apply match_from_bounds in H.
  - destruct (p x).
    + destruct (greedy p _ (S off) s) eqn:E.
      * intros [= ->]. apply IH in E. lia.
      * intros H. now apply match_from_bounds in H.
    + intros H. now apply match_from_bounds in H.
Qed.

Lemma regex_match_proper (r : regex) (repl : text -> text) :
  consuming r ->
  forall s n out, regex_match r repl s = Some (n, out) -> 0 < n <= length s.
Proof.
  intros Hr s n out. unfold regex_match, match_here.
  destruct (match_from r 0 0 s) as [[e g]|] eqn:E; [|discriminate].
  intros [= <- _]. split; [|now apply match_from_bounds in E].
  destruct r as [|[c|p|p|p| |] r]; simpl in Hr; try contradiction;
    simpl in E; destruct s as [|x s]; try discriminate.
  - destruct (N.eqb x c); [|discriminate].
    apply match_from_bounds in E. lia.
  - destruct (p x); [|discriminate]. apply match_from_bounds in E. lia.
  - destruct (p x); [|discriminate]. apply greedy_bounds in E. lia.
Qed.

(** ** The version window

    Both version rules look for an action reference, white space, [with:],
    white space, [version:], and then white space and the number. *)

Lemma version_tail_inv (t : char) (off g : nat) (s : text) (e g' : nat) :
  is_space t = false ->
  match_from (version_tail t) off g s = Some (e, g') ->
  exists ws1 ws2 ws3 rest,
    s = ws1 ++ txt "with:" ++ ws2 ++ txt "version:" ++ ws3 ++ t :: rest /\
    ws1 <> [] /\ whitespace ws1 /\ ws2 <> [] /\ whitespace ws2 /\
    whitespace ws3 /\
    g' = off + length (ws1 ++ txt "with:" ++ ws2 ++ txt "version:") /\
    e = g' + length ws3 + 1.
Proof.
  intros Ht H. unfold version_tail in H.
  apply plus_inv in H as (ws1 & s1 & -> & N1 & W1 & H);
    [|now apply rejects_chr].
  apply lit_inv in H as (s2 & -> & H).
  apply plus_inv in H as (ws2 & s3 & -> & N2 & W2 & H);
    [|now apply rejects_chr].
  apply lit_inv in H as (s4 & -> & H).
  rewrite match_close in H.
  apply star_inv in H as (ws3 & s5 & -> & W3 & H);
    [|now apply rejects_chr].
  simpl in H. destruct s5 as [|x rest]; [discriminate|].
  destruct (N.eqb x t) eqn:E; [|discriminate].
  apply N.eqb_eq in E. subst x. injection H as <- <-.
  exists ws1, ws2, ws3, rest.
  repeat split; try assumption; rewrite ?length_app; simpl; lia.
Qed.

Lemma app_same_length (u u' s s' : text) :
  u ++ s = u' ++ s' -> length u = length u' -> u = u' /\ s = s'.
Proof.
  revert u'; induction u as [|c u IH]; intros [|c' u']; simpl;
    try discriminate; [now split|].
  intros [= -> E] [= L]. destruct (IH _ E L) as [-> ->]. now split.
Qed.

Lemma pattern2_shape :
  FixAll.pattern2 =
  map Chr (txt "pnpm/action-setup@v") ++
  Plus is_decimal :: version_tail (chr "9").
Proof. reflexivity. Qed.

Lemma update_pattern_shape :
  UpdateVersion.pattern =
  map Chr (txt "uses: pnpm/action-setup@v2") ++ version_tail (chr "8").
Proof. reflexivity. Qed.

Lemma version_tail_rejects_decimal (t : char) :
  rejects (version_tail t) is_decimal.
Proof. apply rejects_plus. exact decimal_not_space. Qed.

Lemma pattern2_inv (s : text) (e g : nat) :
  match_here FixAll.pattern2 s = Some (e, g) ->
  exists w ws rest,
    version_window setup_any w /\ whitespace ws /\
    s = w ++ ws ++ chr "9" :: rest /\
    g = length w /\ e = length (w ++ ws ++ [chr "9"]).
Proof.
  unfold match_here. rewrite pattern2_shape. intros H.
  apply lit_inv in H as (s1 & -> & H).
  apply plus_inv in H as (ds & s2 & -> & Nd & Dd & H);
    [|apply version_tail_rejects_decimal].
  apply version_tail_inv in H
    as (ws1 & ws2 & ws3 & rest & -> & N1 & W1 & N2 & W2 & W3 & -> & ->);
    [|reflexivity].
  exists ((txt "pnpm/action-setup@v" ++ ds) ++
          ws1 ++ txt "with:" ++ ws2 ++ txt "version:"), ws3, rest.
  split; [|split; [|split; [|split]]].
  - constructor; try assumption. now exists ds.
  - exact W3.
  - now rewrite <- !app_assoc.
  - rewrite !length_app. simpl. lia.
  - rewrite !length_app. simpl. lia.
Qed.

Lemma update_pattern_inv (s : text) (e g : nat) :
  match_here UpdateVersion.pattern s = Some (e, g) ->
  exists w ws rest,
    version_window setup_v2 w /\ whitespace ws /\
    s = w ++ ws ++ chr "8" :: rest /\
    g = length w /\ e = length (w ++ ws ++ [chr "8"]).
Proof.
  unfold match_here. rewrite update_pattern_shape. intros H.
  apply lit_inv in H as (s1 & -> & H).
  apply version_tail_inv in H
    as (ws1 & ws2 & ws3 & rest & -> & N1 & W1 & N2 & W2 & W3 & -> & ->);
    [|reflexivity].
  exists (txt "uses: pnpm/action-setup@v2" ++
          ws1 ++ txt "with:" ++ ws2 ++ txt "version:"), ws3, rest.
  split; [|split; [|split; [|split]]].
  - constructor; try assumption. reflexivity.
  - exact W3.
  - now rewrite <- !app_assoc.
  - rewrite !length_app. simpl. lia.
  - rewrite !length_app. simpl. lia.
Qed.

Lemma bump_scan (anchor : text -> Prop) (t : char) (r : regex) :
  consuming r ->
  (forall s e g,
      match_here r s = Some (e, g) ->
      exists w ws rest,
        version_window anchor w /\ whitespace ws /\
        s = w ++ ws ++ t :: rest /\
        g = length w /\ e = length (w ++ ws ++ [t])) ->
  forall s, bumps anchor t s (sub r (fun g1 => g1 ++ txt " 10") s).
Proof.
  intros Hc Hr. unfold sub.
  apply scan_induction.
  - now apply regex_match_proper.
  - constructor.
  - intros c s o _ H. now constructor.
  - intros u s out o Hu Hm H. unfold regex_match in Hm.
    destruct (match_here r (u ++ s)) as [[e g]|] eqn:E; [|discriminate].
    injection Hm as He <-.
    destruct (Hr _ _ _ E) as (w & ws & rest & Hw & Hws & Es & -> & ->).
    rewrite Es, firstn_exact.
    replace (w ++ ws ++ t :: rest) with ((w ++ ws ++ [t]) ++ rest) in Es
      by now rewrite <- !app_assoc.
    apply app_same_length in Es as [-> ->]; [|congruence].
    rewrite <- !app_assoc. simpl. now constructor.
Qed.

Lemma fix_content_text (s : text) :
  fst (FixAll.fix_content s) = FixAll.fix2 (FixAll.fix1 s).
Proof.
  unfold FixAll.fix_content.
  destruct (found FixAll.pattern1 s) eqn:E1.
  - destruct (found FixAll.pattern2 (FixAll.fix1 s)) eqn:E2; simpl;
      [reflexivity|].
    unfold FixAll.fix2. now rewrite sub_not_found.
  - unfold FixAll.fix1. rewrite sub_not_found by exact E1.
    destruct (found FixAll.pattern2 s) eqn:E2; simpl; [reflexivity|].
    unfold FixAll.fix2. now rewrite sub_not_found.
Qed.

(** C6.  The version rules change a text only behind a version window
    (the action reference, white space, [with:], white space, [version:]):
    there the white space and the number become [ 10].  Every character
    outside, and so every other 9 or 8, stays as it is and where it is.
    This holds for the rule of fix-all-pnpm-workflows.py on any text, for
    the step it makes inside [fix_workflow_file], from the text behind the
    first fix to the final content, and for update-pnpm-version.py. *)
Theorem C6_version_is_rewritten_only_in_window (s : text) :
  bumps setup_any (chr "9") s (FixAll.fix2 s) /\
  bumps setup_any (chr "9") (FixAll.fix1 s) (fst (FixAll.fix_content s)) /\
  bumps setup_v2 (chr "8") s (UpdateVersion.new_content s).
Proof.
  split; [|split].
  - apply bump_scan; [exact I | exact pattern2_inv].
  - rewrite fix_content_text.
    apply bump_scan; [exact I | exact pattern2_inv].
  - apply bump_scan; [exact I | exact update_pattern_inv].
Qed.

(** ** Lines

    Under [re.MULTILINE] a [$] stands at the end of the text and in front
    of every line feed.  The lines of a text are the stretches between its
    line feeds. *)

Lemma lines_not_nil (s : text) : lines s <> [].
Proof. destruct s as [|c s]; simpl; [|destruct (N.eqb c NL)]; discriminate. Qed.

Lemma lines_shape (s : text) : lines s = hd [] (lines s) :: tl (lines s).
Proof. pose proof (lines_not_nil s). now destruct (lines s). Qed.

Lemma unlines_lines (s : text) : unlines (lines s) = s.
Proof.
  induction s as [|c s IH]; [reflexivity|]. simpl.
  pose proof (lines_not_nil s) as Hs.
  destruct (lines s) as [|h t]; [congruence|].
  destruct (N.eqb c NL) eqn:E.
  - apply N.eqb_eq in E. subst c.
    change (unlines ([] :: h :: t)) with (NL :: unlines (h :: t)).
    now rewrite IH.
  - simpl in *. destruct t; now rewrite <- IH.
Qed.

Lemma lines_no_line_feed (s : text) : Forall no_line_feed (lines s).
Proof.
  induction s as [|c s IH]; simpl; [now repeat constructor|].
  destruct (N.eqb c NL) eqn:E.
  - constructor; [reflexivity | exact IH].
  - rewrite (lines_shape s) in IH. inversion IH as [|l ls Hl Hls]; subst.
    constructor; [|exact Hls].
    unfold no_line_feed. simpl. unfold not_newline at 1. now rewrite E.
Qed.

Lemma lines_line (l : text) : no_line_feed l -> lines l = [l].
Proof.
  induction l as [|c l IH]; [reflexivity|].
  unfold no_line_feed. simpl. intros H. apply andb_true_iff in H as [Hc Hl].
  unfold not_newline in Hc. apply negb_true_iff in Hc.
  now rewrite Hc, (IH Hl).
Qed.

Lemma lines_app (l s : text) :
  no_line_feed l -> lines (l ++ NL :: s) = l :: lines s.
Proof.
  induction l as [|c l IH]; [reflexivity|].
  unfold no_line_feed. simpl. intros H. apply andb_true_iff in H as [Hc Hl].
  unfold not_newline in Hc. apply negb_true_iff in Hc.
  now rewrite Hc, (IH Hl).
Qed.

Lemma lines_unlines (ls : list text) :
  ls <> [] -> Forall no_line_feed ls -> lines (unlines ls) = ls.
Proof.
  induction ls as [|l ls IH]; [congruence|]. intros _ H.
  inversion H as [|l' ls' Hl Hls]; subst.
  destruct ls as [|l2 ls].
  - now apply lines_line.
  - change (unlines (l :: l2 :: ls)) with (l ++ NL :: unlines (l2 :: ls)).
    rewrite lines_app by exact Hl. f_equal. now apply IH.
Qed.

(** the text behind the first line of [s] *)
Lemma first_line_split (s : text) :
  exists rest, s = hd [] (lines s) ++ rest /\ at_eol rest = true.
Proof.
  induction s as [|c s (rest & E & H)]; [now exists []|]. simpl.
  destruct (N.eqb c NL) eqn:Ec.
  - exists (c :: s). simpl. now split.
  - exists rest. simpl. split; [now rewrite <- E | exact H].
Qed.

Lemma ends_with_iff (p s : text) :
  ends_with p s = true <-> exists u, s = u ++ p.
Proof.
  unfold ends_with. rewrite starts_with_iff. split.
  - intros [r Hr]. exists (rev r).
    rewrite <- (rev_involutive s), Hr, rev_app_distr.
    now rewrite rev_involutive.
  - intros [u ->]. exists (rev u). apply rev_app_distr.
Qed.

(** ** Rewriting the end of lines *)

Section SwapSuffix.

(** [a$] becomes [b] *)
Variables a b : text.
Hypothesis a_not_empty : a <> [].
Hypothesis a_one_line : no_line_feed a.
Hypothesis b_one_line : no_line_feed b.

Lemma at_line_end_match (repl : text -> text) (s : text) :
  regex_match (at_line_end a) repl s =
  if starts_with a s && at_eol (skipn (length a) s)
  then Some (length a, repl []) else None.
Proof.
  unfold regex_match, match_here, at_line_end. rewrite match_lit.
  destruct (starts_with a s); [|reflexivity]. simpl.
  destruct (skipn (length a) s) as [|x r]; simpl; [reflexivity|].
  now destruct (N.eqb x NL).
Qed.

Lemma swap_suffix_hit (u : text) : swap_suffix a b (u ++ a) = u ++ b.
Proof.
  unfold swap_suffix.
  replace (ends_with a (u ++ a)) with true
    by (symmetry; apply ends_with_iff; now exists u).
  rewrite length_app, Nat.add_sub. now rewrite firstn_exact.
Qed.

Lemma swap_suffix_cons (c : char) (l : text) :
  c :: l <> a -> swap_suffix a b (c :: l) = c :: swap_suffix a b l.
Proof.
  intros Hn. destruct (ends_with a l) eqn:E.
  - apply ends_with_iff in E as [u ->].
    change (c :: u ++ a) with ((c :: u) ++ a). now rewrite !swap_suffix_hit.
  - unfold swap_suffix. rewrite E.
    destruct (ends_with a (c :: l)) eqn:E'; [|reflexivity].
    apply ends_with_iff in E' as [[|c' u] Hu]; [now simpl in Hu|].
    injection Hu as -> ->.
    assert (ends_with a (u ++ a) = true) by (apply ends_with_iff; now exists u).
    congruence.
Qed.

Lemma swap_suffix_one_line (l : text) :
  no_line_feed l -> no_line_feed (swap_suffix a b l).
Proof.
  intros Hl. unfold swap_suffix. destruct (ends_with a l); [|exact Hl].
  unfold no_line_feed in *. rewrite forallb_app, b_one_line, andb_true_r.
  rewrite <- (firstn_skipn (length l - length a) l), forallb_app in Hl.
  now apply andb_true_iff in Hl.
Qed.

Lemma swap_suffix_nil : swap_suffix a b [] = [].
Proof.
  unfold swap_suffix. destruct (ends_with a []) eqn:E; [|reflexivity].
  apply ends_with_iff in E as [u Hu]. symmetry in Hu.
  apply app_eq_nil in Hu as [_ Hu]. congruence.
Qed.

(** [re.sub(r'a$', b, s, flags=re.MULTILINE)] works line by line. *)
Lemma sub_at_line_end (s : text) :
  sub (at_line_end a) (fun _ => b) s =
  unlines (map (swap_suffix a b) (lines s)).
Proof.
  unfold sub. apply scan_induction.
  - apply regex_match_proper. unfold at_line_end.
    destruct a; [congruence | exact I].
  - simpl. now rewrite swap_suffix_nil.
  - intros c s0 o Hm ->. simpl. destruct (N.eqb c NL) eqn:Ec.
    + apply N.eqb_eq in Ec. subst c. rewrite (lines_shape s0). simpl.
      now rewrite swap_suffix_nil.
    + rewrite (lines_shape s0) at 1. simpl.
      rewrite swap_suffix_cons.
      * now destruct (map (swap_suffix a b) (tl (lines s0))).
      * intros Ha. rewrite at_line_end_match in Hm.
        destruct (first_line_split s0) as (rest & Es & Hr).
        rewrite Es in Hm.
        change (c :: hd [] (lines s0) ++ rest)
          with ((c :: hd [] (lines s0)) ++ rest) in Hm.
        now rewrite Ha, starts_with_app, skipn_exact, Hr in Hm.
  - intros u s0 out o Hu Hm ->. rewrite at_line_end_match in Hm.
    destruct (starts_with a (u ++ s0)) eqn:Ea; [|discriminate].
    simpl in Hm.
    destruct (at_eol (skipn (length a) (u ++ s0))) eqn:Ee; [|discriminate].
    injection Hm as L <-.
    apply starts_with_iff in Ea as [r Ea].
    apply app_same_length in Ea as [-> ->]; [|congruence].
    rewrite skipn_exact in Ee. rename r into s0.
    destruct s0 as [|x s0]; simpl in Ee.
    + rewrite app_nil_r, (lines_line a a_one_line). simpl.
      rewrite swap_suffix_nil, app_nil_r.
      exact (eq_sym (swap_suffix_hit [])).
    + apply N.eqb_eq in Ee. subst x.
      rewrite (lines_app a s0 a_one_line).
      change (lines (NL :: s0)) with ([] :: lines s0).
      rewrite (lines_shape s0). simpl.
      rewrite swap_suffix_nil. f_equal. exact (eq_sym (swap_suffix_hit [])).
Qed.

End SwapSuffix.

Lemma contains_no_start (p s : text) (n : nat) :
  contains p s = false -> starts_with p (skipn n s) = false.
Proof. intros H. apply contains_here. now apply contains_skipn. Qed.

(** [s.replace(a, b)] is [s] when [a] does not occur. *)
Lemma replace_absent (a b s : text) :
  contains a s = false -> replace a b s = s.
Proof.
  intros H. apply scan_nothing. intros n. unfold literal_match.
  now rewrite contains_no_start.
Qed.

Lemma sub_at_line_end_absent (a : text) (repl : text -> text) (s : text) :
  contains a s = false -> sub (at_line_end a) repl s = s.
Proof.
  intros H. apply scan_nothing. intros n.
  rewrite at_line_end_match. now rewrite contains_no_start.
Qed.

(** ** Steps 1 to 3 of fix-github-workflows.py *)

Lemma rule1_absent (s : text) :
  contains (txt "cache: 'npm'") s = false -> FixGithub.rule1 s = s.
Proof. apply replace_absent. Qed.

Lemma rule2_absent (s : text) :
  contains (txt "run: npm ci") s = false -> FixGithub.rule2 s = s.
Proof. apply (sub_at_line_end_absent (txt "run: npm ci")). Qed.

Lemma rule3_absent (s : text) :
  found FixGithub.npm_install s = false -> FixGithub.rule3 s = s.
Proof. apply sub_not_found. Qed.

Lemma rewrite_npm_text (s : text) (modified : bool) :
  fst (FixGithub.rewrite_npm s modified) =
  FixGithub.rule3 (FixGithub.rule2 (FixGithub.rule1 s)).
Proof.
  unfold FixGithub.rewrite_npm.
  destruct (contains (txt "cache: 'npm'") s) eqn:E1;
    [|rewrite (rule1_absent s E1)];
    (destruct (contains (txt "run: npm ci") _) eqn:E2;
     [|rewrite (rule2_absent _ E2)]);
    (destruct (found FixGithub.npm_install _) eqn:E3;
     [|rewrite (rule3_absent _ E3)]);
    reflexivity.
Qed.

Lemma fix_line_swaps (l : text) :
  swap_suffix (txt "run: npm install") (txt "run: pnpm install")
    (swap_suffix (txt "run: npm ci")
       (txt "run: pnpm install --frozen-lockfile") l)
  = fix_line l.
Proof.
  unfold fix_line, swap_suffix at 2.
  destruct (ends_with (txt "run: npm ci") l); [|reflexivity].
  unfold swap_suffix.
  set (u := firstn _ l).
  replace (ends_with (txt "run: npm install")
             (u ++ txt "run: pnpm install --frozen-lockfile")) with false;
    [reflexivity|].
  unfold ends_with. now rewrite rev_app_distr.
Qed.

Lemma npm_rewrite_lines (z : text) :
  FixGithub.rule3 (FixGithub.rule2 z) = unlines (map fix_line (lines z)).
Proof.
  unfold FixGithub.rule3, FixGithub.rule2.
  change FixGithub.npm_ci with (at_line_end (txt "run: npm ci")).
  change FixGithub.npm_install with (at_line_end (txt "run: npm install")).
  rewrite (sub_at_line_end (txt "run: npm ci")
             (txt "run: pnpm install --frozen-lockfile"))
    by (discriminate || reflexivity).
  rewrite (sub_at_line_end (txt "run: npm install")
             (txt "run: pnpm install"))
    by (discriminate || reflexivity).
  rewrite lines_unlines.
  - rewrite map_map. f_equal. apply map_ext. exact fix_line_swaps.
  - pose proof (lines_not_nil z). now destruct (lines z).
  - apply Forall_map. eapply Forall_impl; [|apply lines_no_line_feed].
    intros l Hl. now apply swap_suffix_one_line.
Qed.

(** C10.  Steps 2 and 3 of [fix_workflow] work line by line on the text
    they receive (the text behind the cache rule): a line that ends exactly
    with [run: npm ci] or [run: npm install] gets this end replaced; every
    other line, and so every line on which more text follows the command,
    such as [run: npm install -g pkg], comes out character for character
    as it went in. *)
Theorem C10_only_line_ends_are_replaced (s : text) (modified : bool) :
  fst (FixGithub.rewrite_npm s modified) =
  unlines (map fix_line (lines (FixGithub.rule1 s))) /\
  (forall l,
      ends_with (txt "run: npm ci") l = false ->
      ends_with (txt "run: npm install") l = false ->
      fix_line l = l).
Proof.
  split.
  - rewrite rewrite_npm_text. apply npm_rewrite_lines.
  - intros l H1 H2. unfold fix_line. now rewrite H1, H2.
Qed.

(** ** Occurrences that cannot overlap *)

Lemma clash_sym (p x : text) : clash p x = clash x p.
Proof.
  revert x; induction p as [|a p IH]; intros [|b x]; simpl; try reflexivity.
  now rewrite IH, N.eqb_sym.
Qed.

Lemma clash_starts (p x t : text) :
  clash p x = true -> starts_with p (x ++ t) = false.
Proof.
  revert x; induction p as [|a p IH]; intros [|b x]; simpl;
    try discriminate.
  destruct (N.eqb a b); simpl; [apply IH | reflexivity].
Qed.

Lemma apart_suffix (p x y : text) :
  apart p (x ++ y) = true -> y <> [] -> clash p y = true.
Proof.
  induction x as [|c x IH]; simpl.
  - destruct y; [congruence|]. simpl. intros H _.
    now apply andb_true_iff in H.
  - intros H. apply andb_true_iff in H as [_ H]. now apply IH.
Qed.

Lemma apart_skipn (p u t : text) (n : nat) :
  apart p u = true -> n < length u ->
  starts_with p (skipn n u ++ t) = false.
Proof.
  intros H Hn. apply clash_starts.
  apply (apart_suffix p (firstn n u)); [now rewrite firstn_skipn|].
  intros E. apply (f_equal (@length char)) in E.
  rewrite length_skipn in E. simpl in E. lia.
Qed.

(** a prefix [a] of [u ++ w] lies in [u] or runs over its end *)
Lemma starts_with_app_cases (a u w : text) :
  starts_with a (u ++ w) = true ->
  (exists u2, u = a ++ u2) \/
  (exists a2, a = u ++ a2 /\ a2 <> [] /\ starts_with a2 w = true).
Proof.
  revert u; induction a as [|c a IH]; intros u H.
  - left. now exists u.
  - destruct u as [|d u].
    + right. exists (c :: a). repeat split; [discriminate | exact H].
    + simpl in H. apply andb_true_iff in H as [Hc H].
      apply N.eqb_eq in Hc. subst d.
      destruct (IH u H) as [[u2 ->]|(a2 & -> & Hn & Ha)].
      * left. now exists u2.
      * right. now exists a2.
Qed.

Section Preserved.

(** the matcher finds occurrences of [a], perhaps not all of them *)
Variable m : text -> option (nat * text).
Variable a : text.
Hypothesis m_finds_a :
  forall s n out, m s = Some (n, out) ->
                  n = length a /\ starts_with a s = true.
Hypothesis a_not_empty : a <> [].

(** the text [k] that is to survive *)
Variable k : text.
Hypothesis a_apart_k : apart a k = true.
Hypothesis k_apart_a : apart k (tl a) = true.

Lemma apart_is_quiet (t : text) : quiet m k t.
Proof.
  intros n Hn. destruct (m (skipn n k ++ t)) as [[e out]|] eqn:E;
    [|reflexivity].
  apply m_finds_a in E as [_ E].
  now rewrite apart_skipn in E.
Qed.

Lemma scan_keeps_occurrence (u v : text) :
  exists u', scan m 0 (u ++ k ++ v) = u' ++ k ++ scan m 0 v.
Proof.
  remember (length u) as n eqn:Hn. revert u Hn.
  induction n as [n IH] using lt_wf_ind. intros u Hn.
  destruct u as [|c u].
  - exists []. simpl. apply scan_quiet, apart_is_quiet.
  - destruct (m ((c :: u) ++ k ++ v)) as [[e out]|] eqn:E.
    + destruct (m_finds_a _ _ _ E) as [-> Ha].
      apply starts_with_app_cases in Ha
        as [[u2 Hu]|(a2 & Ea & Hn2 & Ha2)].
      * rewrite Hu, <- app_assoc in E |- *.
        rewrite (scan_hit m a _ out a_not_empty E).
        destruct (IH (length u2)) with (u := u2) as [u' Hu'];
          [|reflexivity|].
        { rewrite Hn, Hu, length_app. destruct a; [congruence|simpl; lia]. }
        exists (out ++ u'). now rewrite Hu', <- app_assoc.
      * exfalso. rewrite Ea in k_apart_a. simpl in k_apart_a.
        apply apart_suffix in k_apart_a; [|exact Hn2].
        rewrite clash_sym in k_apart_a.
        now rewrite (clash_starts a2 k v k_apart_a) in Ha2.
    + change ((c :: u) ++ k ++ v) with (c :: u ++ k ++ v) in E |- *.
      rewrite (scan_miss m c _ E).
      destruct (IH (length u)) with (u := u) as [u' Hu'];
        [simpl in Hn; lia | reflexivity |].
      exists (c :: u'). now rewrite Hu'.
Qed.

Lemma scan_keeps_contains (s : text) :
  contains k s = true -> contains k (scan m 0 s) = true.
Proof.
  intros H. apply contains_iff in H as (u & v & ->).
  destruct (scan_keeps_occurrence u v) as [u' ->].
  apply contains_iff. now exists u', (scan m 0 v).
Qed.

End Preserved.

(** ** The marker [pnpm/action-setup] *)

Lemma literal_match_finds (a b : text) (s : text) (n : nat) (out : text) :
  literal_match a b s = Some (n, out) ->
  n = length a /\ starts_with a s = true.
Proof.
  unfold literal_match. destruct (starts_with a s); [|discriminate].
  intros [= <- _]. now split.
Qed.

Lemma at_line_end_finds (a : text) (repl : text -> text)
      (s : text) (n : nat) (out : text) :
  regex_match (at_line_end a) repl s = Some (n, out) ->
  n = length a /\ starts_with a s = true.
Proof.
  rewrite at_line_end_match. destruct (starts_with a s); [|discriminate].
  simpl. destruct (at_eol _); [|discriminate].
  intros [= <- _]. now split.
Qed.

Lemma marker_survives_steps (s : text) (modified : bool) :
  FixGithub.has_pnpm_setup s = true ->
  FixGithub.has_pnpm_setup (fst (FixGithub.rewrite_npm s modified)) = true.
Proof.
  unfold FixGithub.has_pnpm_setup. rewrite rewrite_npm_text. intros H.
  apply (scan_keeps_contains _ (txt "run: npm install"));
    [apply at_line_end_finds | discriminate | reflexivity | reflexivity |].
  apply (scan_keeps_contains _ (txt "run: npm ci"));
    [apply at_line_end_finds | discriminate | reflexivity | reflexivity |].
  apply (scan_keeps_contains _ (txt "cache: 'npm'"));
    [apply literal_match_finds | discriminate | reflexivity | reflexivity |].
  exact H.
Qed.

(** C7.  A file that already mentions [pnpm/action-setup] gets no setup
    step inserted, whether or not it has a Node.js step.
    fix-pnpm-workflows.py answers "Already has pnpm setup" and writes
    nothing.  In fix-github-workflows.py the marker survives steps 1 to 3,
    so step 4 does not call [add_pnpm_setup]: what [fix_workflow] writes,
    if it writes, is the text behind steps 1 to 3, and it prints no
    warning. *)
Theorem C7_marker_blocks_insertion
        (f : name) (content : text) (fs : list (name * text))
        (out : list text) :
  lookup f fs = Some content ->
  contains (txt "pnpm/action-setup") content = true ->
  FixPnpm.fix_workflow_file f (World (Some fs) out) =
    (Ret (false, txt "Already has pnpm setup"), World (Some fs) out) /\
  FixGithub.has_pnpm_setup (fst (FixGithub.rewrite_npm content false))
    = true /\
  FixGithub.fix_workflow f (World (Some fs) out) =
    if FixGithub.needs_pnpm_setup content then
      let '(c, modified) := FixGithub.rewrite_npm content false in
      (Ret modified,
       if modified
       then World (Some (store f c
                           (store (FixGithub.backup_path f) content fs)))
                  out
       else World (Some fs) out)
    else (Ret false, World (Some fs) out).
Proof.
  intros Hl Hm. split; [|split].
  - unfold FixPnpm.fix_workflow_file, bind, read_text. cbn [dir].
    now rewrite Hl, Hm.
  - now apply marker_survives_steps.
  - pose proof (marker_survives_steps content false Hm) as Hs.
    unfold FixGithub.fix_workflow, bind, read_text. cbn [dir]. rewrite Hl.
    destruct (FixGithub.needs_pnpm_setup content); [|reflexivity].
    cbn [negb].
    destruct (FixGithub.rewrite_npm content false) as [c modified].
    cbn [fst] in Hs. rewrite Hs. cbn [negb].
    destruct modified; reflexivity.
Qed.

Lemma C7_marker_blocks_insertion_witness :
  FixPnpm.fix_workflow_file (txt "ci.yml")
    (World (Some [(txt "ci.yml", already_set_up)]) []) =
    (Ret (false, txt "Already has pnpm setup"),
     World (Some [(txt "ci.yml", already_set_up)]) []) /\
  FixGithub.has_pnpm_setup
    (fst (FixGithub.rewrite_npm already_set_up false)) = true /\
  FixGithub.fix_workflow (txt "ci.yml")
    (World (Some [(txt "ci.yml", already_set_up)]) []) =
    if FixGithub.needs_pnpm_setup already_set_up then
      let '(c, modified) := FixGithub.rewrite_npm already_set_up false in
      (Ret modified,
       if modified
       then World (Some (store (txt "ci.yml") c
                           (store (FixGithub.backup_path (txt "ci.yml"))
                                  already_set_up
                                  [(txt "ci.yml", already_set_up)])))
                  []
       else World (Some [(txt "ci.yml", already_set_up)]) [])
    else (Ret false, World (Some [(txt "ci.yml", already_set_up)]) []).
Proof.
  apply (C7_marker_blocks_insertion (txt "ci.yml") already_set_up
           [(txt "ci.yml", already_set_up)] []); reflexivity.
Defined.

(** ** Counting occurrences across a literal replacement *)

Lemma occurrences_skip (p u t : text) :
  apart p u = true -> occurrences p (u ++ t) = occurrences p t.
Proof.
  induction u as [|c u IH]; [reflexivity|]. simpl app. intros H.
  simpl in H. apply andb_true_iff in H as [Hc Hu].
  change (occurrences p (c :: u ++ t))
    with ((if starts_with p ((c :: u) ++ t) then 1 else 0)
          + occurrences p (u ++ t)).
  now rewrite (clash_starts p (c :: u) t Hc), IH.
Qed.

Lemma occurrences_self (p t : text) :
  p <> [] -> apart p (tl p) = true ->
  occurrences p (p ++ t) = S (occurrences p t).
Proof.
  intros Hp H. destruct p as [|c p]; [congruence|]. simpl in H.
  change (occurrences (c :: p) ((c :: p) ++ t))
    with ((if starts_with (c :: p) ((c :: p) ++ t) then 1 else 0)
          + occurrences (c :: p) (p ++ t)).
  now rewrite starts_with_app, occurrences_skip.
Qed.

Lemma starts_with_cons_eq (p t t' : text) (c : char) :
  starts_with (tl p) t = starts_with (tl p) t' -> p <> [] ->
  starts_with p (c :: t) = starts_with p (c :: t').
Proof. destruct p; [congruence|]. simpl. now intros ->. Qed.

Lemma apart_tl (p u : text) : apart p u = true -> apart p (tl u) = true.
Proof.
  destruct u; [trivial|]. simpl. intros H. now apply andb_true_iff in H.
Qed.

Section ReplaceCount.

Variables a b : text.
Hypothesis a_not_empty : a <> [].
Hypothesis a_no_border : apart a (tl a) = true.
Hypothesis b_no_border : apart b (tl b) = true.
Hypothesis a_apart_b : apart a b = true.
Hypothesis b_apart_a : apart b a = true.

Lemma replace_hit (s : text) :
  replace a b (a ++ s) = b ++ replace a b s.
Proof.
  unfold replace. apply scan_hit; [exact a_not_empty|].
  unfold literal_match. now rewrite starts_with_app.
Qed.

Lemma replace_miss (c : char) (s : text) :
  starts_with a (c :: s) = false ->
  replace a b (c :: s) = c :: replace a b s.
Proof.
  intros H. unfold replace. apply scan_miss.
  unfold literal_match. now rewrite H.
Qed.

Lemma replace_nil : replace a b [] = [].
Proof.
  unfold replace, literal_match. simpl.
  destruct a; [congruence | reflexivity].
Qed.

(** A text that neither [a] nor [b] can touch starts the result exactly
    when it starts the input. *)
Lemma replace_keeps_start (p s : text) :
  apart a p = true -> apart b p = true ->
  starts_with p (replace a b s) = starts_with p s.
Proof.
  revert s. induction p as [|x p IH]; intros s Ha Hb; [reflexivity|].
  simpl in Ha, Hb.
  apply andb_true_iff in Ha as [Ca Ha], Hb as [Cb Hb].
  destruct (starts_with a s) eqn:E.
  - apply starts_with_iff in E as [r ->]. rewrite replace_hit.
    rewrite clash_sym in Ca, Cb.
    now rewrite (clash_starts _ _ _ Ca), (clash_starts _ _ _ Cb).
  - destruct s as [|c s]; [now rewrite replace_nil|].
    rewrite replace_miss by exact E. simpl. now rewrite IH.
Qed.

Lemma b_not_empty : b <> [].
Proof.
  intros ->. pose proof b_apart_a as H.
  destruct a; [congruence|]. simpl in H. discriminate.
Qed.

Lemma replace_counts (s : text) :
  occurrences b (replace a b s) = occurrences a s + occurrences b s /\
  occurrences a (replace a b s) = 0.
Proof.
  pose proof b_not_empty as Hb.
  remember (length s) as n eqn:Hn. revert s Hn.
  induction n as [n IH] using lt_wf_ind. intros s Hn.
  destruct (starts_with a s) eqn:E.
  - apply starts_with_iff in E as [r ->]. rewrite replace_hit.
    destruct (IH (length r)) with (s := r) as [Ib Ia]; [|reflexivity|].
    { rewrite Hn, length_app. destruct a; [congruence | simpl; lia]. }
    rewrite !occurrences_self, !occurrences_skip by assumption.
    split; [lia | exact Ia].
  - destruct s as [|c s].
    + rewrite replace_nil. simpl.
      destruct a; [congruence|]. destruct b; [congruence|]. now split.
    + rewrite replace_miss by exact E.
      destruct (IH (length s)) with (s := s) as [Ib Ia];
        [simpl in Hn; lia | reflexivity |].
      assert (Sb : starts_with b (c :: replace a b s)
                   = starts_with b (c :: s)).
      { apply starts_with_cons_eq; [|exact Hb].
        apply replace_keeps_start;
          [apply apart_tl, a_apart_b | exact b_no_border]. }
      assert (Sa : starts_with a (c :: replace a b s) = false).
      { rewrite <- E. apply starts_with_cons_eq; [|exact a_not_empty].
        apply replace_keeps_start;
          [exact a_no_border | apply apart_tl, b_apart_a]. }
      change (occurrences b (c :: replace a b s))
        with ((if starts_with b (c :: replace a b s) then 1 else 0)
              + occurrences b (replace a b s)).
      change (occurrences a (c :: replace a b s))
        with ((if starts_with a (c :: replace a b s) then 1 else 0)
              + occurrences a (replace a b s)).
      change (occurrences a (c :: s))
        with ((if starts_with a (c :: s) then 1 else 0)
              + occurrences a s).
      change (occurrences b (c :: s))
        with ((if starts_with b (c :: s) then 1 else 0)
              + occurrences b s).
      rewrite Sb, Sa, E, Ib, Ia. split; lia.
Qed.

End ReplaceCount.

(** [re.sub] with a pattern of literal characters is [str.replace]. *)
Lemma sub_literal (a b : text) (s : text) :
  sub (map Chr a) (fun _ => b) s = replace a b s.
Proof.
  unfold sub, replace. apply scan_ext. intros t.
  unfold regex_match, literal_match. rewrite match_here_lit.
  now destruct (starts_with a t).
Qed.

(** C5, as stated, fails: the output also holds the occurrences of B that
    the input had.  One [cache: 'npm'] and one [cache: 'pnpm'] in the
    input give two [cache: 'pnpm'] in the output. *)
Lemma C5_existing_occurrences_counterexample :
  let s := txt "cache: 'npm' cache: 'pnpm'" in
  occurrences (txt "cache: 'npm'") s = 1 /\
  occurrences (txt "cache: 'pnpm'") (FixGithub.rule1 s) = 2.
Proof. split; vm_compute; reflexivity. Qed.

(** C5, amended.  Where the input has k occurrences of A and j of B, the
    output of the literal rule has k + j occurrences of B and none of A:
    for the cache rule of fix-github-workflows.py and for the action
    version rule of fix-all-pnpm-workflows.py. *)
Theorem C5_literal_rule_counts (s : text) :
  (occurrences (txt "cache: 'pnpm'") (FixGithub.rule1 s) =
     occurrences (txt "cache: 'npm'") s +
     occurrences (txt "cache: 'pnpm'") s /\
   occurrences (txt "cache: 'npm'") (FixGithub.rule1 s) = 0) /\
  (occurrences (txt "pnpm/action-setup@v2") (FixAll.fix1 s) =
     occurrences (txt "pnpm/action-setup@v4") s +
     occurrences (txt "pnpm/action-setup@v2") s /\
   occurrences (txt "pnpm/action-setup@v4") (FixAll.fix1 s) = 0).
Proof.
  split.
  - apply replace_counts; (discriminate || reflexivity).
  - unfold FixAll.fix1.
    change FixAll.pattern1 with (map Chr (txt "pnpm/action-setup@v4")).
    rewrite sub_literal.
    apply replace_counts; (discriminate || reflexivity).
Qed.

(** ** A text with one match *)

Lemma scan_count_nothing (m : text -> option (nat * text)) (s : text) :
  (forall n, m (skipn n s) = None) -> scan_count m 0 s = 0.
Proof.
  induction s as [|c s IH]; intros H.
  - pose proof (H 0) as H0. simpl in *. now rewrite H0.
  - rewrite scan_count_miss by apply (H 0). apply IH.
    intros n. apply (H (S n)).
Qed.

Lemma quiet_app (m : text -> option (nat * text)) (u w t : text) :
  quiet m u (w ++ t) -> quiet m w t -> quiet m (u ++ w) t.
Proof.
  intros Hu Hw n Hn. destruct (Nat.lt_ge_cases n (length u)) as [L|L].
  - rewrite skipn_app. replace (n - length u) with 0 by lia.
    simpl. rewrite <- app_assoc. now apply Hu.
  - rewrite skipn_app, (skipn_all2 u) by exact L. simpl.
    apply Hw. rewrite length_app in Hn. lia.
Qed.

Lemma scan_single (m : text -> option (nat * text))
      (pre u post out : text) :
  quiet m pre (u ++ post) -> u <> [] ->
  m (u ++ post) = Some (length u, out) ->
  (forall n, m (skipn n post) = None) ->
  scan m 0 (pre ++ u ++ post) = pre ++ out ++ post /\
  scan_count m 0 (pre ++ u ++ post) = 1.
Proof.
  intros Hq Hu Hm Hp. split.
  - rewrite scan_quiet by exact Hq.
    rewrite (scan_hit m u post out Hu Hm).
    now rewrite scan_nothing.
  - rewrite scan_count_quiet by exact Hq.
    rewrite (scan_count_hit m u post out Hu Hm).
    now rewrite scan_count_nothing.
Qed.

Section Finds.

(** a matcher whose matches all start with the text [a] *)
Variable m : text -> option (nat * text).
Variable a : text.
Hypothesis m_finds_a :
  forall s, starts_with a s = false -> m s = None.

Lemma absent_no_match (s : text) :
  contains a s = false -> forall n, m (skipn n s) = None.
Proof. intros H n. apply m_finds_a. now apply contains_no_start. Qed.

(** no occurrence of [a] starts in [u] when [u] has none and no end of
    [u] joins with the start of [w] to one *)
Lemma quiet_before (u w t : text) :
  contains a u = false -> apart w (tl a) = true -> quiet m u (w ++ t).
Proof.
  intros Hu Hw n Hn. apply m_finds_a.
  destruct (starts_with a (skipn n u ++ w ++ t)) eqn:E; [|reflexivity].
  apply starts_with_app_cases in E as [[u2 Eu]|(a2 & Ea & Hn2 & Ha2)].
  - assert (contains a u = true); [|congruence].
    apply contains_iff. exists (firstn n u), u2.
    now rewrite <- Eu, firstn_skipn.
  - destruct (skipn n u) as [|c x] eqn:Ex.
    + apply (f_equal (@length char)) in Ex. rewrite length_skipn in Ex.
      simpl in Ex. lia.
    + rewrite Ea in Hw. simpl in Hw.
      apply apart_suffix in Hw; [|exact Hn2].
      rewrite clash_sym in Hw.
      now rewrite (clash_starts a2 w t Hw) in Ha2.
Qed.

Lemma quiet_apart (u t : text) : apart a u = true -> quiet m u t.
Proof. intros H n Hn. apply m_finds_a. now apply apart_skipn. Qed.

End Finds.

Lemma lacks_apart (x : char) (a u : text) :
  lacks x u = true -> apart (x :: a) u = true.
Proof.
  induction u as [|c u IH]; [reflexivity|]. simpl. intros H.
  apply andb_true_iff in H as [Hc Hu]. now rewrite Hc, IH.
Qed.

Lemma lacks_app (x : char) (u v : text) :
  lacks x (u ++ v) = lacks x u && lacks x v.
Proof. apply forallb_app. Qed.

Lemma whitespace_lacks (x : char) (ws : text) :
  is_space x = false -> whitespace ws -> lacks x ws = true.
Proof.
  intros Hx. unfold whitespace. induction ws as [|c ws IH]; [reflexivity|].
  simpl. intros H. apply andb_true_iff in H as [Hc Hw].
  rewrite (IH Hw), andb_true_r.
  destruct (N.eqb x c) eqn:E; [|reflexivity].
  apply N.eqb_eq in E. congruence.
Qed.

Lemma apart_absent (a u v : text) :
  apart a u = true -> contains a v = false -> contains a (u ++ v) = false.
Proof.
  induction u as [|c u IH]; [trivial|]. simpl. intros H Hv.
  apply andb_true_iff in H as [Hc Hu].
  change (c :: u ++ v) with ((c :: u) ++ v).
  now rewrite (clash_starts a (c :: u) v Hc), IH.
Qed.

(** ** Matching a version field *)

Lemma version_tail_match (t : char) (off g : nat)
      (ws1 ws2 ws3 : text) (x : char) (rest : text) :
  is_space t = false -> is_space x = false ->
  ws1 <> [] -> whitespace ws1 -> ws2 <> [] -> whitespace ws2 ->
  whitespace ws3 ->
  match_from (version_tail t) off g
    (ws1 ++ txt "with:" ++ ws2 ++ txt "version:" ++ ws3 ++ x :: rest) =
  if N.eqb x t
  then Some (S (off + length ws1 + 5 + length ws2 + 8 + length ws3),
             off + length ws1 + 5 + length ws2 + 8)
  else None.
Proof.
  intros Ht Hx N1 W1 N2 W2 W3. unfold version_tail.
  rewrite plus_intro; [|now apply rejects_chr | exact N1 | exact W1 | reflexivity].
  rewrite lit_intro.
  rewrite plus_intro; [|now apply rejects_chr | exact N2 | exact W2 | reflexivity].
  rewrite lit_intro, match_close.
  rewrite star_intro; [|now apply rejects_chr | exact W3 | simpl; now rewrite Hx].
  simpl. destruct (N.eqb x t); reflexivity.
Qed.

Lemma span_decimal_space (ws t : text) :
  ws <> [] -> whitespace ws -> span is_decimal (ws ++ t) = 0.
Proof.
  intros Hn Hw. destruct ws as [|c ws]; [congruence|].
  unfold whitespace in Hw. simpl in Hw. apply andb_true_iff in Hw as [Hc _].
  simpl. destruct (is_decimal c) eqn:E; [|reflexivity].
  apply decimal_not_space in E. congruence.
Qed.

Lemma pattern2_match (ds ws1 ws2 ws3 : text) (x : char) (rest : text) :
  ds <> [] -> forallb is_decimal ds = true -> is_space x = false ->
  ws1 <> [] -> whitespace ws1 -> ws2 <> [] -> whitespace ws2 ->
  whitespace ws3 ->
  match_here FixAll.pattern2
    (setup_ref ++ ds ++
     ws1 ++ txt "with:" ++ ws2 ++ txt "version:" ++ ws3 ++ x :: rest) =
  if N.eqb x (chr "9")
  then Some (S (19 + length ds + length ws1 + 5 + length ws2 + 8
                + length ws3),
             19 + length ds + length ws1 + 5 + length ws2 + 8)
  else None.
Proof.
  intros Nd Dd Hx N1 W1 N2 W2 W3.
  unfold match_here, setup_ref. rewrite pattern2_shape, lit_intro.
  rewrite plus_intro;
    [|apply version_tail_rejects_decimal | exact Nd | exact Dd
     |now apply span_decimal_space].
  rewrite version_tail_match by (assumption || reflexivity).
  reflexivity.
Qed.

Lemma pattern1_needs_ref (repl : text -> text) (s : text) :
  starts_with setup_ref s = false ->
  regex_match FixAll.pattern1 repl s = None.
Proof.
  intros H. unfold regex_match, match_here.
  change FixAll.pattern1 with (map Chr setup_ref ++ [Chr (chr "4")]).
  now rewrite match_lit, H.
Qed.

Lemma pattern2_needs_ref (repl : text -> text) (s : text) :
  starts_with setup_ref s = false ->
  regex_match FixAll.pattern2 repl s = None.
Proof.
  intros H. unfold regex_match, match_here.
  rewrite pattern2_shape. fold setup_ref. now rewrite match_lit, H.
Qed.

Lemma found_intro (r : regex) (s : text) (n : nat) :
  match_here r (skipn n s) <> None -> found r s = true.
Proof.
  intros H. destruct (found r s) eqn:E; [reflexivity|].
  now rewrite (found_false r s E n) in H.
Qed.

Lemma version_field_lacks_p (ws1 ws2 ws3 : text) (x : char) :
  whitespace ws1 -> whitespace ws2 -> whitespace ws3 ->
  N.eqb (chr "p") x = false ->
  lacks (chr "p") (version_field ws1 ws2 ws3 x) = true.
Proof.
  intros W1 W2 W3 Hx. unfold version_field.
  assert (L : lacks (chr "p") [x] = true)
    by (unfold lacks; cbn [forallb]; now rewrite Hx).
  rewrite !lacks_app, L.
  rewrite (whitespace_lacks (chr "p") ws1), (whitespace_lacks (chr "p") ws2),
    (whitespace_lacks (chr "p") ws3) by (assumption || reflexivity).
  reflexivity.
Qed.

(** ** One action reference with its version *)

Section OneSetup.

Variables pre ws1 ws2 ws3 post : text.
Hypothesis pre_free : contains setup_ref pre = false.
Hypothesis post_free : contains setup_ref post = false.
Hypothesis ws1_some : ws1 <> [].
Hypothesis ws1_space : whitespace ws1.
Hypothesis ws2_some : ws2 <> [].
Hypothesis ws2_space : whitespace ws2.
Hypothesis ws3_space : whitespace ws3.

Let field := version_field ws1 ws2 ws3 (chr "9").
Let front := pre ++ txt "uses: ".

Lemma front_quiet (m : text -> option (nat * text)) (t : text) :
  (forall s, starts_with setup_ref s = false -> m s = None) ->
  quiet m front (setup_ref ++ t).
Proof.
  intros Hm. apply quiet_app.
  - apply (quiet_before m setup_ref Hm); [exact pre_free | reflexivity].
  - apply (quiet_apart m setup_ref Hm). reflexivity.
Qed.

Lemma field_post_free : contains setup_ref (field ++ post) = false.
Proof.
  apply apart_absent; [|exact post_free].
  apply lacks_apart. now apply version_field_lacks_p.
Qed.

Lemma one_setup_fix1 :
  FixAll.fix1 (front ++ (setup_ref ++ [chr "4"]) ++ field ++ post) =
  front ++ (setup_ref ++ [chr "2"]) ++ field ++ post /\
  findall_count FixAll.pattern1
    (front ++ (setup_ref ++ [chr "4"]) ++ field ++ post) = 1.
Proof.
  split;
    [refine (proj1 (scan_single _ _ _ _ (setup_ref ++ [chr "2"]) _ _ _ _))
    |refine (proj2 (scan_single _ _ _ _ [] _ _ _ _))].
  1,5: rewrite <- app_assoc; apply front_quiet;
       intros s; apply pattern1_needs_ref.
  1,4: discriminate.
  1,3: unfold regex_match;
       change FixAll.pattern1 with (map Chr (setup_ref ++ [chr "4"]));
       rewrite match_here_lit, starts_with_app; reflexivity.
  all: apply (absent_no_match _ setup_ref);
       [intros s; apply pattern1_needs_ref | apply field_post_free].
Qed.

Lemma one_setup_match (d : char) (repl : text -> text) :
  is_decimal d = true ->
  regex_match FixAll.pattern2 repl
    (((setup_ref ++ [d]) ++ version_field ws1 ws2 ws3 (chr "9")) ++ post) =
  Some (length ((setup_ref ++ [d]) ++ version_field ws1 ws2 ws3 (chr "9")),
        repl ((setup_ref ++ [d]) ++
              ws1 ++ txt "with:" ++ ws2 ++ txt "version:")).
Proof.
  intros Hd. unfold regex_match, version_field.
  replace (((setup_ref ++ [d]) ++
            ws1 ++ txt "with:" ++ ws2 ++ txt "version:" ++ ws3 ++
            [chr "9"]) ++ post)
    with (setup_ref ++ [d] ++ ws1 ++ txt "with:" ++ ws2 ++
          txt "version:" ++ ws3 ++ chr "9" :: post)
    by (now rewrite <- !app_assoc).
  rewrite pattern2_match;
    try assumption; try discriminate; try reflexivity;
    [|simpl; now rewrite Hd].
  rewrite N.eqb_refl. f_equal. f_equal.
  - rewrite !length_app. simpl. lia.
  - f_equal.
    replace (setup_ref ++ [d] ++ ws1 ++ txt "with:" ++ ws2 ++
             txt "version:" ++ ws3 ++ chr "9" :: post)
      with (((setup_ref ++ [d]) ++
             ws1 ++ txt "with:" ++ ws2 ++ txt "version:") ++
            ws3 ++ chr "9" :: post)
      by (now rewrite <- !app_assoc).
    match goal with
    | |- firstn ?n (?x ++ ?y) = _ =>
        replace n with (length x) by (rewrite !length_app; simpl; lia)
    end.
    apply firstn_exact.
Qed.


Lemma one_setup_fix2 (d : char) :
  is_decimal d = true ->
  FixAll.fix2 (front ++ ((setup_ref ++ [d]) ++ field) ++ post) =
  front ++
  (((setup_ref ++ [d]) ++ ws1 ++ txt "with:" ++ ws2 ++ txt "version:") ++
   txt " 10") ++ post /\
  findall_count FixAll.pattern2
    (front ++ ((setup_ref ++ [d]) ++ field) ++ post) = 1.
Proof.
  intros Hd.
  split;
    [refine (proj1 (scan_single _ _ _ _ _ _ _ _ _))
    |refine (proj2 (scan_single _ _ _ _ _ _ _ _ _))].
  1,5: rewrite <- !app_assoc; apply front_quiet;
       intros s; apply pattern2_needs_ref.
  1,4: unfold setup_ref; discriminate.
  1,3: now apply one_setup_match.
  all: apply (absent_no_match _ setup_ref);
       [intros s; apply pattern2_needs_ref | exact post_free].
Qed.

Lemma one_setup_found (r : regex) (t : text) :
  match_here r t <> None -> found r (front ++ t) = true.
Proof.
  intros H. apply (found_intro r _ (length front)).
  now rewrite skipn_exact.
Qed.

Lemma one_setup_content :
  FixAll.fix_content
    (front ++ ((setup_ref ++ [chr "4"]) ++ field) ++ post) =
  (front ++
   (((setup_ref ++ [chr "2"]) ++
     ws1 ++ txt "with:" ++ ws2 ++ txt "version:") ++ txt " 10") ++ post,
   [FixAll.change1 1; FixAll.change2 1]).
Proof.
  destruct one_setup_fix1 as [F1 C1].
  destruct (one_setup_fix2 (chr "2") eq_refl) as [F2 _].
  destruct (one_setup_fix2 (chr "4") eq_refl) as [_ C2].
  rewrite (app_assoc (setup_ref ++ [chr "2"]) field post) in F1.
  rewrite (app_assoc (setup_ref ++ [chr "4"]) field post) in F1, C1.
  unfold FixAll.fix_content.
  rewrite one_setup_found, F1, C1.
  - rewrite one_setup_found, F2, C2; [reflexivity|].
    pose proof (one_setup_match (chr "2") (fun g => g) eq_refl) as M.
    unfold regex_match in M. rewrite <- app_assoc in M.
    destruct (match_here FixAll.pattern2 _); [discriminate | discriminate].
  - change FixAll.pattern1 with (map Chr (setup_ref ++ [chr "4"])).
    rewrite <- app_assoc, match_here_lit, starts_with_app. discriminate.
Qed.

End OneSetup.

(** C4, as stated, fails: fix-all-pnpm-workflows.py first turns the
    reference [@v4] into [@v2].  The file it leaves has no
    [uses: pnpm/action-setup@v4], and it reports two changes. *)
Lemma C4_action_reference_counterexample :
  let s := txt "      - name: Install pnpm" ++ [NL] ++
           txt "        uses: pnpm/action-setup@v4" ++ [NL] ++
           txt "        with:" ++ [NL] ++
           txt "          version: 9" ++ [NL] in
  contains (txt "uses: pnpm/action-setup@v4") (fst (FixAll.fix_content s))
    = false /\
  FixAll.fix_content s =
  (txt "      - name: Install pnpm" ++ [NL] ++
   txt "        uses: pnpm/action-setup@v2" ++ [NL] ++
   txt "        with:" ++ [NL] ++
   txt "          version: 10" ++ [NL],
   [txt "Updated action version v4 " ++ [8594%N] ++
    txt " v2 (1 occurrences)";
    txt "Updated pnpm version 9 " ++ [8594%N] ++
    txt " 10 (1 occurrences)"]).
Proof. split; vm_compute; reflexivity. Qed.

(** C4, amended.  A file whose only action reference is
    [uses: pnpm/action-setup@v4], followed by white space, [with:], white
    space, [version:], optional white space and [9], comes out of
    fix-all-pnpm-workflows.py with [uses: pnpm/action-setup@v2] and
    [version: 10] in their places and everything else as it was; the
    changes reported are the action version change and the pnpm version
    change, each with one occurrence. *)
Theorem C4_single_setup_is_bumped (pre ws1 ws2 ws3 post : text) :
  contains (txt "pnpm/action-setup@v") pre = false ->
  contains (txt "pnpm/action-setup@v") post = false ->
  ws1 <> [] -> whitespace ws1 -> ws2 <> [] -> whitespace ws2 ->
  whitespace ws3 ->
  FixAll.fix_content
    (pre ++ txt "uses: pnpm/action-setup@v4" ++
     ws1 ++ txt "with:" ++ ws2 ++ txt "version:" ++ ws3 ++ txt "9" ++ post)
  = (pre ++ txt "uses: pnpm/action-setup@v2" ++
     ws1 ++ txt "with:" ++ ws2 ++ txt "version:" ++ txt " 10" ++ post,
     [txt "Updated action version v4 " ++ [8594%N] ++
      txt " v2 (1 occurrences)";
      txt "Updated pnpm version 9 " ++ [8594%N] ++
      txt " 10 (1 occurrences)"]).
Proof.
  intros Hpre Hpost N1 W1 N2 W2 W3.
  pose proof (one_setup_content pre ws1 ws2 ws3 post
                Hpre Hpost N1 W1 N2 W2 W3) as E.
  unfold version_field, setup_ref in E.
  rewrite <- !app_assoc in E. exact E.
Qed.

Lemma C4_single_setup_is_bumped_witness :
  FixAll.fix_content
    ((txt "      - name: Install pnpm" ++ [NL] ++ txt "        ") ++
     txt "uses: pnpm/action-setup@v4" ++
     (NL :: txt "        ") ++ txt "with:" ++
     (NL :: txt "          ") ++ txt "version:" ++ txt " " ++ txt "9" ++
     [NL])
  = ((txt "      - name: Install pnpm" ++ [NL] ++ txt "        ") ++
     txt "uses: pnpm/action-setup@v2" ++
     (NL :: txt "        ") ++ txt "with:" ++
     (NL :: txt "          ") ++ txt "version:" ++ txt " 10" ++ [NL],
     [txt "Updated action version v4 " ++ [8594%N] ++
      txt " v2 (1 occurrences)";
      txt "Updated pnpm version 9 " ++ [8594%N] ++
      txt " 10 (1 occurrences)"]).
Proof.
  apply (C4_single_setup_is_bumped
           (txt "      - name: Install pnpm" ++ [NL] ++ txt "        ")
           (NL :: txt "        ") (NL :: txt "          ") (txt " ") [NL]);
    (discriminate || reflexivity).
Defined.

(** ** Rules that are idempotent *)

Section Idempotent.

Variable m : text -> option (nat * text).

Hypothesis m_proper :
  forall s n out, m s = Some (n, out) -> 0 < n <= length s.

(** a match is decided by the text it covers *)
Hypothesis m_local :
  forall x t n out,
    m (x ++ t) = Some (n, out) -> n <= length x ->
    forall t', m (x ++ t') <> None.

(** no match starts in a replacement, and none reaches into one *)
Hypothesis m_barrier :
  forall x s out,
    m (x ++ s) = Some (length x, out) ->
    (forall t, quiet m out t) /\
    (forall u t n out', m (u ++ out ++ t) = Some (n, out') -> n <= length u).

Lemma scan_reflects_and_fixes (s : text) :
  (forall u, m (u ++ scan m 0 s) <> None -> m (u ++ s) <> None) /\
  scan m 0 (scan m 0 s) = scan m 0 s.
Proof.
  apply (scan_induction m m_proper
           (fun s o => (forall u, m (u ++ o) <> None -> m (u ++ s) <> None)
                       /\ scan m 0 o = o)).
  - split; [trivial|]. simpl. destruct (m []) as [[n out]|] eqn:E;
      [|reflexivity].
    apply m_proper in E. simpl in E. lia.
  - intros c s0 o Hc [HA HF]. split.
    + intros u Hu.
      replace (u ++ c :: s0) with ((u ++ [c]) ++ s0)
        by now rewrite <- app_assoc.
      apply HA. now rewrite <- app_assoc.
    + rewrite scan_miss; [now rewrite HF|].
      destruct (m (c :: o)) eqn:E; [|reflexivity].
      exfalso. apply (HA [c]); simpl; congruence.
  - intros x s0 out o Hx Hm [HA HF].
    destruct (m_barrier x s0 out Hm) as [Hq Hb]. split.
    + intros u Hu.
      destruct (m (u ++ out ++ o)) as [[n out']|] eqn:E; [|congruence].
      apply (m_local u (out ++ o) n out' E).
      now apply (Hb u o n out').
    + rewrite scan_quiet by apply Hq. now rewrite HF.
Qed.

Lemma scan_idempotent (s : text) : scan m 0 (scan m 0 s) = scan m 0 s.
Proof. apply scan_reflects_and_fixes. Qed.

End Idempotent.

Lemma clash_app (p x y : text) : clash p x = true -> clash p (x ++ y) = true.
Proof.
  revert x; induction p as [|a p IH]; intros [|b x]; simpl;
    try discriminate.
  intros H. apply orb_true_iff in H as [H|H]; [now rewrite H|].
  rewrite (IH x H). apply orb_true_r.
Qed.

Lemma apart_app (p u v : text) :
  apart p u = true -> apart p v = true -> apart p (u ++ v) = true.
Proof.
  induction u as [|c u IH]; [trivial|]. simpl. intros H Hv.
  apply andb_true_iff in H as [Hc Hu].
  rewrite (IH Hu Hv), andb_true_r.
  exact (clash_app p (c :: u) v Hc).
Qed.

Lemma class_lacks (q : char -> bool) (x : char) (u : text) :
  q x = false -> forallb q u = true -> lacks x u = true.
Proof.
  intros Hx. induction u as [|c u IH]; [reflexivity|]. simpl.
  intros H. apply andb_true_iff in H as [Hc Hu].
  rewrite (IH Hu), andb_true_r.
  destruct (N.eqb x c) eqn:E; [|reflexivity].
  apply N.eqb_eq in E. congruence.
Qed.

Lemma lacks_head (x : char) (u y r : text) :
  lacks x (u ++ y) = true -> y <> [] -> hd x y = x -> False.
Proof.
  rewrite lacks_app. intros H Hy Hh. apply andb_true_iff in H as [_ H].
  destruct y as [|c y]; [congruence|]. simpl in *. subst c.
  now rewrite N.eqb_refl in H.
Qed.

(** a prefix of [x ++ t] no longer than [x] is a prefix of [x] *)
Lemma app_prefix (x t p rest : text) :
  x ++ t = p ++ rest -> length p <= length x -> exists x2, x = p ++ x2.
Proof.
  revert x; induction p as [|c p IH]; intros x E L.
  - now exists x.
  - destruct x as [|d x]; [simpl in L; lia|].
    injection E as -> E. simpl in L.
    destruct (IH x E) as [x2 ->]; [lia|]. now exists x2.
Qed.

(** a prefix of [u ++ t] longer than [u] goes on with the start of [t] *)
Lemma app_longer (u t p rest : text) :
  u ++ t = p ++ rest -> length u < length p ->
  exists y, p = u ++ y /\ y <> [] /\ t = y ++ rest.
Proof.
  revert p; induction u as [|c u IH]; intros p E L.
  - exists p. repeat split; [|exact E].
    intros ->. simpl in L. lia.
  - destruct p as [|d p]; [simpl in L; lia|].
    injection E as -> E. simpl in L.
    destruct (IH p E) as (y & -> & Hy & Et); [lia|].
    exists y. now repeat split.
Qed.

(** ** The version rules are idempotent *)

Section VersionRule.

Variable r : regex.
Variable t x0 : char.
Variable ref' : text.
Variable anchor : text -> Prop.

Hypothesis r_consuming : consuming r.
Hypothesis r_inv :
  forall s e g,
    match_here r s = Some (e, g) ->
    exists w ws rest,
      version_window anchor w /\ whitespace ws /\
      s = w ++ ws ++ t :: rest /\
      g = length w /\ e = length (w ++ ws ++ [t]).
Hypothesis r_match :
  forall w ws x rest,
    version_window anchor w -> whitespace ws -> is_space x = false ->
    match_here r (w ++ ws ++ x :: rest) =
    if N.eqb x t then Some (length (w ++ ws ++ [t]), length w) else None.
Hypothesis anchor_ref :
  forall a, anchor a -> exists d, a = (x0 :: ref') ++ d /\ lacks x0 d = true.
Hypothesis ref_no_border : apart (x0 :: ref') ref' = true.
Hypothesis x0_not_space : is_space x0 = false.
Hypothesis x0_not_in_field : lacks x0 (txt "with:version: 10") = true.
Hypothesis x0_not_t : N.eqb x0 t = false.
Hypothesis t_not_space : is_space t = false.
Hypothesis t_not_1 : N.eqb (chr "1") t = false.

Lemma window_ref (w : text) :
  version_window anchor w ->
  exists d, w = (x0 :: ref') ++ d /\ lacks x0 d = true.
Proof.
  intros [a ws1 ws2 Ha N1 W1 N2 W2].
  destruct (anchor_ref a Ha) as (d & -> & Hd).
  exists (d ++ ws1 ++ txt "with:" ++ ws2 ++ txt "version:").
  split; [now rewrite <- app_assoc|].
  rewrite !lacks_app, Hd.
  rewrite (whitespace_lacks x0 ws1), (whitespace_lacks x0 ws2)
    by assumption.
  pose proof x0_not_in_field as H.
  change (txt "with:version: 10")
    with (txt "with:" ++ txt "version:" ++ txt " 10") in H.
  rewrite !lacks_app in H.
  apply andb_true_iff in H as [H1 H]. apply andb_true_iff in H as [H2 _].
  now rewrite H1, H2.
Qed.

Lemma bump_inv (s : text) (n : nat) (out : text) :
  bump r s = Some (n, out) ->
  exists w ws rest,
    version_window anchor w /\ whitespace ws /\
    s = w ++ ws ++ t :: rest /\
    n = length (w ++ ws ++ [t]) /\ out = w ++ txt " 10".
Proof.
  unfold bump, regex_match.
  destruct (match_here r s) as [[e g]|] eqn:E; [|discriminate].
  intros [= <- <-].
  destruct (r_inv s e g E) as (w & ws & rest & Hw & Hws & -> & -> & ->).
  exists w, ws, rest. repeat split; try assumption.
  now rewrite firstn_exact.
Qed.

Lemma bump_proper (s : text) (n : nat) (out : text) :
  bump r s = Some (n, out) -> 0 < n <= length s.
Proof. now apply regex_match_proper. Qed.

Lemma bump_needs_ref (s : text) :
  starts_with (x0 :: ref') s = false -> bump r s = None.
Proof.
  intros H. destruct (bump r s) as [[n out]|] eqn:E; [|reflexivity].
  apply bump_inv in E as (w & ws & rest & Hw & _ & -> & _).
  destruct (window_ref w Hw) as (d & -> & _).
  now rewrite <- app_assoc, starts_with_app in H.
Qed.

Lemma bump_local (x s : text) (n : nat) (out : text) :
  bump r (x ++ s) = Some (n, out) -> n <= length x ->
  forall s', bump r (x ++ s') <> None.
Proof.
  intros E L s'.
  apply bump_inv in E as (w & ws & rest & Hw & Hws & E & -> & _).
  replace (w ++ ws ++ t :: rest) with ((w ++ ws ++ [t]) ++ rest) in E
    by now rewrite <- !app_assoc.
  destruct (app_prefix x s _ rest E L) as [x2 ->].
  unfold bump, regex_match.
  replace (((w ++ ws ++ [t]) ++ x2) ++ s')
    with (w ++ ws ++ t :: (x2 ++ s')) by now rewrite <- !app_assoc.
  rewrite r_match, N.eqb_refl by assumption. discriminate.
Qed.

Lemma bump_out_quiet (w : text) (s : text) :
  version_window anchor w -> quiet (bump r) (w ++ txt " 10") s.
Proof.
  intros Hw [|n] Hn.
  - unfold bump, regex_match. cbn [skipn].
    replace ((w ++ txt " 10") ++ s)
      with (w ++ txt " " ++ chr "1" :: (txt "0" ++ s))
      by now rewrite <- !app_assoc.
    rewrite (r_match w (txt " ") (chr "1") (txt "0" ++ s))
      by (assumption || reflexivity).
    now rewrite t_not_1.
  - apply bump_needs_ref.
    destruct (window_ref w Hw) as (d & -> & Hd).
    change (skipn (S n) (((x0 :: ref') ++ d) ++ txt " 10"))
      with (skipn n ((ref' ++ d) ++ txt " 10")).
    apply apart_skipn.
    + rewrite <- app_assoc. apply apart_app; [exact ref_no_border|].
      apply lacks_apart. rewrite lacks_app, Hd.
      pose proof x0_not_in_field as H.
      change (txt "with:version: 10")
        with (txt "with:version:" ++ txt " 10") in H.
      rewrite lacks_app in H. now apply andb_true_iff in H.
    + rewrite !length_app in Hn |- *. simpl in Hn |- *.
      rewrite ?length_app in Hn. simpl in Hn. lia.
Qed.

Lemma bump_barrier (x s out : text) :
  bump r (x ++ s) = Some (length x, out) ->
  (forall s', quiet (bump r) out s') /\
  (forall u s' n out',
      bump r (u ++ out ++ s') = Some (n, out') -> n <= length u).
Proof.
  intros E. apply bump_inv in E as (w & ws & rest & Hw & _ & _ & _ & ->).
  split; [intros s'; now apply bump_out_quiet|].
  intros u s' n out' E.
  destruct (Nat.le_gt_cases n (length u)) as [L|L]; [exact L|]. exfalso.
  destruct u as [|c u].
  - pose proof (bump_out_quiet w s' Hw 0) as Q.
    simpl in Q, E. rewrite E in Q.
    assert (0 < length (w ++ txt " 10")) by (rewrite length_app; simpl; lia).
    now specialize (Q H).
  - assert (Hs : starts_with (x0 :: ref')
                   ((c :: u) ++ (w ++ txt " 10") ++ s') = true).
    { destruct (starts_with (x0 :: ref') _) eqn:S; [reflexivity|].
      now rewrite (bump_needs_ref _ S) in E. }
    destruct (window_ref w Hw) as (d & Ew & Hd).
    apply bump_inv in E as (w' & ws' & rest' & Hw' & Hws' & E & -> & _).
    apply starts_with_app_cases in Hs as [[u2 Hu]|(a2 & Ea & Hn & Ha)].
    + destruct (window_ref w' Hw') as (d' & -> & Hd').
      rewrite Hu in E, L. rewrite <- !app_assoc in E.
      apply app_inv_head in E.
      rewrite !length_app in L.
      replace (d' ++ ws' ++ t :: rest')
        with ((d' ++ ws' ++ [t]) ++ rest') in E
        by now rewrite <- !app_assoc.
      destruct (app_longer u2 _ _ rest' E) as (y & Ey & Hy & Et).
      { rewrite !length_app. simpl in *. lia. }
      apply (lacks_head x0 u2 y rest'); [|exact Hy|].
      * rewrite <- Ey, !lacks_app, Hd'.
        rewrite (whitespace_lacks x0 ws') by assumption.
        unfold lacks. simpl. now rewrite x0_not_t.
      * rewrite Ew in Et. destruct y; [congruence|].
        simpl in Et. now injection Et as <- _.
    + injection Ea as _ Ea. pose proof ref_no_border as B.
      rewrite Ea in B at 2.
      apply apart_suffix in B; [|exact Hn].
      rewrite clash_sym in B.
      rewrite Ew, <- !app_assoc in Ha.
      now rewrite (clash_starts a2 (x0 :: ref') _ B) in Ha.
Qed.

Lemma bump_idempotent (s : text) :
  scan (bump r) 0 (scan (bump r) 0 s) = scan (bump r) 0 s.
Proof.
  apply scan_idempotent.
  - exact bump_proper.
  - exact bump_local.
  - exact bump_barrier.
Qed.

End VersionRule.

Lemma update_pattern_match (ws1 ws2 ws3 : text) (x : char) (rest : text) :
  is_space x = false ->
  ws1 <> [] -> whitespace ws1 -> ws2 <> [] -> whitespace ws2 ->
  whitespace ws3 ->
  match_here UpdateVersion.pattern
    (txt "uses: pnpm/action-setup@v2" ++
     ws1 ++ txt "with:" ++ ws2 ++ txt "version:" ++ ws3 ++ x :: rest) =
  if N.eqb x (chr "8")
  then Some (S (26 + length ws1 + 5 + length ws2 + 8 + length ws3),
             26 + length ws1 + 5 + length ws2 + 8)
  else None.
Proof.
  intros Hx N1 W1 N2 W2 W3.
  unfold match_here. rewrite update_pattern_shape, lit_intro.
  rewrite version_tail_match by (assumption || reflexivity).
  reflexivity.
Qed.

Lemma pattern2_window_match (w ws : text) (x : char) (rest : text) :
  version_window setup_any w -> whitespace ws -> is_space x = false ->
  match_here FixAll.pattern2 (w ++ ws ++ x :: rest) =
  if N.eqb x (chr "9")
  then Some (length (w ++ ws ++ [chr "9"]), length w) else None.
Proof.
  intros [a ws1 ws2 (ds & -> & Nd & Dd) N1 W1 N2 W2] Hws Hx.
  fold setup_ref. rewrite <- !app_assoc.
  rewrite pattern2_match by assumption.
  destruct (N.eqb x (chr "9")); [|reflexivity].
  f_equal. f_equal; rewrite !length_app; simpl; lia.
Qed.

Lemma update_window_match (w ws : text) (x : char) (rest : text) :
  version_window setup_v2 w -> whitespace ws -> is_space x = false ->
  match_here UpdateVersion.pattern (w ++ ws ++ x :: rest) =
  if N.eqb x (chr "8")
  then Some (length (w ++ ws ++ [chr "8"]), length w) else None.
Proof.
  intros [a ws1 ws2 -> N1 W1 N2 W2] Hws Hx.
  rewrite <- !app_assoc.
  rewrite update_pattern_match by assumption.
  destruct (N.eqb x (chr "8")); [|reflexivity].
  f_equal. f_equal; rewrite !length_app; simpl; lia.
Qed.

Lemma fix2_idempotent (s : text) :
  FixAll.fix2 (FixAll.fix2 s) = FixAll.fix2 s.
Proof.
  apply (bump_idempotent FixAll.pattern2 (chr "9") (chr "p")
           (tl setup_ref) setup_any);
    try reflexivity; try exact I.
  - exact pattern2_inv.
  - exact pattern2_window_match.
  - intros a (ds & -> & _ & Dd). exists ds. split; [reflexivity|].
    now apply (class_lacks is_decimal).
Qed.

(** update-pnpm-version.py: a second application of the rule changes
    nothing. *)
Lemma new_content_idempotent (s : text) :
  UpdateVersion.new_content (UpdateVersion.new_content s) =
  UpdateVersion.new_content s.
Proof.
  apply (bump_idempotent UpdateVersion.pattern (chr "8") (chr "u")
           (tl (txt "uses: pnpm/action-setup@v2")) setup_v2);
    try reflexivity; try exact I.
  - exact update_pattern_inv.
  - exact update_window_match.
  - intros a ->. exists []. split; reflexivity.
Qed.

(** ** The rule set of fix-all-pnpm-workflows.py is idempotent *)

Lemma edits_copy_app (w s o : text) : edits s o -> edits (w ++ s) (w ++ o).
Proof. intros H. induction w as [|c w IH]; [exact H | now constructor]. Qed.

Lemma bumps_edits (anchor : text -> Prop) (t : char) (s o : text) :
  bumps anchor t s o -> edits s o.
Proof.
  induction 1 as [|c s o _ IH|w ws s o _ _ _ IH].
  - constructor.
  - now constructor.
  - apply edits_copy_app. now constructor.
Qed.

Lemma contains_app_r (k u s : text) :
  contains k s = true -> contains k (u ++ s) = true.
Proof.
  intros H. induction u as [|c u IH]; [exact H|]. simpl.
  rewrite IH. apply orb_true_r.
Qed.

Lemma edits_starts (s o : text) :
  edits s o ->
  forall k, lacks 32%N k = true ->
            starts_with k o = true -> starts_with k s = true.
Proof.
  induction 1 as [|c s o _ IH|ws t s o _ IH]; intros k Hk H.
  - exact H.
  - destruct k as [|x k]; [reflexivity|]. simpl in *.
    apply andb_true_iff in H as [Hx H], Hk as [_ Hk].
    now rewrite Hx, (IH k Hk H).
  - destruct k as [|x k]; [reflexivity|]. simpl in H, Hk.
    apply andb_true_iff in H as [Hx _], Hk as [Hk _].
    apply N.eqb_eq in Hx. subst x. discriminate.
Qed.

Lemma contains_nil (s : text) : contains [] s = true.
Proof. now destruct s. Qed.

Lemma contains_skip_char (c : char) (k s : text) :
  lacks c k = true -> k <> [] -> contains k (c :: s) = contains k s.
Proof.
  intros H Hk. destruct k as [|x k]; [congruence|].
  unfold lacks in H. cbn [forallb] in H.
  apply andb_true_iff in H as [H _]. apply negb_true_iff in H.
  cbn [contains starts_with]. now rewrite N.eqb_sym, H.
Qed.

Lemma edits_contains (k s o : text) :
  lacks 32%N k = true -> lacks (chr "1") k = true ->
  lacks (chr "0") k = true ->
  edits s o -> contains k o = true -> contains k s = true.
Proof.
  intros K1 K2 K3. induction 1 as [|c s o He IH|ws t s o He IH]; intros H.
  - exact H.
  - simpl in H. apply orb_true_iff in H as [H|H].
    + apply contains_starts.
      apply (edits_starts (c :: s) (c :: o)); [now constructor | exact K1|].
      exact H.
    + simpl. rewrite (IH H). apply orb_true_r.
  - destruct k as [|x k]; [apply contains_nil|].
    replace (ws ++ t :: s) with ((ws ++ [t]) ++ s)
      by now rewrite <- app_assoc.
    apply contains_app_r, IH.
    change (txt " 10" ++ o) with (32%N :: chr "1" :: chr "0" :: o) in H.
    now rewrite !contains_skip_char in H by (assumption || discriminate).
Qed.

Lemma occurrences_none (p s : text) :
  occurrences p s = 0 -> contains p s = false.
Proof.
  induction s as [|c s IH]; simpl.
  - now destruct (starts_with p []).
  - destruct (starts_with p (c :: s)); [discriminate|]. simpl. exact IH.
Qed.

Lemma fix_all_idempotent (s : text) :
  fst (FixAll.fix_content (fst (FixAll.fix_content s))) =
  fst (FixAll.fix_content s).
Proof.
  rewrite !fix_content_text. set (z := FixAll.fix1 s).
  assert (Hz : contains (txt "pnpm/action-setup@v4") z = false).
  { apply occurrences_none. unfold z, FixAll.fix1.
    change FixAll.pattern1 with (map Chr (txt "pnpm/action-setup@v4")).
    rewrite sub_literal.
    apply replace_counts; (discriminate || reflexivity). }
  assert (Hz2 : contains (txt "pnpm/action-setup@v4") (FixAll.fix2 z)
                = false).
  { destruct (contains _ (FixAll.fix2 z)) eqn:E; [|reflexivity].
    rewrite <- Hz. symmetry.
    apply (edits_contains _ z (FixAll.fix2 z)); try reflexivity; [|exact E].
    apply (bumps_edits setup_any (chr "9")).
    apply bump_scan; [exact I | exact pattern2_inv]. }
  assert (F1 : FixAll.fix1 (FixAll.fix2 z) = FixAll.fix2 z).
  { unfold FixAll.fix1 at 1.
    change FixAll.pattern1 with (map Chr (txt "pnpm/action-setup@v4")).
    rewrite sub_literal. now apply replace_absent. }
  rewrite F1. apply fix2_idempotent.
Qed.

(** fix-all-pnpm-workflows.py writes a file exactly when its rules change
    the text. *)
Lemma fix_all_persists_changes
      (f : name) (c : text) (fs : list (name * text)) (out : list text) :
  lookup f fs = Some c ->
  FixAll.fix_workflow_file f (World (Some fs) out) =
  if text_eqb (fst (FixAll.fix_content c)) c
  then (Ret (false, []), World (Some fs) out)
  else (Ret (true, snd (FixAll.fix_content c)),
        World (Some (store f (fst (FixAll.fix_content c)) fs)) out).
Proof.
  intros Hl. unfold FixAll.fix_workflow_file, bind, read_text.
  cbn [dir]. rewrite Hl.
  destruct (FixAll.fix_content c) as [content changes]. cbn [fst snd].
  now destruct (text_eqb content c).
Qed.

(** A second run of fix-all-pnpm-workflows.py over a file it has
    rewritten finds nothing to change and writes nothing. *)
Lemma fix_all_second_run
      (f : name) (c : text) (fs : list (name * text)) (out : list text) :
  lookup f fs = Some (fst (FixAll.fix_content c)) ->
  FixAll.fix_workflow_file f (World (Some fs) out) =
  (Ret (false, []), World (Some fs) out).
Proof.
  intros Hl. rewrite (fix_all_persists_changes f _ fs out Hl).
  now rewrite fix_all_idempotent, text_eqb_refl.
Qed.

(** ** fix-pnpm-workflows.py is idempotent *)

Lemma inserted_setup_has_marker (g s : text) :
  contains (txt "pnpm/action-setup") (FixPnpm.replacement g ++ s) = true.
Proof.
  apply contains_iff.
  exists (txt "      - name: " ++ [128230%N] ++ txt " Setup pnpm" ++ [NL] ++
          txt "        uses: "),
         (txt "@v2" ++ [NL] ++ txt "        with:" ++ [NL] ++
          txt "          version: 8" ++ [NL] ++ [NL] ++ g ++ s).
  unfold FixPnpm.replacement, FixPnpm.PNPM_SETUP.
  now rewrite <- !app_assoc.
Qed.

Lemma subn_marks (s : text) :
  0 < findall_count FixPnpm.pattern s ->
  contains (txt "pnpm/action-setup")
    (sub FixPnpm.pattern FixPnpm.replacement s) = true.
Proof.
  unfold sub, findall_count.
  apply (scan_induction (regex_match FixPnpm.pattern FixPnpm.replacement)
           (regex_match_proper FixPnpm.pattern FixPnpm.replacement I)
           (fun s o =>
              0 < scan_count (regex_match FixPnpm.pattern (fun g => g)) 0 s
              -> contains (txt "pnpm/action-setup") o = true)).
  - simpl. unfold regex_match.
    destruct (match_here FixPnpm.pattern []) as [[e g]|]; simpl; lia.
  - intros c s0 o Hm IH H. apply (contains_app_r _ [c]), IH.
    rewrite scan_count_miss in H; [exact H|].
    unfold regex_match in *.
    now destruct (match_here FixPnpm.pattern (c :: s0)) as [[e g]|].
  - intros u s0 out o Hu Hm _ _. unfold regex_match in Hm.
    destruct (match_here FixPnpm.pattern (u ++ s0)) as [[e g]|];
      [|discriminate].
    injection Hm as _ <-. apply inserted_setup_has_marker.
Qed.

Lemma fix_pnpm_file
      (f : name) (c : text) (fs : list (name * text)) (out : list text) :
  lookup f fs = Some c ->
  FixPnpm.fix_workflow_file f (World (Some fs) out) =
  if contains (txt "pnpm/action-setup") c then
    (Ret (false, txt "Already has pnpm setup"), World (Some fs) out)
  else if 0 <? findall_count FixPnpm.pattern c then
    (Ret (true,
          txt "Added pnpm setup (" ++
          str_of_nat (findall_count FixPnpm.pattern c) ++
          txt " locations)"),
     World (Some (store f (sub FixPnpm.pattern FixPnpm.replacement c) fs))
           out)
  else (Ret (false, txt "No setup-node found"), World (Some fs) out).
Proof.
  intros Hl. unfold FixPnpm.fix_workflow_file, bind, read_text, subn.
  cbn [dir]. rewrite Hl.
  destruct (contains (txt "pnpm/action-setup") c); [reflexivity|].
  now destruct (0 <? findall_count FixPnpm.pattern c).
Qed.

(** Whatever a first run of fix-pnpm-workflows.py did to a file, a second
    run leaves the file and the directory as they are. *)
Lemma fix_pnpm_second_run
      (f : name) (c : text) (fs : list (name * text)) (out : list text) :
  lookup f fs = Some c ->
  exists message,
    FixPnpm.fix_workflow_file f
      (snd (FixPnpm.fix_workflow_file f (World (Some fs) out))) =
    (Ret (false, message),
     snd (FixPnpm.fix_workflow_file f (World (Some fs) out))).
Proof.
  intros Hl. rewrite (fix_pnpm_file f c fs out Hl).
  destruct (contains (txt "pnpm/action-setup") c) eqn:Ec.
  - cbn [snd]. rewrite (fix_pnpm_file f c fs out Hl), Ec. now eexists.
  - destruct (0 <? findall_count FixPnpm.pattern c) eqn:En; cbn [snd].
    + apply Nat.ltb_lt in En.
      rewrite (fix_pnpm_file f _ _ out (lookup_store_same f _ fs)).
      rewrite (subn_marks c En). now eexists.
    + rewrite (fix_pnpm_file f c fs out Hl), Ec, En. now eexists.
Qed.

(** ** What a replacement cannot create *)

Section Rewrites.

(** the matcher replaces occurrences of [a], perhaps not all, by [b] *)
Variable m : text -> option (nat * text).
Variables a b : text.
Hypothesis m_rewrites :
  forall s n out, m s = Some (n, out) ->
                  n = length a /\ out = b /\ starts_with a s = true.
Hypothesis a_not_empty : a <> [].

Lemma rewrites_proper (s : text) (n : nat) (out : text) :
  m s = Some (n, out) -> 0 < n <= length s.
Proof.
  intros H. destruct (m_rewrites s n out H) as (-> & _ & Ha).
  apply starts_with_iff in Ha as [r ->]. rewrite length_app.
  destruct a; [congruence | simpl; lia].
Qed.

Lemma rewrites_hit (s : text) (n : nat) (out : text) :
  m s = Some (n, out) ->
  exists r, s = a ++ r /\ scan m 0 s = b ++ scan m 0 r.
Proof.
  intros H. destruct (m_rewrites s n out H) as (-> & -> & Ha).
  apply starts_with_iff in Ha as [r ->]. exists r. split; [reflexivity|].
  now apply scan_hit.
Qed.

(** A text that neither [a] nor [b] can touch starts the result exactly
    when it starts the input. *)
Lemma scan_keeps_start (p s : text) :
  apart a p = true -> apart b p = true ->
  starts_with p (scan m 0 s) = starts_with p s.
Proof.
  revert s. induction p as [|x p IH]; intros s Ha Hb; [reflexivity|].
  simpl in Ha, Hb.
  apply andb_true_iff in Ha as [Ca Ha], Hb as [Cb Hb].
  destruct (m s) as [[n out]|] eqn:E.
  - destruct (rewrites_hit s n out E) as (r & -> & ->).
    rewrite clash_sym in Ca, Cb.
    now rewrite (clash_starts _ _ _ Ca), (clash_starts _ _ _ Cb).
  - destruct s as [|c s]; [simpl; now rewrite E|].
    rewrite scan_miss by exact E. simpl. now rewrite IH.
Qed.

(** A text that cannot overlap [a] or [b] and is absent stays absent. *)
Lemma scan_keeps_absent (k s : text) :
  k <> [] ->
  apart a (tl k) = true -> apart b (tl k) = true -> apart k b = true ->
  contains k s = false -> contains k (scan m 0 s) = false.
Proof.
  intros Hk Ka Kb Bk.
  apply (scan_induction m rewrites_proper
           (fun s o => o = scan m 0 s /\
                       (contains k s = false -> contains k o = false))).
  - split; [|trivial]. simpl. destruct (m []) as [[n out]|] eqn:E;
      [|reflexivity].
    apply rewrites_proper in E. simpl in E. lia.
  - intros c s0 o Hm [-> IH]. split; [now rewrite scan_miss|].
    intros H. apply contains_cons in H as [Hs Hc]. simpl.
    rewrite (IH Hc), orb_false_r. rewrite <- Hs.
    apply starts_with_cons_eq; [|exact Hk].
    now apply scan_keeps_start.
  - intros u s0 out o Hu Hm [-> IH].
    destruct (m_rewrites _ _ _ Hm) as (L & -> & Ha).
    split; [symmetry; now apply scan_hit|].
    intros H. apply apart_absent; [exact Bk|]. apply IH.
    rewrite <- (skipn_exact u s0). now apply contains_skipn.
Qed.

(** Where the scan changes nothing, there was nothing to replace. *)
Lemma scan_fixed_no_match (s : text) :
  clash a b = true -> scan m 0 s = s -> forall n, m (skipn n s) = None.
Proof.
  intros Hc. induction s as [|c s IH]; intros H n.
  - destruct n; simpl; destruct (m []) as [[e out]|] eqn:E; try reflexivity;
      apply rewrites_proper in E; simpl in E; lia.
  - destruct (m (c :: s)) as [[e out]|] eqn:E.
    + exfalso. destruct (rewrites_hit _ _ _ E) as (r & Es & Eo).
      rewrite Eo, Es in H.
      assert (S : starts_with b (a ++ r) = true)
        by (rewrite <- H; apply starts_with_app).
      rewrite clash_sym in Hc.
      now rewrite (clash_starts b a r Hc) in S.
    + rewrite scan_miss in H by exact E. injection H as H.
      destruct n as [|n]; [exact E|]. simpl. now apply IH.
Qed.

End Rewrites.

(** An absent text stays absent when a block it cannot overlap is put in. *)
Lemma absent_insert (k p s q : text) :
  k <> [] ->
  apart s (tl k) = true -> apart k s = true ->
  contains k p = false -> contains k q = false ->
  contains k (p ++ s ++ q) = false.
Proof.
  intros Hk Sk Ks Hp Hq.
  induction p as [|c p IH].
  - simpl. apply apart_absent; assumption.
  - apply contains_cons in Hp as [Hs Hp]. simpl app.
    cbn [contains]. rewrite (IH Hp), orb_false_r.
    destruct (starts_with k (c :: p ++ s ++ q)) eqn:E; [|reflexivity].
    change (c :: p ++ s ++ q) with ((c :: p) ++ s ++ q) in E.
    apply starts_with_app_cases in E as [[u2 Eu]|(a2 & Ea & Hn & Ha)].
    + rewrite Eu, starts_with_app in Hs. discriminate.
    + destruct k as [|x k]; [congruence|]. injection Ea as -> ->.
      simpl in Sk. apply apart_suffix in Sk; [|exact Hn].
      rewrite clash_sym in Sk.
      now rewrite (clash_starts a2 s q Sk) in Ha.
Qed.

(** A block that [a] cannot overlap, put into a text without [a$], brings
    no [a$]. *)
Lemma insert_no_line_end (a s q : text) (repl : text -> text) :
  apart a s = true -> apart s (tl a) = true -> at_eol s = false ->
  forall p,
    (forall n, regex_match (at_line_end a) repl (skipn n (p ++ q)) = None) ->
    forall n, regex_match (at_line_end a) repl (skipn n (p ++ s ++ q)) = None.
Proof.
  intros As Sa Hs. induction p as [|c p IH]; intros H n.
  - simpl app. destruct (Nat.lt_ge_cases n (length s)) as [L|L].
    + rewrite skipn_app. replace (n - length s) with 0 by lia. simpl skipn.
      rewrite at_line_end_match. now rewrite apart_skipn.
    + rewrite skipn_app, (skipn_all2 s) by exact L. apply (H (n - length s)).
  - destruct n as [|n]; [|apply IH; intros k; apply (H (S k))].
    pose proof (H 0) as H0. cbn [skipn] in *.
    rewrite at_line_end_match in *.
    destruct (starts_with a ((c :: p) ++ s ++ q)) eqn:E; [|reflexivity].
    apply starts_with_app_cases in E as [[x2 Ex]|(a2 & Ea & Hn & Ha)].
    + rewrite Ex in *. rewrite <- app_assoc in *.
      rewrite starts_with_app, skipn_exact in *. cbn [andb] in *.
      destruct x2 as [|d x2]; [|exact H0].
      destruct s; [discriminate | now simpl in *; rewrite Hs].
    + rewrite Ea in Sa. simpl in Sa.
      apply apart_suffix in Sa; [|exact Hn]. rewrite clash_sym in Sa.
      now rewrite (clash_starts a2 s q Sa) in Ha.
Qed.

Lemma contains_firstn (k s : text) (n : nat) :
  contains k s = false -> contains k (firstn n s) = false.
Proof.
  intros H. destruct (contains k (firstn n s)) eqn:E; [|reflexivity].
  apply contains_iff in E as (u & v & E).
  rewrite <- H. symmetry. apply contains_iff.
  exists u, (v ++ skipn n s).
  now rewrite <- (firstn_skipn n s) at 1; rewrite E, <- !app_assoc.
Qed.

(** ** The rule set of fix-github-workflows.py is idempotent on the text *)

Lemma fix_line_one_line (l : text) :
  no_line_feed l -> no_line_feed (fix_line l).
Proof.
  intros H. rewrite <- fix_line_swaps.
  apply swap_suffix_one_line; [reflexivity|].
  apply swap_suffix_one_line; [reflexivity | exact H].
Qed.

Lemma fix_line_settled (l : text) :
  ends_with (txt "run: npm ci") (fix_line l) = false /\
  ends_with (txt "run: npm install") (fix_line l) = false.
Proof.
  unfold fix_line.
  destruct (ends_with (txt "run: npm ci") l) eqn:E1.
  - unfold ends_with. now rewrite rev_app_distr.
  - destruct (ends_with (txt "run: npm install") l) eqn:E2.
    + unfold ends_with. now rewrite rev_app_distr.
    + now split.
Qed.

Lemma swap_suffix_none (a b l : text) :
  ends_with a l = false -> swap_suffix a b l = l.
Proof. intros H. unfold swap_suffix. now rewrite H. Qed.

Lemma lines_settled (a b : text) (ls : list text) :
  a <> [] -> no_line_feed a -> ls <> [] -> Forall no_line_feed ls ->
  (forall l, In l ls -> ends_with a l = false) ->
  sub (at_line_end a) (fun _ => b) (unlines ls) = unlines ls.
Proof.
  intros Ha Na Hn Hl He. rewrite sub_at_line_end by assumption.
  rewrite lines_unlines by assumption. f_equal.
  rewrite <- (map_id ls) at 2. apply map_ext_in.
  intros l Hin. now apply swap_suffix_none, He.
Qed.

Lemma at_line_end_rewrites (a b : text) (s : text) (n : nat) (out : text) :
  regex_match (at_line_end a) (fun _ => b) s = Some (n, out) ->
  n = length a /\ out = b /\ starts_with a s = true.
Proof.
  rewrite at_line_end_match.
  destruct (starts_with a s); [|discriminate]. simpl.
  destruct (at_eol _); [|discriminate]. now intros [= <- <-].
Qed.

Section Settled.

Variable z : text.
Let c := FixGithub.rule3 (FixGithub.rule2 z).
Hypothesis z_no_cache : contains (txt "cache: 'npm'") z = false.

Lemma settled_lines :
  c = unlines (map fix_line (lines z)) /\
  map fix_line (lines z) <> [] /\
  Forall no_line_feed (map fix_line (lines z)).
Proof.
  split; [apply npm_rewrite_lines|]. split.
  - pose proof (lines_not_nil z). now destruct (lines z).
  - apply Forall_map. eapply Forall_impl; [|apply lines_no_line_feed].
    exact fix_line_one_line.
Qed.

Lemma settled_rule2 : FixGithub.rule2 c = c.
Proof.
  destruct settled_lines as (E & Hn & Hl). rewrite E.
  apply (lines_settled (txt "run: npm ci")); try assumption;
    [discriminate | reflexivity|].
  intros l Hin. apply in_map_iff in Hin as (l0 & <- & _).
  apply fix_line_settled.
Qed.

Lemma settled_rule3 : FixGithub.rule3 c = c.
Proof.
  destruct settled_lines as (E & Hn & Hl). rewrite E.
  apply (lines_settled (txt "run: npm install")); try assumption;
    [discriminate | reflexivity|].
  intros l Hin. apply in_map_iff in Hin as (l0 & <- & _).
  apply fix_line_settled.
Qed.

Lemma settled_no_cache : contains (txt "cache: 'npm'") c = false.
Proof.
  unfold c, FixGithub.rule3, FixGithub.rule2.
  change FixGithub.npm_ci with (at_line_end (txt "run: npm ci")).
  change FixGithub.npm_install with (at_line_end (txt "run: npm install")).
  apply (scan_keeps_absent _ (txt "run: npm install")
           (txt "run: pnpm install"));
    try reflexivity; try discriminate.
  { apply at_line_end_rewrites. }
  apply (scan_keeps_absent _ (txt "run: npm ci")
           (txt "run: pnpm install --frozen-lockfile"));
    try reflexivity; try discriminate; [|exact z_no_cache].
  apply at_line_end_rewrites.
Qed.

Lemma settled_rewrite (modified : bool) :
  fst (FixGithub.rewrite_npm c modified) = c.
Proof.
  rewrite rewrite_npm_text, (rule1_absent c settled_no_cache).
  now rewrite settled_rule2, settled_rule3.
Qed.

End Settled.

Lemma line_end_rule_fixed (a b c : text) :
  a <> [] -> clash a b = true ->
  sub (at_line_end a) (fun _ => b) c = c ->
  forall n, regex_match (at_line_end a) (fun _ => b) (skipn n c) = None.
Proof.
  intros Ha Hc H.
  apply (scan_fixed_no_match _ a b); try assumption.
  apply at_line_end_rewrites.
Qed.

Lemma inserted_settled (c : text) (pos : nat) (modified : bool) :
  contains (txt "cache: 'npm'") c = false ->
  FixGithub.rule2 c = c -> FixGithub.rule3 c = c ->
  fst (FixGithub.rewrite_npm
         (firstn pos c ++ FixGithub.PNPM_SETUP ++ skipn pos c) modified)
  = firstn pos c ++ FixGithub.PNPM_SETUP ++ skipn pos c /\
  FixGithub.has_pnpm_setup
    (firstn pos c ++ FixGithub.PNPM_SETUP ++ skipn pos c) = true.
Proof.
  intros H1 H2 H3. set (y := firstn pos c ++ _). split.
  - rewrite rewrite_npm_text.
    assert (E1 : FixGithub.rule1 y = y).
    { apply rule1_absent. apply absent_insert;
        try reflexivity; try discriminate;
        [now apply contains_firstn | now apply contains_skipn]. }
    assert (E2 : FixGithub.rule2 y = y).
    { apply scan_nothing.
      apply (insert_no_line_end (txt "run: npm ci")); try reflexivity.
      rewrite firstn_skipn.
      apply line_end_rule_fixed; [discriminate | reflexivity | exact H2]. }
    assert (E3 : FixGithub.rule3 y = y).
    { apply scan_nothing.
      apply (insert_no_line_end (txt "run: npm install")); try reflexivity.
      rewrite firstn_skipn.
      apply line_end_rule_fixed; [discriminate | reflexivity | exact H3]. }
    now rewrite E1, E2, E3.
  - apply contains_iff.
    exists (firstn pos c ++ txt "      - name: Install pnpm" ++ [NL] ++
            txt "        uses: "),
           (txt "@v4" ++ [NL] ++ txt "        with:" ++ [NL] ++
            txt "          version: 9" ++ [NL] ++ [NL] ++ skipn pos c).
    unfold y, FixGithub.PNPM_SETUP. now rewrite <- !app_assoc.
Qed.

(** A second application of the rules of fix-github-workflows.py to a
    text leaves it as the first application left it. *)
Lemma fix_github_text_idempotent (s : text) :
  fix_github_text (fix_github_text s) = fix_github_text s.
Proof.
  destruct (FixGithub.needs_pnpm_setup s) eqn:En;
    [|unfold fix_github_text; now rewrite !En].
  set (z := FixGithub.rule1 s).
  set (c := FixGithub.rule3 (FixGithub.rule2 z)).
  assert (E : fix_github_text s =
              if FixGithub.has_pnpm_setup c then c else insert_setup c).
  { unfold fix_github_text. now rewrite En, rewrite_npm_text. }
  assert (Hz : contains (txt "cache: 'npm'") z = false).
  { apply occurrences_none.
    apply replace_counts; (discriminate || reflexivity). }
  pose proof (settled_no_cache z Hz) as C1.
  pose proof (settled_rule2 z) as C2.
  pose proof (settled_rule3 z) as C3.
  fold c in C1, C2, C3.
  assert (Hc : forall m, fst (FixGithub.rewrite_npm c m) = c)
    by (intros m; apply (settled_rewrite z Hz)).
  rewrite E. clear E.
  destruct (FixGithub.has_pnpm_setup c) eqn:Em.
  - unfold fix_github_text.
    destruct (FixGithub.needs_pnpm_setup c); [|reflexivity].
    cbv zeta. now rewrite Hc, Em.
  - unfold insert_setup.
    destruct (search FixGithub.setup_node c) as [pos|] eqn:Es.
    + destruct (inserted_settled c pos false C1 C2 C3) as [Ey Hy].
      unfold fix_github_text.
      destruct (FixGithub.needs_pnpm_setup
                  (firstn pos c ++ FixGithub.PNPM_SETUP ++ skipn pos c));
        [|reflexivity].
      cbv zeta. now rewrite Ey, Hy.
    + unfold fix_github_text.
      destruct (FixGithub.needs_pnpm_setup c); [|reflexivity].
      cbv zeta. rewrite Hc, Em. unfold insert_setup. now rewrite Es.
Qed.

Lemma rewrite_npm_unmodified (s : text) :
  snd (FixGithub.rewrite_npm s false) = false ->
  fst (FixGithub.rewrite_npm s false) = s.
Proof.
  unfold FixGithub.rewrite_npm.
  destruct (contains (txt "cache: 'npm'") s);
    (destruct (contains (txt "run: npm ci") _));
    (destruct (found FixGithub.npm_install _));
    simpl; congruence.
Qed.

(** What [fix_workflow] writes is the text of [fix_github_text]; where it
    reports no modification, that text is the text it read. *)
Lemma fix_workflow_text
      (f : name) (s : text) (fs : list (name * text)) (out : list text) :
  lookup f fs = Some s ->
  exists modified out',
    FixGithub.fix_workflow f (World (Some fs) out) =
    (Ret modified,
     World (Some (if modified : bool
                  then store f (fix_github_text s)
                         (store (FixGithub.backup_path f) s fs)
                  else fs)) out') /\
    (modified = false -> fix_github_text s = s).
Proof.
  intros Hl. unfold FixGithub.fix_workflow, bind, read_text, fix_github_text.
  cbn [dir]. rewrite Hl.
  destruct (FixGithub.needs_pnpm_setup s); cbn [negb];
    [|exists false, out; now split].
  pose proof (rewrite_npm_unmodified s) as Hu.
  destruct (FixGithub.rewrite_npm s false) as [c modified]. cbn [fst snd] in *.
  destruct (FixGithub.has_pnpm_setup c); cbn [negb].
  - exists modified, out. destruct modified; split;
      try reflexivity; try discriminate. exact Hu.
  - unfold FixGithub.add_pnpm_setup, insert_setup.
    destruct (search FixGithub.setup_node c).
    + exists true, out. split; [reflexivity | discriminate].
    + eexists true, _. split; [reflexivity | discriminate].
Qed.

(** * More properties of the scripts *)

(** ** Discovery of the workflow files *)

Lemma select_loop (marker : text) (fs : list (name * text)) (out : list text)
      (files acc : list name) :
  (forall n, In n files -> lookup n fs <> None) ->
  for_in files
    (fun file acc =>
       content <- read_text file ;;
       if contains marker content then ret (acc ++ [file]) else ret acc)
    acc (World (Some fs) out) =
  (Ret (acc ++
        filter (fun n => match lookup n fs with
                         | Some c => contains marker c
                         | None => false
                         end) files),
   World (Some fs) out).
Proof.
  revert acc. induction files as [|f files IH]; intros acc H.
  - simpl. unfold ret. now rewrite app_nil_r.
  - cbn [for_in filter].
    destruct (lookup f fs) as [c|] eqn:E; [|now destruct (H f (or_introl eq_refl))].
    rewrite (run_bind _ _ _ (World (Some fs) out)
               (if contains marker c then acc ++ [f] else acc)); cycle 1.
    { erewrite run_bind
        by (unfold read_text; cbn [dir]; rewrite E; reflexivity).
      destruct (contains marker c); reflexivity. }
    rewrite IH by (intros n Hn; apply H; now right).
    destruct (contains marker c); [|reflexivity].
    now rewrite <- app_assoc.
Qed.

Lemma yml_names_present (fs : list (name * text)) (n : name) :
  In n (yml_names fs) -> lookup n fs <> None.
Proof.
  unfold yml_names. rewrite filter_In. intros [H _]. now apply lookup_in.
Qed.

Lemma update_find (fs : list (name * text)) (out : list text) :
  UpdateVersion.find_workflow_files (World (Some fs) out) =
  (Ret (marked_files (txt "pnpm/action-setup") fs), World (Some fs) out).
Proof.
  unfold UpdateVersion.find_workflow_files.
  erewrite run_bind by reflexivity.
  apply (select_loop _ fs out (yml_names fs) []), yml_names_present.
Qed.

Lemma fix_pnpm_find (fs : list (name * text)) (out : list text) :
  FixPnpm.find_workflow_files (World (Some fs) out) =
  (Ret (marked_files (txt "cache: 'pnpm'") fs), World (Some fs) out).
Proof.
  unfold FixPnpm.find_workflow_files.
  erewrite run_bind by reflexivity.
  apply (select_loop _ fs out (yml_names fs) []), yml_names_present.
Qed.

(** X1.  Both [find_workflow_files] return, in listing order, exactly the
    [*.yml] files whose text contains the marker: [pnpm/action-setup] in
    update-pnpm-version.py, [cache: 'pnpm'] in fix-pnpm-workflows.py.  They
    read every file, change nothing and print nothing; over a missing
    directory they return no file. *)
Theorem X1_find_workflow_files_selects
        (fs : list (name * text)) (out : list text) :
  UpdateVersion.find_workflow_files (World (Some fs) out) =
    (Ret (marked_files (txt "pnpm/action-setup") fs), World (Some fs) out) /\
  FixPnpm.find_workflow_files (World (Some fs) out) =
    (Ret (marked_files (txt "cache: 'pnpm'") fs), World (Some fs) out) /\
  UpdateVersion.find_workflow_files (World None out) =
    (Ret [], World None out) /\
  FixPnpm.find_workflow_files (World None out) = (Ret [], World None out).
Proof.
  split; [apply update_find|]. split; [apply fix_pnpm_find|].
  split; reflexivity.
Qed.

(** ** update-pnpm-version.py *)

(** *** Matches and counts *)

Lemma regex_match_none (r : regex) (repl : text -> text) (s : text) :
  regex_match r repl s = None <-> match_here r s = None.
Proof.
  unfold regex_match. destruct (match_here r s) as [[e g]|]; split;
    congruence.
Qed.

Lemma scan_count_zero (m : text -> option (nat * text)) (s : text) :
  scan_count m 0 s = 0 -> forall n, m (skipn n s) = None.
Proof.
  induction s as [|c s IH]; intros H n.
  - rewrite skipn_nil. simpl in H.
    destruct (m []) as [[k out]|]; [discriminate|reflexivity].
  - cbn [scan_count] in H.
    destruct (m (c :: s)) as [[k out]|] eqn:E; [discriminate|].
    destruct n as [|n]; [exact E|]. simpl. now apply IH.
Qed.

Lemma found_counted (r : regex) (s : text) :
  found r s = (0 <? findall_count r s).
Proof.
  destruct (found r s) eqn:F; symmetry.
  - apply Nat.ltb_lt.
    destruct (findall_count r s) eqn:Z; [|lia]. exfalso.
    apply found_true in F as [n Hn]. apply Hn.
    apply (regex_match_none r (fun g => g)).
    now apply scan_count_zero.
  - apply Nat.ltb_ge. unfold findall_count.
    rewrite scan_count_nothing; [lia|].
    intros n. apply regex_match_none. now apply found_false.
Qed.

(** A version rule that leaves a text as it is found nothing in it. *)
Lemma bump_scan_fixed (anchor : text -> Prop) (t : char) (r : regex) :
  consuming r ->
  (forall s e g,
      match_here r s = Some (e, g) ->
      exists w ws rest,
        version_window anchor w /\ whitespace ws /\
        s = w ++ ws ++ t :: rest /\
        g = length w /\ e = length (w ++ ws ++ [t])) ->
  is_space t = false -> N.eqb (chr "1") t = false ->
  forall s, sub r (fun g1 => g1 ++ txt " 10") s = s -> found r s = false.
Proof.
  intros Hc Hinv Ts T1 s H.
  destruct (found r s) eqn:F; [|reflexivity]. exfalso.
  apply found_true in F as [n Hn]. apply Hn. clear Hn.
  apply (regex_match_none r (fun g1 => g1 ++ txt " 10")).
  revert n. unfold sub in H.
  induction s as [|c s IH]; intros n.
  - rewrite skipn_nil.
    destruct (regex_match r _ []) as [[e out]|] eqn:E; [|reflexivity].
    apply (regex_match_proper r _ Hc) in E. simpl in E. lia.
  - destruct (regex_match r (fun g1 => g1 ++ txt " 10") (c :: s))
      as [[e out]|] eqn:E.
    + exfalso. unfold regex_match in E.
      destruct (match_here r (c :: s)) as [[e' g]|] eqn:M; [|discriminate].
      injection E as <- <-.
      destruct (Hinv _ _ _ M) as (w & ws & rest & Hw & Hws & Es & -> & ->).
      rewrite Es in H, M.
      assert (Hu : w ++ ws ++ [t] <> [])
        by (destruct w; [destruct ws|]; discriminate).
      assert (Em : regex_match r (fun g1 => g1 ++ txt " 10")
                     ((w ++ ws ++ [t]) ++ rest)
                   = Some (length (w ++ ws ++ [t]), w ++ txt " 10")).
      { unfold regex_match. rewrite <- !app_assoc. cbn [app].
        rewrite M. now rewrite firstn_exact. }
      replace (w ++ ws ++ t :: rest) with ((w ++ ws ++ [t]) ++ rest) in H
        by now rewrite <- !app_assoc.
      rewrite (scan_hit _ _ _ _ Hu Em) in H.
      rewrite <- !app_assoc in H. apply app_inv_head in H.
      destruct ws as [|x ws].
      * injection H as Ht _. subst t. discriminate.
      * injection H as Hx H. destruct ws as [|y ws].
        -- injection H as Ht _. subst t. discriminate.
        -- injection H as Hy _. subst y.
           unfold whitespace in Hws. simpl in Hws.
           rewrite andb_false_r in Hws. discriminate.
    + rewrite scan_miss in H by exact E. injection H as H.
      destruct n as [|n]; [exact E|]. simpl. now apply IH.
Qed.

Lemma update_fixed_found (s : text) :
  text_eqb (UpdateVersion.new_content s) s =
  negb (found UpdateVersion.pattern s).
Proof.
  destruct (found UpdateVersion.pattern s) eqn:F; cbn [negb].
  - apply text_eqb_neq. intros H.
    apply (bump_scan_fixed setup_v2 (chr "8")) in H;
      [congruence|exact I|exact update_pattern_inv|reflexivity|reflexivity].
  - apply text_eqb_eq. now apply sub_not_found.
Qed.

Lemma update_settled (s : text) :
  found UpdateVersion.pattern (UpdateVersion.new_content s) = false.
Proof.
  apply (bump_scan_fixed setup_v2 (chr "8"));
    [exact I|exact update_pattern_inv|reflexivity|reflexivity|].
  apply new_content_idempotent.
Qed.

Lemma update_file
      (f : name) (c : text) (fs : list (name * text)) (out : list text) :
  lookup f fs = Some c ->
  UpdateVersion.update_pnpm_version f (World (Some fs) out) =
  if found UpdateVersion.pattern c
  then (Ret (true,
             txt "Updated pnpm version 8 " ++ [8594%N] ++ txt " 10 (" ++
             str_of_nat (findall_count UpdateVersion.pattern c) ++
             txt " locations)"),
        World (Some (store f (UpdateVersion.new_content c) fs)) out)
  else (Ret (false,
             txt "No version 8 found (already updated or different version)"),
        World (Some fs) out).
Proof.
  intros Hl. unfold UpdateVersion.update_pnpm_version.
  erewrite run_bind
    by (unfold read_text; cbn [dir]; rewrite Hl; reflexivity).
  rewrite update_fixed_found, negb_involutive.
  destruct (found UpdateVersion.pattern c); reflexivity.
Qed.

(** X2.  [update_pnpm_version] writes the file exactly when its pattern
    matches somewhere in the text it read.  Then it returns [True], the
    file holds the new content and the count in the message is at least
    one.  Otherwise it returns [False] with the message
    [No version 8 found ...], writes nothing, and the rule would have left
    the text as it is. *)
Theorem X2_update_writes_iff_found
        (f : name) (c : text) (fs : list (name * text)) (out : list text) :
  lookup f fs = Some c ->
  UpdateVersion.update_pnpm_version f (World (Some fs) out) =
  (if found UpdateVersion.pattern c
   then (Ret (true,
              txt "Updated pnpm version 8 " ++ [8594%N] ++ txt " 10 (" ++
              str_of_nat (findall_count UpdateVersion.pattern c) ++
              txt " locations)"),
         World (Some (store f (UpdateVersion.new_content c) fs)) out)
   else (Ret (false,
              txt "No version 8 found (already updated or different version)"),
         World (Some fs) out)) /\
  (found UpdateVersion.pattern c = true ->
   0 < findall_count UpdateVersion.pattern c /\
   UpdateVersion.new_content c <> c) /\
  (found UpdateVersion.pattern c = false ->
   UpdateVersion.new_content c = c).
Proof.
  intros Hl. split; [now apply update_file|]. split.
  - intros F. split.
    + rewrite found_counted in F. now apply Nat.ltb_lt.
    + apply text_eqb_neq. now rewrite update_fixed_found, F.
  - apply sub_not_found.
Qed.

Lemma X2_update_writes_iff_found_witness :
  UpdateVersion.update_pnpm_version (txt "ci.yml")
    (World (Some [(txt "ci.yml",
                   txt "uses: pnpm/action-setup@v2 with: version: 8")]) [])
  = (Ret (true,
          txt "Updated pnpm version 8 " ++ [8594%N] ++
          txt " 10 (1 locations)"),
     World (Some [(txt "ci.yml",
                   txt "uses: pnpm/action-setup@v2 with: version: 10")]) []).
Proof.
  exact (proj1 (X2_update_writes_iff_found (txt "ci.yml")
                  (txt "uses: pnpm/action-setup@v2 with: version: 8")
                  [(txt "ci.yml",
                    txt "uses: pnpm/action-setup@v2 with: version: 8")] []
                  eq_refl)).
Defined.

(** X3.  What [update_pnpm_version] leaves in a file has no place left
    where its pattern matches: the file holds the new content, and a
    second call on it returns [False] with the message
    [No version 8 found ...] and writes nothing. *)
Theorem X3_update_leaves_nothing_to_update
        (f : name) (c : text) (fs : list (name * text)) (out : list text) :
  lookup f fs = Some c ->
  found UpdateVersion.pattern (UpdateVersion.new_content c) = false /\
  let w1 := snd (UpdateVersion.update_pnpm_version f (World (Some fs) out)) in
  holds f (UpdateVersion.new_content c) w1 /\
  UpdateVersion.update_pnpm_version f w1 =
  (Ret (false,
        txt "No version 8 found (already updated or different version)"),
   w1).
Proof.
  intros Hl. split; [apply update_settled|].
  cbv zeta. rewrite (update_file f c fs out Hl).
  destruct (found UpdateVersion.pattern c) eqn:F; cbn [snd].
  - split.
    + exists (store f (UpdateVersion.new_content c) fs). split;
        [reflexivity | apply lookup_store_same].
    + rewrite (update_file f _ _ out (lookup_store_same f _ fs)).
      now rewrite update_settled.
  - rewrite (sub_not_found _ _ _ F : UpdateVersion.new_content c = c).
    split.
    + exists fs. now split.
    + now rewrite (update_file f c fs out Hl), F.
Qed.

Lemma X3_update_leaves_nothing_to_update_witness :
  found UpdateVersion.pattern
    (UpdateVersion.new_content
       (txt "uses: pnpm/action-setup@v2 with: version: 8")) = false /\
  let w1 :=
    snd (UpdateVersion.update_pnpm_version (txt "ci.yml")
           (World (Some [(txt "ci.yml",
                          txt "uses: pnpm/action-setup@v2 with: version: 8")])
                  [])) in
  holds (txt "ci.yml")
    (UpdateVersion.new_content
       (txt "uses: pnpm/action-setup@v2 with: version: 8")) w1 /\
  UpdateVersion.update_pnpm_version (txt "ci.yml") w1 =
  (Ret (false,
        txt "No version 8 found (already updated or different version)"),
   w1).
Proof.
  exact (X3_update_leaves_nothing_to_update (txt "ci.yml")
           (txt "uses: pnpm/action-setup@v2 with: version: 8")
           [(txt "ci.yml",
             txt "uses: pnpm/action-setup@v2 with: version: 8")] []
           eq_refl).
Defined.

(** ** fix-all-pnpm-workflows.py *)

Lemma contains_nowhere (p s : text) :
  (forall n, starts_with p (skipn n s) = false) -> contains p s = false.
Proof.
  induction s as [|c s IH]; intros H.
  - cbn [contains]. rewrite (H 0 : starts_with p [] = false). reflexivity.
  - cbn [contains]. rewrite (H 0 : starts_with p (c :: s) = false).
    apply IH. intros n. exact (H (S n)).
Qed.

Lemma found_literal (a s : text) : found (map Chr a) s = contains a s.
Proof.
  destruct (found (map Chr a) s) eqn:F; symmetry.
  - apply found_true in F as [n Hn]. rewrite match_here_lit in Hn.
    destruct (contains a s) eqn:C; [reflexivity|].
    now rewrite (contains_no_start a s n C) in Hn.
  - apply contains_nowhere. intros n.
    pose proof (found_false _ _ F n) as H. rewrite match_here_lit in H.
    now destruct (starts_with a (skipn n s)).
Qed.

(** *** What step 1 leaves for step 2 *)

Lemma alike_class (p : char -> bool) (x y : char) :
  Bool.eqb (p (chr "4")) (p (chr "2")) = true -> alike x y -> p x = p y.
Proof.
  intros H [->|[-> ->]]; [reflexivity|]. now apply eqb_prop.
Qed.

Lemma alike_chr (c x y : char) :
  negb (N.eqb c (chr "4")) && negb (N.eqb c (chr "2")) = true ->
  alike x y -> N.eqb x c = N.eqb y c.
Proof.
  intros H [->|[-> ->]]; [reflexivity|].
  apply andb_prop in H as [H4 H2].
  apply negb_true_iff in H4, H2.
  rewrite N.eqb_sym in H4. rewrite N.eqb_sym in H2. now rewrite H4, H2.
Qed.

Lemma greedy_alike (p : char -> bool)
      (k k' : nat -> text -> option (nat * nat)) :
  Bool.eqb (p (chr "4")) (p (chr "2")) = true ->
  (forall off s s', Forall2 alike s s' -> k off s = k' off s') ->
  forall s s', Forall2 alike s s' ->
  forall off, greedy p k off s = greedy p k' off s'.
Proof.
  intros Hp Hk s s' H. induction H as [|x y s s' Hxy H IH]; intros off.
  - simpl. apply Hk. constructor.
  - cbn [greedy]. rewrite <- (alike_class p x y Hp Hxy).
    rewrite IH.
    rewrite (Hk off (x :: s) (y :: s')) by now constructor.
    reflexivity.
Qed.

Lemma match_from_alike (r : regex) :
  forallb blind r = true ->
  forall s s', Forall2 alike s s' ->
  forall off g, match_from r off g s = match_from r off g s'.
Proof.
  induction r as [|a r IH]; intros Hb s s' H off g; [reflexivity|].
  cbn [forallb] in Hb. apply andb_prop in Hb as [Ha Hr].
  specialize (IH Hr).
  destruct a as [c|p|p|p| |]; cbn [match_from blind] in *.
  - destruct H as [|x y s s' Hxy H]; [reflexivity|].
    rewrite <- (alike_chr c x y Ha Hxy).
    destruct (N.eqb x c); [now apply IH | reflexivity].
  - destruct H as [|x y s s' Hxy H]; [reflexivity|].
    rewrite <- (alike_class p x y Ha Hxy).
    destruct (p x); [now apply IH | reflexivity].
  - apply greedy_alike; [exact Ha| |exact H].
    intros off' t t' Ht. now apply IH.
  - destruct H as [|x y s s' Hxy H]; [reflexivity|].
    rewrite <- (alike_class p x y Ha Hxy).
    destruct (p x); [|reflexivity].
    apply greedy_alike; [exact Ha| |exact H].
    intros off' t t' Ht. now apply IH.
  - destruct H as [|x y s s' Hxy H]; [now apply IH|].
    assert (E : N.eqb x NL = N.eqb y NL)
      by (destruct Hxy as [->|[-> ->]]; reflexivity).
    rewrite <- E. destruct (N.eqb x NL); [|reflexivity].
    apply IH. now constructor.
  - now apply IH.
Qed.

Lemma scan_count_alike (r : regex) :
  forallb blind r = true ->
  forall s s', Forall2 alike s s' ->
  forall k,
    scan_count (regex_match r (fun g => g)) k s =
    scan_count (regex_match r (fun g => g)) k s'.
Proof.
  intros Hb s s' H. induction H as [|x y s s' Hxy H IH]; intros k.
  - reflexivity.
  - destruct k as [|k]; cbn [scan_count]; [|apply IH].
    unfold regex_match, match_here.
    rewrite <- (match_from_alike r Hb (x :: s) (y :: s'))
      by now constructor.
    destruct (match_from r 0 0 (x :: s)) as [[e g]|]; now rewrite IH.
Qed.

Lemma search_alike (r : regex) :
  forallb blind r = true ->
  forall s s', Forall2 alike s s' -> search r s = search r s'.
Proof.
  intros Hb s s' H. induction H as [|x y s s' Hxy H IH].
  - reflexivity.
  - cbn [search]. unfold match_here.
    rewrite <- (match_from_alike r Hb (x :: s) (y :: s'))
      by now constructor.
    now rewrite IH.
Qed.

Lemma fix1_alike (s : text) : Forall2 alike s (FixAll.fix1 s).
Proof.
  unfold FixAll.fix1, sub.
  apply (scan_induction
           (regex_match FixAll.pattern1 (fun _ => txt "pnpm/action-setup@v2"))
           (regex_match_proper FixAll.pattern1 _ I)
           (Forall2 alike)).
  - constructor.
  - intros c t o _ H. constructor; [now left | exact H].
  - intros u t out o Hu Hm H.
    unfold regex_match in Hm.
    change FixAll.pattern1 with (map Chr (txt "pnpm/action-setup@v4")) in Hm.
    rewrite match_here_lit in Hm.
    destruct (starts_with (txt "pnpm/action-setup@v4") (u ++ t)) eqn:E;
      [|discriminate].
    injection Hm as L <-.
    apply starts_with_iff in E as [rest E].
    apply app_same_length in E as [-> _]; [|now symmetry].
    apply Forall2_app; [|exact H].
    repeat (constructor; [now left|]).
    constructor; [right; now split | constructor].
Qed.

Lemma pattern2_after_fix1 (s : text) :
  findall_count FixAll.pattern2 (FixAll.fix1 s) =
    findall_count FixAll.pattern2 s /\
  found FixAll.pattern2 (FixAll.fix1 s) = found FixAll.pattern2 s.
Proof.
  split.
  - symmetry. apply scan_count_alike; [reflexivity | apply fix1_alike].
  - unfold found.
    now rewrite <- (search_alike FixAll.pattern2 eq_refl s (FixAll.fix1 s)
                      (fix1_alike s)).
Qed.

(** *** Counting occurrences *)

Lemma literal_count (a b : text) :
  a <> [] -> apart a (tl a) = true ->
  forall s, scan_count (literal_match a b) 0 s = occurrences a s.
Proof.
  intros Ha Hb s.
  remember (length s) as k eqn:Hk. revert s Hk.
  induction k as [k IH] using lt_wf_ind. intros s Hk.
  destruct (starts_with a s) eqn:E.
  - apply starts_with_iff in E as [r ->].
    rewrite (scan_count_hit (literal_match a b) a r b Ha)
      by (unfold literal_match; now rewrite starts_with_app).
    rewrite occurrences_self by assumption. f_equal.
    apply (IH (length r)); [|reflexivity].
    rewrite Hk, length_app. destruct a; [congruence|simpl; lia].
  - destruct s as [|c s].
    + simpl. unfold literal_match. rewrite E. simpl.
      destruct a; [congruence|reflexivity].
    + rewrite scan_count_miss by (unfold literal_match; now rewrite E).
      cbn [occurrences]. rewrite E. simpl.
      apply (IH (length s)); [simpl in Hk; lia | reflexivity].
Qed.

Lemma findall_literal (a : text) (s : text) :
  a <> [] -> apart a (tl a) = true ->
  findall_count (map Chr a) s = occurrences a s.
Proof.
  intros Ha Hb. rewrite <- (literal_count a [] Ha Hb).
  unfold findall_count.
  assert (E : forall t, regex_match (map Chr a) (fun g => g) t =
                        literal_match a [] t).
  { intros t. unfold regex_match, literal_match.
    rewrite match_here_lit. now destruct (starts_with a t). }
  generalize 0. induction s as [|c s IH]; intros k.
  - destruct k; simpl; [now rewrite E | reflexivity].
  - destruct k; cbn [scan_count]; [|apply IH].
    rewrite E. destruct (literal_match a [] (c :: s)) as [[n o]|];
      now rewrite IH.
Qed.

(** X5.  The counts in the change messages of fix-all-pnpm-workflows.py
    are exact.  The first is the number of occurrences of
    [pnpm/action-setup@v4] in the file.  The second is counted on the
    text as it was read, but step 1 turns a [4] into a [2] and so neither
    makes nor breaks a match of the second pattern: the count is the
    number of places step 2 rewrites, and step 2 is taken exactly when
    its pattern matches the text as it was read. *)
Theorem X5_fix_all_counts_are_exact (s : text) :
  findall_count FixAll.pattern1 s =
    occurrences (txt "pnpm/action-setup@v4") s /\
  findall_count FixAll.pattern2 s =
    findall_count FixAll.pattern2 (FixAll.fix1 s) /\
  found FixAll.pattern2 (FixAll.fix1 s) = found FixAll.pattern2 s.
Proof.
  split; [|split].
  - apply (findall_literal (txt "pnpm/action-setup@v4"));
      [discriminate | reflexivity].
  - symmetry. apply pattern2_after_fix1.
  - apply pattern2_after_fix1.
Qed.

(** *** When the file is written *)

Lemma fix1_no_v4 (s : text) :
  contains (txt "pnpm/action-setup@v4") (FixAll.fix1 s) = false.
Proof.
  apply occurrences_none. unfold FixAll.fix1.
  change FixAll.pattern1 with (map Chr (txt "pnpm/action-setup@v4")).
  rewrite sub_literal.
  apply replace_counts; (discriminate || reflexivity).
Qed.

Lemma fix2_no_v4 (z : text) :
  contains (txt "pnpm/action-setup@v4") z = false ->
  contains (txt "pnpm/action-setup@v4") (FixAll.fix2 z) = false.
Proof.
  intros Hz.
  destruct (contains _ (FixAll.fix2 z)) eqn:E; [|reflexivity].
  rewrite <- Hz. symmetry.
  apply (edits_contains _ z (FixAll.fix2 z)); try reflexivity; [|exact E].
  apply (bumps_edits setup_any (chr "9")).
  apply bump_scan; [exact I | exact pattern2_inv].
Qed.

Lemma fix_all_no_v4 (s : text) :
  contains (txt "pnpm/action-setup@v4") (fst (FixAll.fix_content s)) = false.
Proof. rewrite fix_content_text. apply fix2_no_v4, fix1_no_v4. Qed.

Lemma fix2_fixed_found (s : text) :
  FixAll.fix2 s = s -> found FixAll.pattern2 s = false.
Proof.
  apply (bump_scan_fixed setup_any (chr "9"));
    [exact I | exact pattern2_inv | reflexivity | reflexivity].
Qed.

Lemma fix_all_fixed_found (s : text) :
  text_eqb (fst (FixAll.fix_content s)) s =
  negb (found FixAll.pattern1 s || found FixAll.pattern2 s).
Proof.
  change FixAll.pattern1 with (map Chr (txt "pnpm/action-setup@v4")).
  rewrite found_literal.
  destruct (contains (txt "pnpm/action-setup@v4") s) eqn:C; cbn [orb negb].
  - apply text_eqb_neq. intros H.
    pose proof (fix_all_no_v4 s) as N. rewrite H in N. congruence.
  - rewrite fix_content_text.
    assert (E1 : FixAll.fix1 s = s).
    { unfold FixAll.fix1.
      change FixAll.pattern1 with (map Chr (txt "pnpm/action-setup@v4")).
      rewrite sub_literal. now apply replace_absent. }
    rewrite E1.
    destruct (found FixAll.pattern2 s) eqn:F; cbn [negb].
    + apply text_eqb_neq. intros H. apply fix2_fixed_found in H. congruence.
    + apply text_eqb_eq. now apply sub_not_found.
Qed.

Lemma fix_all_changes (s : text) :
  snd (FixAll.fix_content s) =
  (if found FixAll.pattern1 s
   then [FixAll.change1 (findall_count FixAll.pattern1 s)] else []) ++
  (if found FixAll.pattern2 s
   then [FixAll.change2 (findall_count FixAll.pattern2 s)] else []).
Proof.
  unfold FixAll.fix_content.
  destruct (found FixAll.pattern1 s) eqn:F1.
  - rewrite (proj2 (pattern2_after_fix1 s)).
    destruct (found FixAll.pattern2 s); reflexivity.
  - destruct (found FixAll.pattern2 s); reflexivity.
Qed.

Lemma fix_all_file
      (f : name) (c : text) (fs : list (name * text)) (out : list text) :
  lookup f fs = Some c ->
  FixAll.fix_workflow_file f (World (Some fs) out) =
  if found FixAll.pattern1 c || found FixAll.pattern2 c
  then (Ret (true, snd (FixAll.fix_content c)),
        World (Some (store f (fst (FixAll.fix_content c)) fs)) out)
  else (Ret (false, []), World (Some fs) out).
Proof.
  intros Hl. rewrite (fix_all_persists_changes f c fs out Hl).
  rewrite fix_all_fixed_found.
  now destruct (found FixAll.pattern1 c || found FixAll.pattern2 c).
Qed.

(** X4.  [fix_workflow_file] of fix-all-pnpm-workflows.py writes the
    file exactly when one of its two patterns matches somewhere in the
    text it read.  Then it returns [True] with a list of changes that is
    not empty, and the text it writes differs from the text it read.
    Otherwise it returns [False] and no change, and writes nothing. *)
Theorem X4_fix_all_writes_iff_found
        (f : name) (c : text) (fs : list (name * text)) (out : list text) :
  lookup f fs = Some c ->
  FixAll.fix_workflow_file f (World (Some fs) out) =
  (if found FixAll.pattern1 c || found FixAll.pattern2 c
   then (Ret (true, snd (FixAll.fix_content c)),
         World (Some (store f (fst (FixAll.fix_content c)) fs)) out)
   else (Ret (false, []), World (Some fs) out)) /\
  (found FixAll.pattern1 c || found FixAll.pattern2 c = true ->
   snd (FixAll.fix_content c) <> [] /\ fst (FixAll.fix_content c) <> c) /\
  (found FixAll.pattern1 c || found FixAll.pattern2 c = false ->
   FixAll.fix_content c = (c, [])).
Proof.
  intros Hl. split; [now apply fix_all_file|]. split; intros H.
  - split.
    + rewrite fix_all_changes.
      destruct (found FixAll.pattern1 c); [discriminate|].
      destruct (found FixAll.pattern2 c); discriminate.
    + apply text_eqb_neq. now rewrite fix_all_fixed_found, H.
  - apply orb_false_elim in H as [H1 H2].
    unfold FixAll.fix_content. now rewrite H1, H2.
Qed.

Lemma X4_fix_all_writes_iff_found_witness :
  FixAll.fix_workflow_file (txt "ci.yml")
    (World (Some [(txt "ci.yml", txt "uses: pnpm/action-setup@v4")]) []) =
  (Ret (true,
        [txt "Updated action version v4 " ++ [8594%N] ++
         txt " v2 (1 occurrences)"]),
   World (Some [(txt "ci.yml", txt "uses: pnpm/action-setup@v2")]) []).
Proof.
  exact (proj1 (X4_fix_all_writes_iff_found (txt "ci.yml")
                  (txt "uses: pnpm/action-setup@v4")
                  [(txt "ci.yml", txt "uses: pnpm/action-setup@v4")] []
                  eq_refl)).
Defined.

(** X6.  In the text that the rules of fix-all-pnpm-workflows.py produce
    neither of its two patterns matches any more, so the rules applied to
    that text return it with an empty list of changes. *)
Theorem X6_fix_all_leaves_nothing_to_fix (s : text) :
  found FixAll.pattern1 (fst (FixAll.fix_content s)) = false /\
  found FixAll.pattern2 (fst (FixAll.fix_content s)) = false /\
  FixAll.fix_content (fst (FixAll.fix_content s)) =
    (fst (FixAll.fix_content s), []).
Proof.
  assert (H1 : found FixAll.pattern1 (fst (FixAll.fix_content s)) = false).
  { change FixAll.pattern1 with (map Chr (txt "pnpm/action-setup@v4")).
    rewrite found_literal. apply fix_all_no_v4. }
  assert (H2 : found FixAll.pattern2 (fst (FixAll.fix_content s)) = false).
  { pose proof (fix_all_fixed_found (fst (FixAll.fix_content s))) as E.
    rewrite fix_all_idempotent, text_eqb_refl, H1 in E. cbn [orb] in E.
    now destruct (found FixAll.pattern2 (fst (FixAll.fix_content s))). }
  split; [exact H1|]. split; [exact H2|].
  unfold FixAll.fix_content at 1. now rewrite H1, H2.
Qed.

(** ** fix-pnpm-workflows.py *)

Lemma greedy_sound (p : char -> bool) (k : nat -> text -> option (nat * nat))
      (res : nat * nat) :
  forall s off,
    greedy p k off s = Some res ->
    exists xs s',
      s = xs ++ s' /\ forallb p xs = true /\
      k (off + length xs) s' = Some res.
Proof.
  induction s as [|x s IH]; intros off H.
  - exists [], []. simpl in *. now rewrite Nat.add_0_r.
  - cbn [greedy] in H. destruct (p x) eqn:Px.
    + destruct (greedy p k (S off) s) as [r'|] eqn:G.
      * injection H as ->. destruct (IH _ G) as (xs & s' & -> & Hp & Hk).
        exists (x :: xs), s'. simpl. rewrite Px, Hp.
        rewrite <- Nat.add_succ_comm. now repeat split.
      * exists [], (x :: s). simpl. now rewrite Nat.add_0_r.
    + exists [], (x :: s). simpl. now rewrite Nat.add_0_r.
Qed.

Lemma plus_sound (p : char -> bool) (r : regex) (off g : nat) (s : text)
      (res : nat * nat) :
  match_from (Plus p :: r) off g s = Some res ->
  exists xs s',
    s = xs ++ s' /\ xs <> [] /\ forallb p xs = true /\
    match_from r (off + length xs) g s' = Some res.
Proof.
  cbn [match_from]. destruct s as [|x s]; [discriminate|].
  destruct (p x) eqn:Px; [|discriminate]. intros H.
  apply greedy_sound in H as (xs & s' & -> & Hp & Hk).
  exists (x :: xs), s'. simpl. rewrite Px, Hp.
  rewrite <- Nat.add_succ_comm. repeat split; [discriminate | exact Hk].
Qed.

Lemma star_sound (p : char -> bool) (r : regex) (off g : nat) (s : text)
      (res : nat * nat) :
  match_from (Star p :: r) off g s = Some res ->
  exists xs s',
    s = xs ++ s' /\ forallb p xs = true /\
    match_from r (off + length xs) g s' = Some res.
Proof. cbn [match_from]. apply greedy_sound. Qed.

Lemma blanks_inv (n : nat) (r : regex) (off g : nat) (s : text)
      (res : nat * nat) :
  match_from (repeat (Cls is_blank) n ++ r) off g s = Some res ->
  exists s', s = repeat 32%N n ++ s' /\
             match_from r (off + n) g s' = Some res.
Proof.
  revert off s. induction n as [|n IH]; intros off s H.
  - exists s. simpl in *. now rewrite Nat.add_0_r.
  - cbn [repeat app match_from] in H.
    destruct s as [|x s]; [discriminate|].
    destruct (is_blank x) eqn:B; [|discriminate].
    apply N.eqb_eq in B. subst x.
    apply IH in H as (s' & -> & H). exists s'.
    now rewrite <- Nat.add_succ_comm.
Qed.

Lemma fix_pnpm_pattern_inv (s : text) (e g : nat) :
  match_here FixPnpm.pattern s = Some (e, g) ->
  exists u rest,
    node_step u /\ s = u ++ rest /\ e = length u /\ g = length u.
Proof.
  unfold match_here, FixPnpm.pattern, lit. intros H.
  apply blanks_inv in H as (s1 & -> & H).
  apply lit_inv in H as (s2 & -> & H).
  apply plus_sound in H as (before & s3 & -> & Hb & Nb & H).
  apply lit_inv in H as (s4 & -> & H).
  apply star_sound in H as (after & s5 & -> & Na & H).
  apply (lit_inv [NL] _ _ _ _ _) in H as (s6 & -> & H).
  apply blanks_inv in H as (s7 & -> & H).
  apply lit_inv in H as (rest & -> & H).
  cbn [match_from] in H. injection H as <- <-.
  exists (txt "      - name: " ++ before ++ txt "Setup Node" ++ after ++
          NL :: txt "        uses: actions/setup-node@v4"), rest.
  split; [|split; [|split]].
  - exists before, after. now repeat split.
  - rewrite <- !app_assoc. reflexivity.
  - rewrite !length_app. cbn. rewrite ?length_app. cbn. lia.
  - rewrite !length_app. cbn. rewrite ?length_app. cbn. lia.
Qed.

Lemma inserted_length (block : text) (step : text -> Prop)
      (n : nat) (s o : text) :
  inserted block step n s o -> length o = length s + n * length block.
Proof.
  induction 1 as [|c s o n _ IH|u s o n _ _ IH]; simpl;
    rewrite ?length_app, ?IH; lia.
Qed.

Lemma fix_pnpm_inserted (s : text) :
  inserted FixPnpm.PNPM_SETUP node_step
    (findall_count FixPnpm.pattern s)
    s (sub FixPnpm.pattern FixPnpm.replacement s).
Proof.
  unfold sub, findall_count.
  apply (scan_induction (regex_match FixPnpm.pattern FixPnpm.replacement)
           (regex_match_proper FixPnpm.pattern FixPnpm.replacement I)
           (fun s o =>
              inserted FixPnpm.PNPM_SETUP node_step
                (scan_count (regex_match FixPnpm.pattern (fun g => g)) 0 s)
                s o)).
  - simpl. unfold regex_match.
    destruct (match_here FixPnpm.pattern []) as [[e g]|] eqn:M;
      [|constructor].
    apply fix_pnpm_pattern_inv in M as (u & rest & (b & a & _ & _ & _ & ->)
                                        & E & _).
    discriminate.
  - intros c t o Hm H. rewrite scan_count_miss.
    + now constructor.
    + apply regex_match_none. now apply regex_match_none in Hm.
  - intros u t out o Hu Hm H. unfold regex_match in Hm.
    destruct (match_here FixPnpm.pattern (u ++ t)) as [[e g]|] eqn:M;
      [|discriminate].
    injection Hm as -> <-.
    destruct (fix_pnpm_pattern_inv _ _ _ M) as (u' & rest & Hs & E & L & ->).
    apply app_same_length in E as [<- <-]; [|exact L].
    rewrite (scan_count_hit _ u t (firstn (length u) (u ++ t)) Hu)
      by (unfold regex_match; now rewrite M).
    rewrite firstn_exact. unfold FixPnpm.replacement.
    rewrite <- app_assoc. now constructor.
Qed.

(** X7.  The substitution of fix-pnpm-workflows.py only inserts: the new
    text is the old one with a copy of [PNPM_SETUP] in front of each
    matched step, a step being six blanks, [- name: ], a name with
    [Setup Node] behind at least one character, and the line
    [uses: actions/setup-node@v4] with eight blanks below.  The number of
    copies is the count of [re.subn], and the text grows by that many
    times the length of the block. *)
Theorem X7_fix_pnpm_only_inserts_blocks (s : text) :
  inserted FixPnpm.PNPM_SETUP node_step
    (snd (subn FixPnpm.pattern FixPnpm.replacement s))
    s (fst (subn FixPnpm.pattern FixPnpm.replacement s)) /\
  length (fst (subn FixPnpm.pattern FixPnpm.replacement s)) =
  length s +
  snd (subn FixPnpm.pattern FixPnpm.replacement s) *
  length FixPnpm.PNPM_SETUP.
Proof.
  split; [apply fix_pnpm_inserted|].
  apply (inserted_length _ _ _ _ _ (fix_pnpm_inserted s)).
Qed.

(** *** fix-pnpm-workflows.py, second run *)

(** X8.  A second call of [fix_workflow_file] of fix-pnpm-workflows.py on
    a file never writes it and returns [False].  Where the first call
    found no pnpm setup and at least one step to put the block in front
    of, the file holds the text with the blocks, that text contains
    [pnpm/action-setup], and the second call answers
    [Already has pnpm setup]. *)
Theorem X8_fix_pnpm_recognises_its_own_block
        (f : name) (c : text) (fs : list (name * text)) (out : list text) :
  lookup f fs = Some c ->
  let w1 := snd (FixPnpm.fix_workflow_file f (World (Some fs) out)) in
  (exists message,
      FixPnpm.fix_workflow_file f w1 = (Ret (false, message), w1)) /\
  (contains (txt "pnpm/action-setup") c = false ->
   0 < findall_count FixPnpm.pattern c ->
   holds f (sub FixPnpm.pattern FixPnpm.replacement c) w1 /\
   contains (txt "pnpm/action-setup")
     (sub FixPnpm.pattern FixPnpm.replacement c) = true /\
   FixPnpm.fix_workflow_file f w1 =
   (Ret (false, txt "Already has pnpm setup"), w1)).
Proof.
  intros Hl. cbv zeta. split; [now apply (fix_pnpm_second_run f c)|].
  intros Ec En. rewrite (fix_pnpm_file f c fs out Hl), Ec.
  rewrite (proj2 (Nat.ltb_lt _ _) En). cbn [snd].
  split; [|split].
  - eexists. split; [reflexivity | apply lookup_store_same].
  - now apply subn_marks.
  - rewrite (fix_pnpm_file f _ _ out (lookup_store_same f _ fs)).
    now rewrite (subn_marks c En).
Qed.

Lemma X8_fix_pnpm_recognises_its_own_block_witness :
  let w1 :=
    snd (FixPnpm.fix_workflow_file (txt "ci.yml")
           (World (Some [(txt "ci.yml", pnpm_cache_workflow)]) [])) in
  (exists message,
      FixPnpm.fix_workflow_file (txt "ci.yml") w1 =
      (Ret (false, message), w1)) /\
  holds (txt "ci.yml")
    (sub FixPnpm.pattern FixPnpm.replacement pnpm_cache_workflow) w1 /\
  contains (txt "pnpm/action-setup")
    (sub FixPnpm.pattern FixPnpm.replacement pnpm_cache_workflow) = true /\
  FixPnpm.fix_workflow_file (txt "ci.yml") w1 =
  (Ret (false, txt "Already has pnpm setup"), w1).
Proof.
  destruct (X8_fix_pnpm_recognises_its_own_block
              (txt "ci.yml") pnpm_cache_workflow
              [(txt "ci.yml", pnpm_cache_workflow)] [] eq_refl) as [H1 H2].
  split; [exact H1|]. apply H2; [reflexivity|].
  apply Nat.ltb_lt. reflexivity.
Defined.

(** *** Where the setup block goes *)

Lemma greedy_none_any (p : char -> bool)
      (k k' : nat -> text -> option (nat * nat)) :
  (forall s off off', k off s = None -> k' off' s = None) ->
  forall s off off',
    greedy p k off s = None -> greedy p k' off' s = None.
Proof.
  intros Hk. induction s as [|x s IH]; intros off off' H.
  - simpl in *. now apply (Hk [] off).
  - cbn [greedy] in *. destruct (p x).
    + destruct (greedy p k (S off) s) eqn:G; [discriminate|].
      rewrite (IH _ (S off') G). now apply (Hk _ off).
    + now apply (Hk _ off).
Qed.

(** Whether a pattern matches does not depend on the offsets. *)
Lemma match_from_none_any (r : regex) :
  forall s off g off' g',
    match_from r off g s = None -> match_from r off' g' s = None.
Proof.
  induction r as [|a r IH]; intros s off g off' g'; [discriminate|].
  destruct a as [c|p|p|p| |]; cbn [match_from].
  - destruct s as [|x s]; [reflexivity|].
    destruct (N.eqb x c); [apply IH | reflexivity].
  - destruct s as [|x s]; [reflexivity|].
    destruct (p x); [apply IH | reflexivity].
  - apply greedy_none_any. intros t o o'. apply IH.
  - destruct s as [|x s]; [reflexivity|].
    destruct (p x); [|reflexivity].
    apply greedy_none_any. intros t o o'. apply IH.
  - destruct s as [|x s]; [apply IH|].
    destruct (N.eqb x NL); [apply IH | reflexivity].
  - apply IH.
Qed.

Lemma search_leftmost (r : regex) (s : text) (pos : nat) :
  search r s = Some pos ->
  match_here r (skipn pos s) <> None /\
  forall j, j < pos -> match_here r (skipn j s) = None.
Proof.
  revert pos. induction s as [|c s IH]; intros pos; cbn [search].
  - destruct (match_here r []) eqn:M; [|discriminate].
    intros [= <-]. split; [simpl; congruence | intros j; lia].
  - destruct (match_here r (c :: s)) eqn:M.
    + intros [= <-]. split; [simpl; congruence | intros j; lia].
    + destruct (search r s) as [q|]; [|discriminate].
      intros [= <-]. destruct (IH q eq_refl) as [H1 H2].
      split; [exact H1|]. intros [|j] Hj; [exact M|].
      simpl. apply H2. lia.
Qed.

Lemma setup_node_shape :
  FixGithub.setup_node =
  Plus is_space ::
  (map Chr (txt "- name: Setup Node.js") ++
   Star not_newline ::
   (map Chr [NL] ++
    Plus is_space :: (map Chr (txt "uses: actions/setup-node@") ++ [Close]))).
Proof. reflexivity. Qed.

Lemma setup_node_rejects :
  rejects (map Chr (txt "- name: Setup Node.js") ++
           Star not_newline ::
           (map Chr [NL] ++
            Plus is_space ::
            (map Chr (txt "uses: actions/setup-node@") ++ [Close])))
          is_space.
Proof. apply rejects_chr. reflexivity. Qed.

Lemma setup_node_start (c : text) (pos : nat) :
  search FixGithub.setup_node c = Some pos ->
  (exists ws rest,
      skipn pos c = ws ++ txt "- name: Setup Node.js" ++ rest /\
      ws <> [] /\ whitespace ws) /\
  (pos = 0 \/
   exists u y, firstn pos c = u ++ [y] /\ is_space y = false).
Proof.
  intros H. apply search_leftmost in H as [Hm Hl].
  rewrite setup_node_shape in Hm, Hl. unfold match_here in Hm.
  destruct (match_from _ 0 0 (skipn pos c)) as [res|] eqn:M;
    [clear Hm | congruence].
  pose proof M as M'.
  apply plus_sound in M' as (ws & t & Es & Hn & Hw & M').
  apply lit_inv in M' as (rest & -> & _).
  split; [now exists ws, rest|].
  destruct pos as [|k]; [now left | right].
  assert (Hk : k < length c).
  { destruct (Nat.lt_ge_cases k (length c)) as [L|L]; [exact L|].
    rewrite skipn_all2 in Es by lia. now destruct ws. }
  destruct (skipn k c) as [|y t0] eqn:Ek.
  { apply (f_equal (@length _)) in Ek. rewrite length_skipn in Ek.
    simpl in Ek. lia. }
  assert (Et : skipn (S k) c = t0).
  { replace (S k) with (1 + k) by lia.
    rewrite <- skipn_skipn, Ek. reflexivity. }
  exists (firstn k c), y. split.
  - rewrite <- (firstn_skipn k c) at 1.
    rewrite Ek.
    change (y :: t0) with ([y] ++ t0).
    rewrite app_assoc.
    replace (S k) with (length (firstn k c ++ [y])).
    + apply firstn_exact.
    + rewrite length_app, firstn_length_le by lia. simpl. lia.
  - destruct (is_space y) eqn:Sy; [exfalso | reflexivity].
    pose proof (Hl k (Nat.lt_succ_diag_r k)) as N.
    rewrite Ek in N. unfold match_here in N.
    rewrite match_plus in N by exact setup_node_rejects.
    rewrite Et in M. rewrite match_plus in M by exact setup_node_rejects.
    cbn [span skipn] in N. rewrite Sy in N. cbn [skipn] in N.
    destruct (span is_space t0) as [|n] eqn:Sp; [discriminate|].
    apply (match_from_none_any _ _ _ _ (0 + S n) 0) in N.
    congruence.
Qed.

(** X9.  Where the pattern of [add_pnpm_setup] matches, the block goes
    in at the start of the match, which is the start of the white space in
    front of [- name: Setup Node.js]: white space follows the insertion
    point, and the text in front of it is empty or ends with a character
    that is not white space.  The block is put in once, at the leftmost
    match, and nothing is printed. *)
Theorem X9_setup_block_goes_before_the_white_space
        (c : text) (pos : nat) (w : world) :
  search FixGithub.setup_node c = Some pos ->
  FixGithub.add_pnpm_setup c w =
    (Ret (firstn pos c ++ FixGithub.PNPM_SETUP ++ skipn pos c), w) /\
  (exists ws rest,
      skipn pos c = ws ++ txt "- name: Setup Node.js" ++ rest /\
      ws <> [] /\ whitespace ws) /\
  (pos = 0 \/
   exists u y, firstn pos c = u ++ [y] /\ is_space y = false).
Proof.
  intros H. split; [|now apply setup_node_start].
  unfold FixGithub.add_pnpm_setup. now rewrite H.
Qed.

Lemma X9_setup_block_goes_before_the_white_space_witness :
  FixGithub.add_pnpm_setup node_workflow (World None []) =
    (Ret (txt "    steps:" ++ FixGithub.PNPM_SETUP ++ [NL] ++
          txt "      - name: Setup Node.js" ++ [NL] ++
          txt "        uses: actions/setup-node@v4" ++ [NL] ++
          txt "      - run: npm ci" ++ [NL]),
     World None []).
Proof.
  exact (proj1 (X9_setup_block_goes_before_the_white_space
                  node_workflow 10 (World None []) eq_refl)).
Defined.

(** ** fix-github-workflows.py *)

(** *** The backup *)

Lemma backup_path_differs (f : name) : FixGithub.backup_path f <> f.
Proof.
  unfold FixGithub.backup_path. intros H.
  apply (f_equal (@length _)) in H. rewrite length_app in H. simpl in H. lia.
Qed.

Lemma fix_workflow_cases
      (f : name) (s : text) (fs : list (name * text)) (out : list text) :
  lookup f fs = Some s ->
  exists modified : bool,
    (modified = false -> fix_github_text s = s) /\
    if modified then
      exists out',
        FixGithub.fix_workflow f (World (Some fs) out) =
        (Ret true,
         World (Some (store f (fix_github_text s)
                        (store (FixGithub.backup_path f) s fs))) out')
    else
      FixGithub.fix_workflow f (World (Some fs) out) =
      (Ret false, World (Some fs) out).
Proof.
  intros Hl. unfold FixGithub.fix_workflow, bind, read_text, fix_github_text.
  cbn [dir]. rewrite Hl.
  destruct (FixGithub.needs_pnpm_setup s); cbn [negb];
    [|exists false; now split].
  pose proof (rewrite_npm_unmodified s) as Hu.
  destruct (FixGithub.rewrite_npm s false) as [c modified]. cbn [fst snd] in *.
  destruct (FixGithub.has_pnpm_setup c); cbn [negb].
  - exists modified. split; [exact Hu|].
    destruct modified; [exists out|]; reflexivity.
  - exists true. split; [discriminate|].
    unfold FixGithub.add_pnpm_setup, insert_setup.
    destruct (search FixGithub.setup_node c); eexists; reflexivity.
Qed.

(** X10.  When [fix_workflow] returns [True], the backup file holds the
    text the workflow had, the workflow holds the rewritten text, and
    every other file is as it was.  When it returns [False], it has
    written nothing and printed nothing, and the rewrite would not have
    changed the text. *)
Theorem X10_fix_workflow_backs_up_what_it_replaces
        (f : name) (s : text) (fs : list (name * text)) (out : list text) :
  lookup f fs = Some s ->
  exists (modified : bool) (w' : world),
    FixGithub.fix_workflow f (World (Some fs) out) = (Ret modified, w') /\
    (modified = true ->
     exists fs',
       dir w' = Some fs' /\
       lookup (FixGithub.backup_path f) fs' = Some s /\
       lookup f fs' = Some (fix_github_text s) /\
       forall g, g <> f -> g <> FixGithub.backup_path f ->
                 lookup g fs' = lookup g fs) /\
    (modified = false ->
     w' = World (Some fs) out /\ fix_github_text s = s).
Proof.
  intros Hl. destruct (fix_workflow_cases f s fs out Hl) as (m & Hu & H).
  destruct m.
  - destruct H as (out' & E). exists true. eexists. split; [exact E|].
    split; [intros _ | discriminate].
    eexists. split; [reflexivity|]. split; [|split].
    + rewrite lookup_store_other by (apply not_eq_sym, backup_path_differs).
      apply lookup_store_same.
    + apply lookup_store_same.
    + intros g Hf Hb.
      rewrite lookup_store_other by now apply not_eq_sym.
      apply lookup_store_other. now apply not_eq_sym.
  - exists false. eexists. split; [exact H|].
    split; [discriminate|]. intros _. split; [reflexivity | now apply Hu].
Qed.

Lemma X10_fix_workflow_backs_up_what_it_replaces_witness :
  exists (modified : bool) (w' : world),
    FixGithub.fix_workflow (txt "ci.yml")
      (World (Some [(txt "ci.yml", node_workflow)]) []) = (Ret modified, w') /\
    (modified = true ->
     exists fs',
       dir w' = Some fs' /\
       lookup (FixGithub.backup_path (txt "ci.yml")) fs' =
         Some node_workflow /\
       lookup (txt "ci.yml") fs' = Some (fix_github_text node_workflow) /\
       forall g, g <> txt "ci.yml" ->
                 g <> FixGithub.backup_path (txt "ci.yml") ->
                 lookup g fs' = lookup g [(txt "ci.yml", node_workflow)]) /\
    (modified = false ->
     w' = World (Some [(txt "ci.yml", node_workflow)]) [] /\
     fix_github_text node_workflow = node_workflow).
Proof.
  exact (X10_fix_workflow_backs_up_what_it_replaces
           (txt "ci.yml") node_workflow [(txt "ci.yml", node_workflow)] []
           eq_refl).
Defined.

(** *** What the rewrite leaves *)

Lemma fixed_lines (x : text) :
  FixGithub.rule3 (FixGithub.rule2 x) = x ->
  Forall (fun l => ends_with (txt "run: npm ci") l = false /\
                   ends_with (txt "run: npm install") l = false)
         (lines x).
Proof.
  intros H. rewrite npm_rewrite_lines in H.
  assert (E : lines x = map fix_line (lines x)).
  { rewrite <- H at 1. apply lines_unlines.
    - pose proof (lines_not_nil x). now destruct (lines x).
    - apply Forall_map. eapply Forall_impl; [|apply lines_no_line_feed].
      exact fix_line_one_line. }
  rewrite E. apply Forall_map, Forall_forall. intros l _.
  apply fix_line_settled.
Qed.

Lemma fix_github_text_fixed (s : text) :
  contains (txt "cache: 'npm'") (fix_github_text s) = false /\
  FixGithub.rule2 (fix_github_text s) = fix_github_text s /\
  FixGithub.rule3 (fix_github_text s) = fix_github_text s.
Proof.
  unfold fix_github_text.
  destruct (FixGithub.needs_pnpm_setup s) eqn:En.
  - cbv zeta. rewrite rewrite_npm_text.
    set (z := FixGithub.rule1 s).
    assert (Hz : contains (txt "cache: 'npm'") z = false).
    { apply occurrences_none.
      apply replace_counts; (discriminate || reflexivity). }
    pose proof (settled_no_cache z Hz) as C1.
    pose proof (settled_rule2 z) as C2.
    pose proof (settled_rule3 z) as C3.
    set (c := FixGithub.rule3 (FixGithub.rule2 z)) in *.
    destruct (FixGithub.has_pnpm_setup c); [now repeat split|].
    unfold insert_setup.
    destruct (search FixGithub.setup_node c) as [pos|];
      [|now repeat split].
    set (y := firstn pos c ++ _). split; [|split].
    + apply absent_insert; try reflexivity; try discriminate;
        [now apply contains_firstn | now apply contains_skipn].
    + apply scan_nothing.
      apply (insert_no_line_end (txt "run: npm ci")); try reflexivity.
      rewrite firstn_skipn.
      apply line_end_rule_fixed; [discriminate | reflexivity | exact C2].
    + apply scan_nothing.
      apply (insert_no_line_end (txt "run: npm install")); try reflexivity.
      rewrite firstn_skipn.
      apply line_end_rule_fixed; [discriminate | reflexivity | exact C3].
  - unfold FixGithub.needs_pnpm_setup in En.
    apply orb_false_elim in En as [En E3].
    apply orb_false_elim in En as [E1 E2].
    split; [exact E1|]. split.
    + now apply rule2_absent.
    + now apply (sub_at_line_end_absent (txt "run: npm install")).
Qed.

(** X11.  The text [fix_workflow] ends with is settled: it has no
    [cache: 'npm'], and none of its lines ends in [run: npm ci] or in
    [run: npm install].  The rewrite applied to it gives it back. *)
Theorem X11_fix_github_text_is_settled (s : text) :
  settled (fix_github_text s) /\
  fix_github_text (fix_github_text s) = fix_github_text s.
Proof.
  split; [|apply fix_github_text_idempotent].
  destruct (fix_github_text_fixed s) as (H1 & H2 & H3).
  split; [exact H1|]. apply fixed_lines. now rewrite H2, H3.
Qed.

(** ** Whole runs *)

Lemma safe_ret {A} (D : option (list (name * text)) -> Prop) (a : A) :
  safe D (ret a).
Proof. intros w H. now exists a, w. Qed.

Lemma safe_bind {A B} (D : option (list (name * text)) -> Prop)
      (c : IO A) (k : A -> IO B) :
  safe D c -> (forall a, safe D (k a)) -> safe D (bind c k).
Proof.
  intros Hc Hk w H. destruct (Hc w H) as (a & w1 & E & H1).
  destruct (Hk a w1 H1) as (b & w2 & E2 & H2).
  exists b, w2. split; [|exact H2]. now rewrite (run_bind _ _ _ _ _ E).
Qed.

Lemma safe_print (D : option (list (name * text)) -> Prop) (line : text) :
  safe D (print line).
Proof.
  intros w H. exists tt, (World (dir w) (stdout w ++ [line])).
  split; [reflexivity | exact H].
Qed.

Lemma safe_for_in {A S} (D : option (list (name * text)) -> Prop)
      (body : A -> S -> IO S) (xs : list A) :
  (forall x acc, In x xs -> safe D (body x acc)) ->
  forall acc, safe D (for_in xs body acc).
Proof.
  induction xs as [|x xs IH]; intros H acc; cbn [for_in].
  - apply safe_ret.
  - apply safe_bind; [apply H; now left|].
    intros acc'. apply IH. intros y a Hy. apply H. now right.
Qed.

Lemma safe_read (D : option (list (name * text)) -> Prop) (n : name) :
  (forall d, D d -> exists fs, d = Some fs /\ lookup n fs <> None) ->
  safe D (read_text n).
Proof.
  intros H w Hw. destruct (H _ Hw) as (fs & E & L).
  destruct (lookup n fs) as [v|] eqn:Ev; [|congruence].
  exists v, w. split; [|exact Hw]. unfold read_text. now rewrite E, Ev.
Qed.

Lemma safe_write (D : option (list (name * text)) -> Prop)
      (n : name) (v : text) :
  (forall d, D d -> exists fs, d = Some fs /\ D (Some (store n v fs))) ->
  safe D (write_text n v).
Proof.
  intros H w Hw. destruct (H _ Hw) as (fs & E & K).
  exists tt, (World (Some (store n v fs)) (stdout w)).
  split; [|exact K]. unfold write_text. now rewrite E.
Qed.

Lemma kept_start (allowed created : list name) (fs : list (name * text)) :
  kept allowed created fs (Some fs).
Proof. exists fs. now repeat split. Qed.

Lemma kept_read (allowed created : list name) (fs : list (name * text))
      (n : name) :
  lookup n fs <> None ->
  forall d, kept allowed created fs d ->
            exists fs', d = Some fs' /\ lookup n fs' <> None.
Proof. intros H d (fs' & E & K & _). exists fs'. split; [exact E | auto]. Qed.

Lemma kept_write (allowed created : list name) (fs : list (name * text))
      (n : name) (v : text) :
  In n allowed \/ In n created ->
  forall d, kept allowed created fs d ->
            exists fs', d = Some fs' /\
                        kept allowed created fs (Some (store n v fs')).
Proof.
  intros Hn d (fs' & E & K & O). exists fs'. split; [exact E|].
  exists (store n v fs'). split; [reflexivity|]. split.
  - intros k Hk. apply lookup_store_some. auto.
  - intros k Ha Hc. rewrite lookup_store_other; [now apply O|].
    intros ->. destruct Hn; contradiction.
Qed.

(** *** The files of the four scripts *)

Lemma fix_github_file_safe (D : option (list (name * text)) -> Prop)
      (f : name) :
  (forall d, D d -> exists fs, d = Some fs /\ lookup f fs <> None) ->
  (forall v d, D d -> exists fs, d = Some fs /\ D (Some (store f v fs))) ->
  (forall v d, D d ->
     exists fs, d = Some fs /\
                D (Some (store (FixGithub.backup_path f) v fs))) ->
  safe D (FixGithub.fix_workflow f).
Proof.
  intros Hr Hw Hb. unfold FixGithub.fix_workflow.
  apply safe_bind; [now apply safe_read|]. intros original.
  destruct (negb (FixGithub.needs_pnpm_setup original)); [apply safe_ret|].
  destruct (FixGithub.rewrite_npm original false) as [content modified].
  apply safe_bind.
  - destruct (negb (FixGithub.has_pnpm_setup content)); [|apply safe_ret].
    apply safe_bind; [|intros; apply safe_ret].
    unfold FixGithub.add_pnpm_setup.
    destruct (search FixGithub.setup_node content); [apply safe_ret|].
    apply safe_bind; [apply safe_print | intros; apply safe_ret].
  - intros [content' [|]].
    + apply safe_bind; [|intros; apply safe_ret].
      apply safe_bind; [apply safe_write, Hb | intros _].
      apply safe_write, Hw.
    + apply safe_bind; intros; apply safe_ret.
Qed.

Lemma sorted_in (l : list name) (n : name) : In n (sorted l) -> In n l.
Proof. apply Permutation_in, Permutation_sym, sorted_perm. Qed.

Lemma marked_files_in (marker : text) (fs : list (name * text)) (n : name) :
  In n (marked_files marker fs) -> In n (yml_names fs).
Proof. unfold marked_files. rewrite filter_In. tauto. Qed.

Lemma run_script_bind {A} (c : IO A) (k : A -> IO unit)
      (w w1 : world) (a : A) :
  c w = (Ret a, w1) -> run_script (bind c k) w = run_script (k a) w1.
Proof. intros E. unfold run_script. now rewrite (run_bind _ _ _ _ _ E). Qed.


Lemma fix_github_loop_counts (D : option (list (name * text)) -> Prop)
      (files : list name) :
  (forall f, In f files -> safe D (FixGithub.fix_workflow f)) ->
  forall counts w, D (dir w) ->
    exists fixed skipped w',
      for_in files
        (fun file_path counts =>
           let '(fixed_count, skipped_count) := counts in
           print (txt "Processing: " ++ file_path) ;;
           fixed <- FixGithub.fix_workflow file_path ;;
           if fixed : bool then
             print (txt "   " ++ [9989%N] ++ txt " Fixed" ++ [NL]) ;;
             ret (fixed_count + 1, skipped_count)
           else
             print (txt "   " ++ [9197%N; 65039%N] ++
                    txt "  Skipped (already uses pnpm or no npm commands)" ++
                    [NL]) ;;
             ret (fixed_count, skipped_count + 1))
        counts w = (Ret (fixed, skipped), w') /\
      D (dir w') /\
      fixed + skipped = fst counts + snd counts + length files.
Proof.
  induction files as [|f files IH]; intros H [fc sc] w Hw.
  - exists fc, sc, w. cbn [for_in fst snd length]. unfold ret.
    repeat split; [exact Hw | lia].
  - cbn [for_in].
    destruct (H f (or_introl eq_refl)
                (World (dir w) (stdout w ++ [txt "Processing: " ++ f])) Hw)
      as (fixed & w1 & E & H1).
    assert (Hrest : forall g, In g files ->
                              safe D (FixGithub.fix_workflow g))
      by (intros g Hg; apply H; now right).
    destruct fixed.
    + destruct (IH Hrest (fc + 1, sc)
                  (World (dir w1)
                     (stdout w1 ++
                      [txt "   " ++ [9989%N] ++ txt " Fixed" ++ [NL]])) H1)
        as (fx & sk & w2 & E2 & H2 & N).
      exists fx, sk, w2. split; [|split; [exact H2|]].
      * erewrite run_bind; [exact E2|].
        erewrite run_bind by reflexivity.
        erewrite run_bind by exact E.
        reflexivity.
      * cbn [fst snd length] in *. lia.
    + destruct (IH Hrest (fc, sc + 1)
                  (World (dir w1)
                     (stdout w1 ++
                      [txt "   " ++ [9197%N; 65039%N] ++
                       txt "  Skipped (already uses pnpm or no npm commands)"
                       ++ [NL]])) H1)
        as (fx & sk & w2 & E2 & H2 & N).
      exists fx, sk, w2. split; [|split; [exact H2|]].
      * erewrite run_bind; [exact E2|].
        erewrite run_bind by reflexivity.
        erewrite run_bind by exact E.
        reflexivity.
      * cbn [fst snd length] in *. lia.
Qed.

Lemma fix_github_main_run (fs : list (name * text)) (out : list text) :
  exists fs' before fixed skipped,
    run_script FixGithub.main (World (Some fs) out) =
      (0, World (Some fs') (before ++ fix_github_summary fixed skipped)) /\
    fixed + skipped = length (yml_names fs) /\
    kept (yml_names fs) (map FixGithub.backup_path (yml_names fs)) fs
         (Some fs').
Proof.
  unfold run_script, FixGithub.main.
  do 2 run_step. cbn [negb]. run_step.
  erewrite (run_bind (bind glob_yml _)) by reflexivity; cbv beta.
  set (D := kept (yml_names fs)
                 (map FixGithub.backup_path (yml_names fs)) fs).
  match goal with
  | |- context [bind (for_in ?xs ?body ?acc) ?k ?w] =>
      assert (Hs : forall f, In f xs -> safe D (FixGithub.fix_workflow f));
      [|destruct (fix_github_loop_counts D xs Hs acc w (kept_start _ _ fs))
          as (fixed & skipped & [d1 o1] & E & K & N)]
  end.
  - intros f Hf. apply sorted_in in Hf. apply fix_github_file_safe.
    + now apply kept_read, yml_names_present.
    + intros v. apply kept_write. now left.
    + intros v. apply kept_write. right. now apply in_map.
  - erewrite run_bind by exact E. cbv beta iota.
    do 4 run_step.
    cbn [dir] in K. pose proof K as (fs' & -> & _).
    exists fs', o1, fixed, skipped. split; [|split; [|exact K]].
    + unfold print, fix_github_summary. cbn [dir stdout].
      now rewrite <- !app_assoc.
    + cbn [fst snd] in N. rewrite N.
      symmetry. apply Permutation_length, sorted_perm.
Qed.

(** X12.  Over an existing directory a run of fix-github-workflows.py
    ends with status 0, and the two counts of the summary it prints last
    add up to the number of [*.yml] files. *)
Theorem X12_fix_github_counts_add_up
        (fs : list (name * text)) (out : list text) :
  exists w' before fixed skipped,
    run_script FixGithub.main (World (Some fs) out) = (0, w') /\
    stdout w' = before ++ fix_github_summary fixed skipped /\
    fixed + skipped = length (yml_names fs).
Proof.
  destruct (fix_github_main_run fs out)
    as (fs' & before & fixed & skipped & E & N & _).
  eexists. exists before, fixed, skipped.
  split; [exact E|]. split; [reflexivity | exact N].
Qed.


Lemma among_in (l : list name) (n : name) : among l n = true <-> In n l.
Proof.
  unfold among. rewrite existsb_exists. split.
  - intros (x & Hx & E). apply text_eqb_eq in E. now subst.
  - intros H. exists n. split; [exact H | apply text_eqb_refl].
Qed.

Lemma among_app (l1 l2 : list name) (n : name) :
  among (l1 ++ l2) n = among l1 n || among l2 n.
Proof. apply existsb_app. Qed.

Lemma lookup_store (n f : name) (v : text) (fs : list (name * text)) :
  lookup n (store f v fs) = if text_eqb n f then Some v else lookup n fs.
Proof.
  destruct (text_eqb n f) eqn:E.
  - apply text_eqb_eq in E. subst. apply lookup_store_same.
  - apply text_eqb_neq in E. apply lookup_store_other. congruence.
Qed.

Section DirectoryRewrite.

(** the files the property is about, and what a step does to the text of
    the file it is given *)
Variable care : name -> Prop.
Variable h : text -> text.
Hypothesis h_idempotent : forall c, h (h c) = h c.

Variable S : Type.
Variable body : name -> S -> IO S.
Hypothesis body_rewrites :
  forall x acc fs out c,
    care x -> lookup x fs = Some c ->
    exists acc' fs1 out',
      body x acc (World (Some fs) out) = (Ret acc', World (Some fs1) out') /\
      forall n, care n ->
                lookup n fs1 = if text_eqb n x then Some (h c) else lookup n fs.

Variable fs0 : list (name * text).

Lemma loop_rewrites (xs : list name) :
  (forall x, In x xs -> care x /\ lookup x fs0 <> None) ->
  forall done acc fs out,
    (forall n, care n ->
               lookup n fs =
               option_map (fun c => if among done n then h c else c)
                          (lookup n fs0)) ->
    exists acc' fs' out',
      for_in xs body acc (World (Some fs) out) =
        (Ret acc', World (Some fs') out') /\
      forall n, care n ->
                lookup n fs' =
                option_map (fun c => if among (done ++ xs) n then h c else c)
                           (lookup n fs0).
Proof.
  induction xs as [|x xs IH]; intros Hx done acc fs out Inv.
  - exists acc, fs, out. split; [reflexivity|].
    now rewrite app_nil_r.
  - destruct (Hx x (or_introl eq_refl)) as [Cx Lx].
    destruct (lookup x fs0) as [c0|] eqn:E0; [clear Lx | congruence].
    pose proof (Inv x Cx) as Ex. rewrite E0 in Ex. cbn [option_map] in Ex.
    destruct (body_rewrites x acc fs out _ Cx Ex)
      as (acc1 & fs1 & out1 & E1 & L1).
    destruct (IH (fun y Hy => Hx y (or_intror Hy)) (done ++ [x])
                 acc1 fs1 out1) as (acc' & fs' & out' & E' & L').
    + intros n Cn. rewrite (L1 n Cn), among_app.
      cbn [among existsb]. rewrite orb_false_r.
      destruct (text_eqb n x) eqn:En.
      * apply text_eqb_eq in En. subst n. rewrite E0. cbn [option_map].
        rewrite orb_true_r.
        destruct (among done x); [now rewrite h_idempotent | reflexivity].
      * rewrite orb_false_r. now apply Inv.
    + exists acc', fs', out'. split.
      * cbn [for_in]. now rewrite (run_bind _ _ _ _ _ E1).
      * intros n Cn. rewrite (L' n Cn), <- app_assoc. reflexivity.
Qed.

End DirectoryRewrite.

Lemma safe_same {A} (c : IO A) (d : option (list (name * text))) :
  safe (eq d) c ->
  forall out, exists a out', c (World d out) = (Ret a, World d out').
Proof.
  intros H out. destruct (H (World d out) eq_refl) as (a & [d' o'] & E & K).
  cbn [dir] in K. subst d'. now exists a, o'.
Qed.

Lemma bool_eq_iff (a b : bool) : (a = true <-> b = true) -> a = b.
Proof. destruct a, b; intros [H1 H2]; auto; symmetry; auto. Qed.

Lemma lookup_among (fs : list (name * text)) (n : name) (c : text) :
  lookup n fs = Some c -> among (map fst fs) n = true.
Proof.
  induction fs as [|[k v] fs IH]; [discriminate|]. cbn [lookup map fst].
  unfold among. cbn [existsb].
  destruct (text_eqb k n) eqn:E.
  - intros _. apply text_eqb_eq in E. subst. now rewrite text_eqb_refl.
  - intros H. rewrite (IH H : existsb _ _ = true). apply orb_true_r.
Qed.

Lemma yml_among (fs : list (name * text)) (n : name) (c : text) :
  lookup n fs = Some c ->
  among (yml_names fs) n = ends_with (txt ".yml") n.
Proof.
  intros H. apply bool_eq_iff. rewrite among_in. unfold yml_names.
  rewrite filter_In, <- among_in, (lookup_among fs n c H). tauto.
Qed.

Lemma sorted_yml_among (fs : list (name * text)) (n : name) (c : text) :
  lookup n fs = Some c ->
  among (sorted (yml_names fs)) n = ends_with (txt ".yml") n.
Proof.
  intros H. rewrite <- (yml_among fs n c H).
  apply bool_eq_iff. rewrite !among_in. split.
  - apply sorted_in.
  - apply Permutation_in, sorted_perm.
Qed.

Lemma marked_among (marker : text) (fs : list (name * text))
      (n : name) (c : text) :
  lookup n fs = Some c ->
  among (marked_files marker fs) n =
  ends_with (txt ".yml") n && contains marker c.
Proof.
  intros H. rewrite <- (yml_among fs n c H).
  apply bool_eq_iff. rewrite among_in. unfold marked_files.
  rewrite filter_In, H, andb_true_iff, among_in. tauto.
Qed.

(** *** fix-all-pnpm-workflows.py *)

(** the first premise of [H] becomes a goal of its own *)
Ltac premise H :=
  match type of H with
  | ?T -> _ =>
      let P := fresh "P" in
      assert (P : T); [cbv beta | specialize (H P); clear P]
  end.

Lemma fix_all_main_rewrites (fs : list (name * text)) (out : list text) :
  exists fs' out',
    run_script FixAll.main (World (Some fs) out) =
      (0, World (Some fs') out') /\
    forall n,
      lookup n fs' =
      option_map (fun c => if ends_with (txt ".yml") n
                           then fst (FixAll.fix_content c) else c)
                 (lookup n fs).
Proof.
  unfold run_script, FixAll.main.
  do 3 (erewrite run_bind by reflexivity).
  match goal with
  | |- context [bind (for_in ?xs ?body ?acc) ?k ?w] =>
      pose proof (fun B => loop_rewrites (fun _ => True)
                    (fun c => fst (FixAll.fix_content c))
                    fix_all_idempotent _ body B fs xs) as LR;
      premise LR; [|premise LR; [|specialize (LR [] acc fs (stdout w));
                                  premise LR]]
  end.
  - intros x acc fs1 out1 c _ Hl.
    pose proof (fix_all_persists_changes x c fs1 out1 Hl) as Ef.
    destruct (text_eqb (fst (FixAll.fix_content c)) c) eqn:Ec;
      erewrite run_bind by exact Ef.
    + apply text_eqb_eq in Ec.
      eexists. exists fs1. eexists. split; [reflexivity|].
      intros n _. destruct (text_eqb n x) eqn:En; [|reflexivity].
      apply text_eqb_eq in En. subst n. now rewrite Ec.
    + match goal with
      | |- context [?c (World ?d ?o)] =>
          destruct (safe_same c d) with (out := o) as (a & o' & Es)
      end.
      { apply safe_bind; [apply safe_print | intros _].
        apply safe_bind; [|intros; apply safe_ret].
        apply safe_for_in. intros; apply safe_print. }
      eexists. eexists. eexists. split; [exact Es|].
      intros n _. apply lookup_store.
  - intros x Hx. split; [exact I|].
    now apply yml_names_present, sorted_in.
  - intros n _. now destruct (lookup n fs).
  - destruct LR as (modified & fs' & out' & E & L).
    erewrite run_bind by exact E.
    do 2 (erewrite run_bind by reflexivity).
    exists fs'.
    destruct modified as [|m0 ms]; unfold print; cbn [dir stdout];
      (eexists; split; [reflexivity|]);
      intros n; rewrite (L n I); cbn [app];
      (destruct (lookup n fs) as [c|] eqn:El; [|reflexivity]);
      cbn [option_map];
      pose proof (sorted_yml_among fs n c El) as Ea;
      unfold yml_names in Ea; now rewrite Ea.
Qed.

Lemma run_script_same (c : IO unit) (d : option (list (name * text)))
      (out : list text) :
  safe (eq d) c ->
  exists out', run_script c (World d out) = (0, World d out').
Proof.
  intros H. destruct (safe_same c d H out) as (a & o' & E).
  exists o'. unfold run_script. now rewrite E.
Qed.

(** *** update-pnpm-version.py *)

Lemma update_main_rewrites (fs : list (name * text)) (out : list text) :
  exists fs' out',
    run_script UpdateVersion.main (World (Some fs) out) =
      (0, World (Some fs') out') /\
    forall n,
      lookup n fs' =
      option_map (fun c => if ends_with (txt ".yml") n &&
                              contains (txt "pnpm/action-setup") c
                           then UpdateVersion.new_content c else c)
                 (lookup n fs).
Proof.
  unfold UpdateVersion.main.
  erewrite run_script_bind by reflexivity.
  erewrite run_script_bind by apply update_find.
  erewrite run_script_bind by reflexivity.
  match goal with
  | |- context [run_script (bind (for_in ?xs ?body ?acc) ?k) ?w] =>
      pose proof (fun B => loop_rewrites (fun _ => True)
                    UpdateVersion.new_content
                    new_content_idempotent _ body B fs xs) as LR;
      premise LR; [|premise LR; [|specialize (LR [] acc fs (stdout w));
                                  premise LR]]
  end.
  - intros x acc fs1 out1 c _ Hl.
    erewrite run_bind by reflexivity. cbn [dir stdout].
    pose proof (update_file x c fs1 (out1 ++ [txt "Processing: " ++ x]) Hl)
      as Ef.
    destruct (found UpdateVersion.pattern c) eqn:F;
      erewrite run_bind by exact Ef; cbv beta iota;
      (erewrite run_bind by reflexivity);
      (eexists; eexists; eexists; split; [reflexivity|]); intros n _.
    + apply lookup_store.
    + destruct (text_eqb n x) eqn:En; [|reflexivity].
      apply text_eqb_eq in En. subst n.
      now rewrite (sub_not_found _ _ _ F : UpdateVersion.new_content c = c).
  - intros x Hx. split; [exact I|].
    now apply yml_names_present, (marked_files_in _ _ _ Hx).
  - intros n _. now destruct (lookup n fs).
  - destruct LR as (modified & fs' & out' & E & L).
    erewrite run_script_bind by exact E.
    match goal with
    | |- context [run_script ?c (World ?d ?o)] =>
        destruct (run_script_same c d o) as (o' & Es)
    end.
    { apply safe_bind; [apply safe_print | intros _].
      destruct modified; [apply safe_print|].
      apply safe_bind; [apply safe_print | intros _].
      apply safe_for_in. intros; apply safe_print. }
    exists fs', o'. split; [exact Es|].
    intros n. rewrite (L n I). cbn [app].
    destruct (lookup n fs) as [c|] eqn:El; [|reflexivity].
    cbn [option_map]. now rewrite (marked_among _ fs n c El).
Qed.

(** *** fix-pnpm-workflows.py *)

Lemma pnpm_text_idempotent (c : text) : pnpm_text (pnpm_text c) = pnpm_text c.
Proof.
  unfold pnpm_text at 2 3.
  destruct (contains (txt "pnpm/action-setup") c) eqn:Ec.
  - unfold pnpm_text. now rewrite Ec.
  - destruct (found FixPnpm.pattern c) eqn:F.
    + rewrite found_counted in F. apply Nat.ltb_lt in F.
      unfold pnpm_text. now rewrite (subn_marks c F).
    + rewrite (sub_not_found _ _ _ F). unfold pnpm_text. rewrite Ec.
      now apply sub_not_found.
Qed.

Lemma fix_pnpm_main_rewrites (fs : list (name * text)) (out : list text) :
  exists fs' out',
    run_script FixPnpm.main (World (Some fs) out) =
      (0, World (Some fs') out') /\
    forall n,
      lookup n fs' =
      option_map (fun c => if ends_with (txt ".yml") n &&
                              contains (txt "cache: 'pnpm'") c
                           then pnpm_text c else c)
                 (lookup n fs).
Proof.
  unfold FixPnpm.main.
  erewrite run_script_bind by reflexivity.
  erewrite run_script_bind by apply fix_pnpm_find.
  erewrite run_script_bind by reflexivity.
  match goal with
  | |- context [run_script (bind (for_in ?xs ?body ?acc) ?k) ?w] =>
      pose proof (fun B => loop_rewrites (fun _ => True)
                    pnpm_text pnpm_text_idempotent _ body B fs xs) as LR;
      premise LR; [|premise LR; [|specialize (LR [] acc fs (stdout w));
                                  premise LR]]
  end.
  - intros x acc fs1 out1 c _ Hl.
    erewrite run_bind by reflexivity. cbn [dir stdout].
    pose proof (fix_pnpm_file x c fs1 (out1 ++ [txt "Processing: " ++ x]) Hl)
      as Ef.
    unfold pnpm_text.
    destruct (contains (txt "pnpm/action-setup") c) eqn:Ec;
      [|destruct (0 <? findall_count FixPnpm.pattern c) eqn:En];
      erewrite run_bind by exact Ef; cbv beta iota;
      (erewrite run_bind by reflexivity);
      (eexists; eexists; eexists; split; [reflexivity|]); intros n _.
    + destruct (text_eqb n x) eqn:E; [|reflexivity].
      apply text_eqb_eq in E. now subst n.
    + apply lookup_store.
    + destruct (text_eqb n x) eqn:E; [|reflexivity].
      apply text_eqb_eq in E. subst n. rewrite Hl. f_equal. symmetry.
      apply sub_not_found. now rewrite found_counted.
  - intros x Hx. split; [exact I|].
    now apply yml_names_present, (marked_files_in _ _ _ Hx).
  - intros n _. now destruct (lookup n fs).
  - destruct LR as (modified & fs' & out' & E & L).
    erewrite run_script_bind by exact E.
    match goal with
    | |- context [run_script ?c (World ?d ?o)] =>
        destruct (run_script_same c d o) as (o' & Es)
    end.
    { apply safe_bind; [apply safe_print | intros _].
      apply safe_bind; [apply safe_print | intros _].
      apply safe_for_in. intros; apply safe_print. }
    exists fs', o'. split; [exact Es|].
    intros n. rewrite (L n I). cbn [app].
    destruct (lookup n fs) as [c|] eqn:El; [|reflexivity].
    cbn [option_map]. now rewrite (marked_among _ fs n c El).
Qed.

(** *** fix-github-workflows.py *)

Lemma fix_github_main_rewrites (fs : list (name * text)) (out : list text) :
  exists fs' out',
    run_script FixGithub.main (World (Some fs) out) =
      (0, World (Some fs') out') /\
    forall n,
      ends_with (txt ".yml") n = true ->
      lookup n fs' = option_map fix_github_text (lookup n fs).
Proof.
  unfold run_script, FixGithub.main.
  do 2 run_step. cbn [negb]. run_step.
  erewrite (run_bind (bind glob_yml _)) by reflexivity; cbv beta.
  match goal with
  | |- context [bind (for_in ?xs ?body ?acc) ?k ?w] =>
      pose proof (fun B => loop_rewrites
                    (fun n => ends_with (txt ".yml") n = true)
                    fix_github_text fix_github_text_idempotent
                    _ body B fs xs) as LR;
      premise LR; [|premise LR; [|specialize (LR [] acc fs (stdout w));
                                  premise LR]]
  end.
  - intros x [fixed_count skipped_count] fs1 out1 c Cx Hl.
    erewrite run_bind by reflexivity. cbn [dir stdout].
    destruct (fix_workflow_cases x c fs1
                (out1 ++ [txt "Processing: " ++ x]) Hl) as ([|] & Hu & H).
    + destruct H as (o' & Ef).
      erewrite run_bind by exact Ef. cbv beta iota.
      erewrite run_bind by reflexivity.
      eexists; eexists; eexists; split; [reflexivity|]. intros n Cn.
      rewrite lookup_store.
      destruct (text_eqb n x); [reflexivity|].
      apply lookup_store_other. now apply backup_is_no_workflow.
    + erewrite run_bind by exact H. cbv beta iota.
      erewrite run_bind by reflexivity.
      eexists; eexists; eexists; split; [reflexivity|]. intros n Cn.
      destruct (text_eqb n x) eqn:En; [|reflexivity].
      apply text_eqb_eq in En. subst n. now rewrite Hu.
  - intros x Hx. apply sorted_in in Hx. split.
    + unfold yml_names in Hx. now apply filter_In in Hx.
    + now apply yml_names_present.
  - intros n _. now destruct (lookup n fs).
  - destruct LR as ([fixed skipped] & fs' & out' & E & L).
    erewrite run_bind by exact E. cbv beta iota.
    do 4 run_step.
    exists fs'. eexists. split; [reflexivity|].
    intros n Cn. rewrite (L n Cn). cbn [app].
    destruct (lookup n fs) as [c|] eqn:El; [|reflexivity].
    cbn [option_map].
    pose proof (sorted_yml_among fs n c El) as Ea.
    unfold yml_names in Ea. now rewrite Ea, Cn.
Qed.

(** X14.  A run of fix-all-pnpm-workflows.py ends with status 0, over a
    missing directory too.  It leaves the directory with the same files:
    every file whose name ends in [.yml] holds the text its rules make of
    the text it had, and every other file holds the text it had. *)
Theorem X14_fix_all_main_rewrites_every_workflow
        (fs : list (name * text)) (out : list text) :
  (exists fs' out',
      run_script FixAll.main (World (Some fs) out) =
        (0, World (Some fs') out') /\
      forall n,
        lookup n fs' =
        option_map (fun c => if ends_with (txt ".yml") n
                             then fst (FixAll.fix_content c) else c)
                   (lookup n fs)) /\
  (exists out',
      run_script FixAll.main (World None out) = (0, World None out')).
Proof. split; [apply fix_all_main_rewrites | eexists; reflexivity]. Qed.

(** X15.  A run of update-pnpm-version.py ends with status 0, over a
    missing directory too.  It leaves the directory with the same files:
    every [*.yml] file that contains [pnpm/action-setup] holds the text
    its rule makes of the text it had, and every other file holds the
    text it had. *)
Theorem X15_update_main_rewrites_the_marked_workflows
        (fs : list (name * text)) (out : list text) :
  (exists fs' out',
      run_script UpdateVersion.main (World (Some fs) out) =
        (0, World (Some fs') out') /\
      forall n,
        lookup n fs' =
        option_map (fun c => if ends_with (txt ".yml") n &&
                                contains (txt "pnpm/action-setup") c
                             then UpdateVersion.new_content c else c)
                   (lookup n fs)) /\
  (exists out',
      run_script UpdateVersion.main (World None out) = (0, World None out')).
Proof. split; [apply update_main_rewrites | eexists; reflexivity]. Qed.

(** X16.  A run of fix-pnpm-workflows.py ends with status 0, over a
    missing directory too.  It leaves the directory with the same files:
    every [*.yml] file that contains [cache: 'pnpm'] is left as it was if
    it has [pnpm/action-setup] and else holds its text with the blocks put
    in, and every other file holds the text it had. *)
Theorem X16_fix_pnpm_main_rewrites_the_marked_workflows
        (fs : list (name * text)) (out : list text) :
  (exists fs' out',
      run_script FixPnpm.main (World (Some fs) out) =
        (0, World (Some fs') out') /\
      forall n,
        lookup n fs' =
        option_map (fun c => if ends_with (txt ".yml") n &&
                                contains (txt "cache: 'pnpm'") c
                             then pnpm_text c else c)
                   (lookup n fs)) /\
  (exists out',
      run_script FixPnpm.main (World None out) = (0, World None out')).
Proof. split; [apply fix_pnpm_main_rewrites | eexists; reflexivity]. Qed.

(** X13.  Over an existing directory a run of fix-github-workflows.py
    ends with status 0 and deletes no file.  Every file whose name ends in
    [.yml] holds the text the rewrite makes of the text it had.  A file
    with another name that is not the backup of a [*.yml] file holds the
    text it had. *)
Theorem X13_fix_github_main_rewrites_workflows_and_backs_up
        (fs : list (name * text)) (out : list text) :
  exists fs' out',
    run_script FixGithub.main (World (Some fs) out) =
      (0, World (Some fs') out') /\
    (forall n, ends_with (txt ".yml") n = true ->
               lookup n fs' = option_map fix_github_text (lookup n fs)) /\
    (forall n, ends_with (txt ".yml") n = false ->
               ~ In n (map FixGithub.backup_path (yml_names fs)) ->
               lookup n fs' = lookup n fs) /\
    (forall n, lookup n fs <> None -> lookup n fs' <> None).
Proof.
  destruct (fix_github_main_rewrites fs out) as (fs' & out' & E & L).
  destruct (fix_github_main_run fs out)
    as (fs1 & before & fixed & skipped & E1 & _ & (fs2 & [= <-] & K & O)).
  rewrite E in E1. injection E1 as <- _.
  exists fs', out'. split; [exact E|]. split; [exact L|].
  split; [|exact K].
  intros n Hn Hb. apply O; [|exact Hb].
  unfold yml_names. rewrite filter_In. intros [_ H]. congruence.
Qed.

(** X17.  A second run over the directory that a first run left changes
    no file, for fix-all-pnpm-workflows.py, update-pnpm-version.py and
    fix-pnpm-workflows.py; a second run of fix-github-workflows.py
    changes no [*.yml] file. *)
Theorem X17_second_run_changes_no_workflow
        (fs : list (name * text)) (out out2 : list text) :
  (exists fs1 o1 fs2 o2,
      run_script FixAll.main (World (Some fs) out) =
        (0, World (Some fs1) o1) /\
      run_script FixAll.main (World (Some fs1) out2) =
        (0, World (Some fs2) o2) /\
      forall n, lookup n fs2 = lookup n fs1) /\
  (exists fs1 o1 fs2 o2,
      run_script UpdateVersion.main (World (Some fs) out) =
        (0, World (Some fs1) o1) /\
      run_script UpdateVersion.main (World (Some fs1) out2) =
        (0, World (Some fs2) o2) /\
      forall n, lookup n fs2 = lookup n fs1) /\
  (exists fs1 o1 fs2 o2,
      run_script FixPnpm.main (World (Some fs) out) =
        (0, World (Some fs1) o1) /\
      run_script FixPnpm.main (World (Some fs1) out2) =
        (0, World (Some fs2) o2) /\
      forall n, lookup n fs2 = lookup n fs1) /\
  (exists fs1 o1 fs2 o2,
      run_script FixGithub.main (World (Some fs) out) =
        (0, World (Some fs1) o1) /\
      run_script FixGithub.main (World (Some fs1) out2) =
        (0, World (Some fs2) o2) /\
      forall n, ends_with (txt ".yml") n = true ->
                lookup n fs2 = lookup n fs1).
Proof.
  split; [|split; [|split]].
  - destruct (fix_all_main_rewrites fs out) as (fs1 & o1 & E1 & L1).
    destruct (fix_all_main_rewrites fs1 out2) as (fs2 & o2 & E2 & L2).
    exists fs1, o1, fs2, o2. split; [exact E1|]. split; [exact E2|].
    intros n. rewrite (L2 n), (L1 n).
    destruct (lookup n fs) as [c|]; [|reflexivity].
    cbn [option_map]. f_equal.
    destruct (ends_with (txt ".yml") n); [|reflexivity].
    apply fix_all_idempotent.
  - destruct (update_main_rewrites fs out) as (fs1 & o1 & E1 & L1).
    destruct (update_main_rewrites fs1 out2) as (fs2 & o2 & E2 & L2).
    exists fs1, o1, fs2, o2. split; [exact E1|]. split; [exact E2|].
    intros n. rewrite (L2 n), (L1 n).
    destruct (lookup n fs) as [c|]; [|reflexivity].
    cbn [option_map]. f_equal.
    destruct (ends_with (txt ".yml") n); cbn [andb]; [|reflexivity].
    destruct (contains (txt "pnpm/action-setup") c) eqn:Ec;
      [|now rewrite Ec].
    destruct (contains _ (UpdateVersion.new_content c)); [|reflexivity].
    apply new_content_idempotent.
  - destruct (fix_pnpm_main_rewrites fs out) as (fs1 & o1 & E1 & L1).
    destruct (fix_pnpm_main_rewrites fs1 out2) as (fs2 & o2 & E2 & L2).
    exists fs1, o1, fs2, o2. split; [exact E1|]. split; [exact E2|].
    intros n. rewrite (L2 n), (L1 n).
    destruct (lookup n fs) as [c|]; [|reflexivity].
    cbn [option_map]. f_equal.
    destruct (ends_with (txt ".yml") n); cbn [andb]; [|reflexivity].
    destruct (contains (txt "cache: 'pnpm'") c) eqn:Ec;
      [|now rewrite Ec].
    destruct (contains _ (pnpm_text c)); [|reflexivity].
    apply pnpm_text_idempotent.
  - destruct (fix_github_main_rewrites fs out) as (fs1 & o1 & E1 & L1).
    destruct (fix_github_main_rewrites fs1 out2) as (fs2 & o2 & E2 & L2).
    exists fs1, o1, fs2, o2. split; [exact E1|]. split; [exact E2|].
    intros n Hn. rewrite (L2 n Hn), (L1 n Hn).
    destruct (lookup n fs) as [c|]; [|reflexivity].
    cbn [option_map]. now rewrite fix_github_text_idempotent.
Qed.

(** *** The order of update-pnpm-version.py and fix-pnpm-workflows.py *)

Lemma run_script_emits (P : option (list (name * text)) -> Prop)
      (per : text -> option name) (main : IO unit) (names : list name)
      (w : world) :
  emits P per main names -> P (dir w) ->
  exists w' lines,
    run_script main w = (0, w') /\
    stdout w' = stdout w ++ lines /\ named per lines = names.
Proof.
  intros H Hw. destruct (H w Hw) as (a & w' & lines & E & _ & O & N).
  exists w', lines. unfold run_script. now rewrite E.
Qed.

Lemma marked_files_present (marker : text) (fs : list (name * text)) :
  has_all (marked_files marker fs) (Some fs).
Proof.
  exists fs. split; [reflexivity|]. intros n Hn.
  now apply yml_names_present, (marked_files_in _ _ _ Hn).
Qed.

Lemma update_file_emits (names : list name) (file : name) :
  In file names ->
  emits (has_all names) processing_line
    (UpdateVersion.update_pnpm_version file) [].
Proof.
  intros Hf. unfold UpdateVersion.update_pnpm_version.
  apply emits_nothing; [now apply emits_read, has_all_read|].
  intros c.
  destruct (negb (text_eqb (UpdateVersion.new_content c) c));
    [|apply emits_ret].
  apply emits_nothing; [apply emits_write, has_all_write|].
  intros _. apply emits_ret.
Qed.

Lemma fix_pnpm_file_emits (names : list name) (file : name) :
  In file names ->
  emits (has_all names) processing_line
    (FixPnpm.fix_workflow_file file) [].
Proof.
  intros Hf. unfold FixPnpm.fix_workflow_file.
  apply emits_nothing; [now apply emits_read, has_all_read|].
  intros c.
  destruct (contains (txt "pnpm/action-setup") c); [apply emits_ret|].
  destruct (subn FixPnpm.pattern FixPnpm.replacement c) as [new count].
  destruct (0 <? count); [|apply emits_ret].
  apply emits_nothing; [apply emits_write, has_all_write|].
  intros _. apply emits_ret.
Qed.

Lemma names_emit (P : option (list (name * text)) -> Prop)
      (modified : list name) :
  emits P processing_line
    (for_in modified (fun n _ => print (txt "  - " ++ n)) tt) [].
Proof.
  assert (E : flat_map (fun _ : name => @nil name) modified = []).
  { induction modified; [reflexivity | assumption]. }
  rewrite <- E. apply emits_for_in. intros n [] _.
  now apply emits_print_as.
Qed.

Lemma update_main_order (fs : list (name * text)) (out : list text) :
  exists w' lines,
    run_script UpdateVersion.main (World (Some fs) out) = (0, w') /\
    stdout w' = out ++ lines /\
    named processing_line lines = marked_files (txt "pnpm/action-setup") fs.
Proof.
  unfold UpdateVersion.main.
  erewrite run_script_bind by reflexivity.
  erewrite run_script_bind by apply update_find.
  erewrite run_script_bind by reflexivity.
  set (files := marked_files (txt "pnpm/action-setup") fs).
  match goal with
  | |- context [run_script ?c ?w] =>
      destruct (run_script_emits (has_all files) processing_line c files w)
        as (w' & lines & E & O & N)
  end.
  - apply emits_first.
    + rewrite <- (flat_map_singleton files) at 3.
      apply emits_for_in. intros f modified Hf.
      apply emits_first; [now apply emits_print_as | intros _].
      apply emits_nothing; [now apply update_file_emits|].
      intros [[|] message];
        (apply emits_nothing; [now apply emits_print_as | intros _]);
        apply emits_ret.
    + intros modified.
      apply emits_nothing; [now apply emits_print_as | intros _].
      destruct modified; [now apply emits_print_as|].
      apply emits_nothing; [now apply emits_print_as | intros _].
      apply names_emit.
  - apply marked_files_present.
  - exists w'. eexists. split; [exact E|]. cbn [stdout] in O.
    split; [rewrite O, <- !app_assoc; reflexivity|].
    unfold named in *. rewrite !flat_map_app, N. reflexivity.
Qed.

Lemma fix_pnpm_main_order (fs : list (name * text)) (out : list text) :
  exists w' lines,
    run_script FixPnpm.main (World (Some fs) out) = (0, w') /\
    stdout w' = out ++ lines /\
    named processing_line lines = marked_files (txt "cache: 'pnpm'") fs.
Proof.
  unfold FixPnpm.main.
  erewrite run_script_bind by reflexivity.
  erewrite run_script_bind by apply fix_pnpm_find.
  erewrite run_script_bind by reflexivity.
  set (files := marked_files (txt "cache: 'pnpm'") fs).
  match goal with
  | |- context [run_script ?c ?w] =>
      destruct (run_script_emits (has_all files) processing_line c files w)
        as (w' & lines & E & O & N)
  end.
  - apply emits_first.
    + rewrite <- (flat_map_singleton files) at 3.
      apply emits_for_in. intros f modified Hf.
      apply emits_first; [now apply emits_print_as | intros _].
      apply emits_nothing; [now apply fix_pnpm_file_emits|].
      intros [[|] message];
        (apply emits_nothing; [now apply emits_print_as | intros _]);
        apply emits_ret.
    + intros modified.
      apply emits_nothing; [now apply emits_print_as | intros _].
      apply emits_nothing; [now apply emits_print_as | intros _].
      apply names_emit.
  - apply marked_files_present.
  - exists w'. eexists. split; [exact E|]. cbn [stdout] in O.
    split; [rewrite O, <- !app_assoc; reflexivity|].
    unfold named in *. rewrite !flat_map_app, N. reflexivity.
Qed.

(** X20.  update-pnpm-version.py and fix-pnpm-workflows.py do not sort:
    over an existing directory the run ends normally, and its
    [Processing: ...] lines name the [*.yml] files with the marker in the
    order in which the directory lists them. *)
Theorem X20_unsorted_scripts_report_in_listing_order
        (fs : list (name * text)) (out : list text) :
  (exists w' lines,
      run_script UpdateVersion.main (World (Some fs) out) = (0, w') /\
      stdout w' = out ++ lines /\
      named processing_line lines =
        marked_files (txt "pnpm/action-setup") fs) /\
  (exists w' lines,
      run_script FixPnpm.main (World (Some fs) out) = (0, w') /\
      stdout w' = out ++ lines /\
      named processing_line lines = marked_files (txt "cache: 'pnpm'") fs).
Proof. split; [apply update_main_order | apply fix_pnpm_main_order]. Qed.

(** ** One script after another *)

Lemma contains_longer (a b s : text) :
  contains a s = false -> contains (a ++ b) s = false.
Proof.
  intros H. destruct (contains (a ++ b) s) eqn:E; [|reflexivity].
  apply contains_iff in E as (u & v & ->).
  rewrite <- H. symmetry. apply contains_iff.
  exists u, (b ++ v). now rewrite <- app_assoc.
Qed.

Lemma absent_app_r (k p s : text) :
  k <> [] -> apart s (tl k) = true -> apart k s = true ->
  contains k p = false -> contains k (p ++ s) = false.
Proof.
  intros Hk H1 H2 Hp. rewrite <- (app_nil_r s).
  apply absent_insert; try assumption.
  destruct k; [congruence | reflexivity].
Qed.

(** *** fix-all-pnpm-workflows.py after fix-github-workflows.py *)

Lemma fix_all_bumps_inserted_setup (p q : text) :
  contains (txt "pnpm/action-setup") p = false ->
  contains (txt "pnpm/action-setup") q = false ->
  FixAll.fix_content (p ++ FixGithub.PNPM_SETUP ++ q) =
  (p ++ bumped_setup ++ q, [FixAll.change1 1; FixAll.change2 1]).
Proof.
  intros Hp Hq.
  apply (contains_longer _ (txt "@v")) in Hp, Hq.
  pose proof (one_setup_content
                (p ++ txt "      - name: Install pnpm" ++ [NL] ++
                 txt "        ")
                (NL :: txt "        ") (NL :: txt "          ") (txt " ")
                ([NL; NL] ++ q)) as H.
  unfold version_field, setup_ref in H.
  unfold FixGithub.PNPM_SETUP, bumped_setup.
  rewrite <- !app_assoc in H. rewrite <- !app_assoc.
  apply H; try reflexivity; try discriminate.
  - apply (absent_app_r _ p (txt "      - name: Install pnpm" ++ [NL] ++
                             txt "        "));
      [discriminate | reflexivity | reflexivity | exact Hp].
  - apply apart_absent; [reflexivity | exact Hq].
Qed.

(** *** update-pnpm-version.py after fix-pnpm-workflows.py *)

Lemma inserted_app_copy (block : text) (step : text -> Prop)
      (x s o : text) (n : nat) :
  inserted block step n s o -> inserted block step n (x ++ s) (x ++ o).
Proof. intros H. induction x as [|c x IH]; [exact H | now constructor]. Qed.

(** What a text with blocks put in starts with, the text started with,
    if a block cannot be mistaken for a part of it. *)
Lemma inserted_starts (block : text) (step : text -> Prop)
      (n : nat) (s o : text) :
  inserted block step n s o ->
  forall k, apart block k = true ->
            starts_with k o = true -> starts_with k s = true.
Proof.
  induction 1 as [|c s o n _ IH|u s o n _ _ _]; intros k Hk H.
  - exact H.
  - destruct k as [|x k]; [reflexivity|]. cbn [starts_with] in *.
    apply andb_prop in H as [-> H]. cbn [andb].
    apply IH; [|exact H]. exact (apart_tl _ _ Hk).
  - destruct k as [|x k]; [reflexivity|]. exfalso.
    cbn [apart] in Hk. apply andb_prop in Hk as [Hc _].
    rewrite clash_sym in Hc.
    now rewrite (clash_starts _ _ _ Hc) in H.
Qed.

Lemma update_needs_ref (repl : text -> text) (s : text) :
  starts_with (txt "uses: pnpm/action-setup@v2") s = false ->
  regex_match UpdateVersion.pattern repl s = None.
Proof.
  intros H. unfold regex_match, match_here.
  now rewrite update_pattern_shape, match_lit, H.
Qed.

Lemma marker_free_no_ref (s : text) :
  contains (txt "pnpm/action-setup") s = false ->
  starts_with (txt "uses: pnpm/action-setup@v2") s = false.
Proof.
  intros H. destruct (starts_with _ s) eqn:E; [|reflexivity].
  apply starts_with_iff in E as [r ->].
  rewrite <- H. symmetry. apply contains_iff.
  exists (txt "uses: "), (txt "@v2" ++ r). reflexivity.
Qed.

Lemma update_skips_inserted (repl : text -> text) (n : nat) (s o : text) :
  inserted FixPnpm.PNPM_SETUP node_step n s o ->
  contains (txt "pnpm/action-setup") s = false ->
  regex_match UpdateVersion.pattern repl o = None.
Proof.
  intros Hi Hs. apply update_needs_ref.
  destruct (starts_with _ o) eqn:E; [|reflexivity].
  apply (inserted_starts _ _ _ _ _ Hi) in E; [|reflexivity].
  now rewrite (marker_free_no_ref s Hs) in E.
Qed.

Lemma update_bumps_block (t : text) :
  UpdateVersion.new_content (FixPnpm.PNPM_SETUP ++ t) =
    updated_setup ++ UpdateVersion.new_content t /\
  findall_count UpdateVersion.pattern (FixPnpm.PNPM_SETUP ++ t) =
    S (findall_count UpdateVersion.pattern t).
Proof.
  set (pre := txt "      - name: " ++ [128230%N] ++ txt " Setup pnpm" ++
              [NL] ++ txt "        ").
  set (win := txt "uses: pnpm/action-setup@v2" ++ (NL :: txt "        ") ++
              txt "with:" ++ (NL :: txt "          ") ++ txt "version:").
  assert (Eb : FixPnpm.PNPM_SETUP ++ t =
               pre ++ (win ++ txt " 8") ++ NL :: NL :: t).
  { unfold FixPnpm.PNPM_SETUP, pre, win. now rewrite <- !app_assoc. }
  assert (Eu : updated_setup ++ UpdateVersion.new_content t =
               pre ++ (win ++ txt " 10") ++
               NL :: NL :: UpdateVersion.new_content t).
  { unfold updated_setup, pre, win. now rewrite <- !app_assoc. }
  rewrite Eb, Eu. clear Eb Eu.
  assert (Hm : forall repl,
             regex_match UpdateVersion.pattern repl
               ((win ++ txt " 8") ++ NL :: NL :: t) =
             Some (length (win ++ txt " 8"), repl win)).
  { intros repl. unfold regex_match.
    pose proof (update_pattern_match
                  (NL :: txt "        ") (NL :: txt "          ") (txt " ")
                  (chr "8") (NL :: NL :: t)) as M.
    unfold win. rewrite <- !app_assoc.
    cbn [app txt] in M |- *. rewrite M; try reflexivity; discriminate. }
  assert (Hq : forall repl rest,
             quiet (regex_match UpdateVersion.pattern repl) pre rest).
  { intros repl rest.
    apply (quiet_apart _ (txt "uses: pnpm/action-setup@v2"));
      [apply update_needs_ref | reflexivity]. }
  assert (Hn : forall repl rest,
             regex_match UpdateVersion.pattern repl (NL :: rest) = None)
    by (intros; now apply update_needs_ref).
  assert (Hu : win ++ txt " 8" <> []) by discriminate.
  unfold UpdateVersion.new_content, sub, findall_count. split.
  - rewrite scan_quiet by apply Hq.
    rewrite (scan_hit _ _ _ _ Hu (Hm _)).
    now rewrite !scan_miss by apply Hn.
  - rewrite scan_count_quiet by apply Hq.
    rewrite (scan_count_hit _ _ _ _ Hu (Hm _)).
    now rewrite !scan_count_miss by apply Hn.
Qed.

Lemma update_after_fix_pnpm (s : text) :
  contains (txt "pnpm/action-setup") s = false ->
  UpdateVersion.new_content (sub FixPnpm.pattern FixPnpm.replacement s) =
    sub FixPnpm.pattern (fun g => updated_setup ++ g) s /\
  findall_count UpdateVersion.pattern
    (sub FixPnpm.pattern FixPnpm.replacement s) =
    findall_count FixPnpm.pattern s.
Proof.
  assert (Hnone : forall (r1 r2 : text -> text) t,
             regex_match FixPnpm.pattern r1 t = None ->
             regex_match FixPnpm.pattern r2 t = None).
  { intros r1 r2 t H. apply regex_match_none.
    now apply regex_match_none in H. }
  enough (H : sub FixPnpm.pattern FixPnpm.replacement s =
              sub FixPnpm.pattern FixPnpm.replacement s /\
              (contains (txt "pnpm/action-setup") s = false ->
               UpdateVersion.new_content
                 (sub FixPnpm.pattern FixPnpm.replacement s) =
                 sub FixPnpm.pattern (fun g => updated_setup ++ g) s /\
               findall_count UpdateVersion.pattern
                 (sub FixPnpm.pattern FixPnpm.replacement s) =
                 findall_count FixPnpm.pattern s)) by apply H.
  unfold sub at 1 3, findall_count at 2.
  apply (scan_induction (regex_match FixPnpm.pattern FixPnpm.replacement)
           (regex_match_proper FixPnpm.pattern FixPnpm.replacement I)
           (fun s o =>
              o = sub FixPnpm.pattern FixPnpm.replacement s /\
              (contains (txt "pnpm/action-setup") s = false ->
               UpdateVersion.new_content o =
                 sub FixPnpm.pattern (fun g => updated_setup ++ g) s /\
               findall_count UpdateVersion.pattern o =
                 scan_count (regex_match FixPnpm.pattern (fun g => g)) 0 s))).
  - assert (E : forall repl, regex_match FixPnpm.pattern repl [] = None).
    { intros repl.
      destruct (regex_match FixPnpm.pattern repl []) as [[e o]|] eqn:M;
        [|reflexivity].
      apply (regex_match_proper FixPnpm.pattern _ I) in M. simpl in M. lia. }
    unfold sub. cbn [scan scan_count]. rewrite !E.
    split; [reflexivity|]. intros _. split; [|reflexivity].
    unfold UpdateVersion.new_content, sub. cbn [scan].
    now rewrite update_needs_ref.
  - intros c t o Hm [Eo IH]. split.
    { unfold sub. rewrite scan_miss by exact Hm. now f_equal. }
    intros Hs.
    pose proof (fix_pnpm_inserted t) as Hi. rewrite <- Eo in Hi.
    destruct (IH (proj2 (contains_cons _ _ _ Hs))) as [IH1 IH2].
    assert (Hu : forall repl,
               regex_match UpdateVersion.pattern repl (c :: o) = None).
    { intros repl.
      apply (update_skips_inserted repl
               (findall_count FixPnpm.pattern t) (c :: t));
        [now constructor | exact Hs]. }
    split.
    + unfold UpdateVersion.new_content, sub in *.
      rewrite scan_miss by apply Hu.
      rewrite (scan_miss _ c t) by (now apply (Hnone FixPnpm.replacement)).
      now f_equal.
    + unfold findall_count in *.
      rewrite scan_count_miss by apply Hu.
      rewrite (scan_count_miss _ c t)
        by (now apply (Hnone FixPnpm.replacement)).
      exact IH2.
  - intros u t out o Hu Hm [Eo IH].
    assert (Eout : out = FixPnpm.PNPM_SETUP ++ u).
    { unfold regex_match in Hm.
      destruct (match_here FixPnpm.pattern (u ++ t)) as [[e g]|] eqn:M;
        [|discriminate].
      injection Hm as -> <-.
      destruct (fix_pnpm_pattern_inv _ _ _ M) as (u' & rest & _ & E & L & ->).
      rewrite <- L. now rewrite firstn_exact. }
    assert (Hm' : forall repl,
               regex_match FixPnpm.pattern repl (u ++ t) =
               Some (length u, repl u)).
    { intros repl. unfold regex_match in *.
      destruct (match_here FixPnpm.pattern (u ++ t)) as [[e g]|] eqn:M;
        [|discriminate].
      injection Hm as -> _.
      destruct (fix_pnpm_pattern_inv _ _ _ M) as (u' & rest & _ & E & L & ->).
      rewrite <- L. now rewrite firstn_exact. }
    split.
    { unfold sub. rewrite (scan_hit _ _ _ _ Hu Hm). now f_equal. }
    intros Hs.
    assert (Ht : contains (txt "pnpm/action-setup") t = false).
    { rewrite <- (skipn_exact u t). now apply contains_skipn. }
    destruct (IH Ht) as [IH1 IH2].
    pose proof (fix_pnpm_inserted t) as Hi. rewrite <- Eo in Hi.
    assert (Hq : forall repl,
               quiet (regex_match UpdateVersion.pattern repl) u o).
    { intros repl n Hn.
      apply (update_skips_inserted repl
               (findall_count FixPnpm.pattern t) (skipn n u ++ t)).
      - now apply inserted_app_copy.
      - replace (skipn n u ++ t) with (skipn n (u ++ t)).
        + now apply contains_skipn.
        + rewrite skipn_app.
          replace (n - length u) with 0 by lia. reflexivity. }
    rewrite Eout, <- app_assoc.
    destruct (update_bumps_block (u ++ o)) as [B1 B2].
    rewrite B1, B2. split.
    + unfold sub. rewrite (scan_hit _ _ _ _ Hu (Hm' _)).
      rewrite <- app_assoc. f_equal.
      unfold UpdateVersion.new_content, sub in *.
      rewrite scan_quiet by apply Hq. now f_equal.
    + rewrite (scan_count_hit _ _ _ _ Hu (Hm' _)). f_equal.
      unfold findall_count in *.
      rewrite scan_count_quiet by apply Hq. exact IH2.
Qed.

(** X18.  fix-all-pnpm-workflows.py after fix-github-workflows.py: in a
    text whose only pnpm step is the block that [add_pnpm_setup] put in,
    the rules of fix-all-pnpm-workflows.py turn that block into the one
    with action [v2] and version [10], report one occurrence of each
    change, and leave the rest of the text as it is. *)
Theorem X18_fix_all_bumps_the_inserted_setup (c : text) (pos : nat) :
  FixGithub.has_pnpm_setup c = false ->
  FixAll.fix_content
    (firstn pos c ++ FixGithub.PNPM_SETUP ++ skipn pos c) =
  (firstn pos c ++ bumped_setup ++ skipn pos c,
   [FixAll.change1 1; FixAll.change2 1]).
Proof.
  intros H. apply fix_all_bumps_inserted_setup.
  - now apply contains_firstn.
  - now apply contains_skipn.
Qed.

Lemma X18_fix_all_bumps_the_inserted_setup_witness :
  FixAll.fix_content
    (firstn 10 node_workflow ++ FixGithub.PNPM_SETUP ++
     skipn 10 node_workflow) =
  (firstn 10 node_workflow ++ bumped_setup ++ skipn 10 node_workflow,
   [FixAll.change1 1; FixAll.change2 1]).
Proof.
  exact (X18_fix_all_bumps_the_inserted_setup node_workflow 10 eq_refl).
Defined.

(** X19.  update-pnpm-version.py after fix-pnpm-workflows.py: where the
    text had no [pnpm/action-setup], the rule of update-pnpm-version.py
    finds exactly the blocks that fix-pnpm-workflows.py put in, turns the
    version of each into [10] and changes nothing else: the result is what
    the substitution gives with the block of version [10]. *)
Theorem X19_update_bumps_the_inserted_blocks (s : text) :
  contains (txt "pnpm/action-setup") s = false ->
  UpdateVersion.new_content
    (fst (subn FixPnpm.pattern FixPnpm.replacement s)) =
    sub FixPnpm.pattern (fun group1 => updated_setup ++ group1) s /\
  findall_count UpdateVersion.pattern
    (fst (subn FixPnpm.pattern FixPnpm.replacement s)) =
    snd (subn FixPnpm.pattern FixPnpm.replacement s).
Proof. apply update_after_fix_pnpm. Qed.

Lemma X19_update_bumps_the_inserted_blocks_witness :
  UpdateVersion.new_content
    (fst (subn FixPnpm.pattern FixPnpm.replacement pnpm_cache_workflow)) =
    sub FixPnpm.pattern (fun group1 => updated_setup ++ group1)
      pnpm_cache_workflow /\
  findall_count UpdateVersion.pattern
    (fst (subn FixPnpm.pattern FixPnpm.replacement pnpm_cache_workflow)) =
    snd (subn FixPnpm.pattern FixPnpm.replacement pnpm_cache_workflow).
Proof.
  exact (X19_update_bumps_the_inserted_blocks pnpm_cache_workflow eq_refl).
Defined.
